(** * pddetect: the audio-to-spectrogram feature pipeline of [preprocessing.py]

    A shallow embedding of the preprocessing functions of the notebook
    ([load_and_preprocess_audio], [create_mel_spectrogram], [resize_for_cnn],
    [get_audio_augmenter], [spec_augment], the two loops of
    [process_dataset]) and the properties stated about them.

    Conventions of the embedding.
    - A float64 is idealised as a real number ([R]); NaN, infinities and
      rounding are outside the model.  [np.log10] is [ln x / ln 10] and
      [np.power(10, x)] is [Rpower 10 x].  The properties stated are those
      that rounding keeps (order, sign, bounds that a float reaches exactly,
      shapes, exceptions); equalities of computed values that hold only
      without rounding are not stated.
    - A Python [int] is a [Z]; an index into an array is a [nat].
    - A 2-D numpy array is the list of its rows (axis 0 first).  An array
      with no rows has no recorded width; every function below raises on such
      an array before the width could matter.
    - A Python call either returns or raises: [outcome].  Code that draws
      random numbers, mutates arrays or prints runs in the monad [M] over a
      [world] (heap of arrays, numpy's global random stream, stdout).
    - Functions of librosa, OpenCV and audiomentations are not part of the
      repository; they are fields of the records [Librosa], [Cv2] and
      [Audiomentations], and the theorems hold for every implementation.
      The exceptions are [librosa.power_to_db], the reduction with which
      [librosa.util.normalize] starts, a colour-map lookup and a channel
      swap, which are written out from their documentation. *)

From Stdlib Require Import String.
From Stdlib Require Import Reals Lra Lia ZArith Bool Arith List.
Import ListNotations.

Open Scope R_scope.

(** ** Python outcomes *)

Inductive exn : Type :=
| ValueError (msg : string)
| TypeError (msg : string)
| AttributeError (msg : string)
| ZeroDivisionError
| IndexError
| cv2_error (msg : string)
| OSError (msg : string)
| KeyboardInterrupt.

(** [except Exception] catches every class but the ones that derive from
    [BaseException] only. *)
Definition is_Exception (e : exn) : bool :=
  match e with
  | KeyboardInterrupt => false
  | _ => true
  end.

Definition is_TypeError (e : exn) : bool :=
  match e with
  | TypeError _ => true
  | _ => false
  end.

(** [str(e)] *)
Definition str_exn (e : exn) : string :=
  match e with
  | ValueError m | TypeError m | AttributeError m | cv2_error m | OSError m => m
  | ZeroDivisionError => "division by zero"
  | IndexError => "index out of range"
  | KeyboardInterrupt => EmptyString
  end.

Inductive outcome (A : Type) : Type :=
| Returned (a : A)
| Raised (e : exn).
Arguments Returned {A} a.
Arguments Raised {A} e.

Definition obind {A B : Type} (o : outcome A) (k : A -> outcome B) : outcome B :=
  match o with
  | Returned a => k a
  | Raised e => Raised e
  end.

Notation "'let?' x ':=' o 'in' k" := (obind o (fun x => k))
  (at level 10, x name, o at level 100, k at level 200).

(** ** numpy on lists and on lists of rows *)

Definition Matrix (A : Type) : Type := list (list A).

Definition shape0 {A : Type} (m : Matrix A) : nat := length m.

Definition shape1 {A : Type} (m : Matrix A) : nat :=
  match m with
  | [] => 0%nat
  | r :: _ => length r
  end.

(** every row has [w] entries *)
Definition rect {A : Type} (w : nat) (m : Matrix A) : Prop :=
  Forall (fun r => length r = w) m.

Definition Rgtb (x y : R) : bool := if Rlt_dec y x then true else false.

Definition zero_size (op : string) : exn :=
  ValueError ("zero-size array to reduction operation " ++ op
              ++ " which has no identity")%string.

(** [np.max] and [np.min] of a flat array *)
Definition np_max (l : list R) : outcome R :=
  match l with
  | [] => Raised (zero_size "maximum")
  | x :: t => Returned (fold_left Rmax t x)
  end.

Definition np_min (l : list R) : outcome R :=
  match l with
  | [] => Raised (zero_size "minimum")
  | x :: t => Returned (fold_left Rmin t x)
  end.

(** of a 2-D array: the reduction runs over all entries *)
Definition np_max2 (m : Matrix R) : outcome R := np_max (concat m).
Definition np_min2 (m : Matrix R) : outcome R := np_min (concat m).

(** [np.where(cond)[0]]: the indices at which [cond] holds, ascending *)
Fixpoint where_from (i : nat) (cond : list bool) : list nat :=
  match cond with
  | [] => []
  | b :: t => if b then i :: where_from (S i) t else where_from (S i) t
  end.

Definition np_where (cond : list bool) : list nat := where_from 0 cond.

Fixpoint zip_with {A B C : Type} (f : A -> B -> C) (l : list A) (l' : list B) : list C :=
  match l, l' with
  | a :: t, b :: t' => f a b :: zip_with f t t'
  | _, _ => []
  end.

(** [np.sum(m, axis=0)]: one sum per column *)
Definition np_sum_axis0 (m : Matrix R) : list R :=
  fold_right (zip_with Rplus) (repeat 0 (shape1 m)) m.

(** [l[start:stop]] for Python integers [start] and [stop] *)
Definition slice_index (len : nat) (i : Z) : nat :=
  let i' := if (i <? 0)%Z then (i + Z.of_nat len)%Z else i in
  Z.to_nat (Z.min (Z.max 0 i') (Z.of_nat len)).

Definition py_slice {A : Type} (start stop : Z) (l : list A) : list A :=
  let a := slice_index (length l) start in
  let b := slice_index (length l) stop in
  firstn (b - a) (skipn a l).

(** [m[:, :stop]] *)
Definition cols_upto {A : Type} (stop : Z) (m : Matrix A) : Matrix A :=
  map (py_slice 0 stop) m.

(** ** librosa *)

Definition log10 (x : R) : R := ln x / ln 10.
Definition pow10 (x : R) : R := Rpower 10 x.

Record Librosa : Type := {
  (** [librosa.load(path, sr=sr)[0]] *)
  librosa_load : string -> Z -> outcome (list R);
  (** [librosa.effects.trim(y, top_db=top_db)[0]]; it pads the frames and
      returns on every waveform, the empty one included *)
  librosa_effects_trim : list R -> R -> list R;
  (** [librosa.feature.rms(y=y, frame_length=.., hop_length=..)[0]]; it pads
      the frames and returns on every waveform, the empty one included *)
  librosa_feature_rms : list R -> Z -> Z -> list R;
  (** the scaling of [librosa.util.normalize(y)], for a waveform with a
      sample; see [util_normalize] below for the call *)
  librosa_util_normalize : list R -> list R;
  (** [librosa.feature.melspectrogram(y=.., sr=.., n_fft=.., hop_length=.., n_mels=..)] *)
  librosa_feature_melspectrogram : list R -> Z -> Z -> Z -> Z -> Matrix R
}.

(** [librosa.power_to_db(S, ref=np.max)] with librosa's defaults
    [amin=1e-10], [top_db=80.0]:
    [log_spec = 10*log10(maximum(amin, S)) - 10*log10(maximum(amin, ref(S)))],
    then [maximum(log_spec, log_spec.max() - top_db)].  The logarithms are
    those of the reals; float64 rounds each of the two terms, so the decibels
    of two different clips are not compared for equality below: what is
    stated is their sign, their order and the value 0 dB of the peak (the
    difference of two equal floats). *)
Definition amin : R := / 10 ^ 10.
Definition top_db : R := 80.

Definition log_spec_of (ref_value : R) (x : R) : R :=
  10 * log10 (Rmax amin x) - 10 * log10 (Rmax amin ref_value).

Definition power_to_db (power : Matrix R) : outcome (Matrix R) :=
  let? ref_value := np_max2 power in
  let log_spec := map (map (log_spec_of ref_value)) power in
  let? peak := np_max2 log_spec in
  Returned (map (map (fun v => Rmax v (peak - top_db))) log_spec).

(** ** Constants of the notebook *)

Definition SAMPLE_RATE : Z := 16000.
Definition DURATION : Z := 3.
Definition TARGET_LENGTH : Z := SAMPLE_RATE * DURATION.
Definition FFT_WINDOW : Z := 1024.
Definition HOP_LENGTH : Z := 160.
Definition N_MELS : Z := 128.
Definition IMG_SIZE : Z := 224.
Definition SEED : Z := 42.

(** ** create_mel_spectrogram *)

Definition last_index (l : list nat) : Z := Z.of_nat (last l 0%nat).

(** lines 92-105: the crop of trailing low-energy columns *)
Definition crop_trailing (mel_spec_db : Matrix R) : outcome (Matrix R) :=
  let eps := / 10 ^ 10 in
  let spec_energy :=
    map (fun s => s + eps)
        (np_sum_axis0 (map (map (fun v => pow10 (v / 10))) mel_spec_db)) in
  let? mx := np_max spec_energy in
  let threshold := (1 / 100) * mx in
  let active_cols := np_where (map (fun e => Rgtb e threshold) spec_energy) in
  if (0 <? length active_cols)%nat then
    let padding := 5%Z in
    let end_col :=
      Z.min (last_index active_cols + padding)
            (Z.of_nat (shape1 mel_spec_db) - 1) in
    Returned (cols_upto (end_col + 1) mel_spec_db)
  else
    Returned mel_spec_db.

Definition create_mel_spectrogram (L : Librosa) (audio : list R)
    (sr n_fft hop_length n_mels : Z) : outcome (Matrix R) :=
  let mel_spec := librosa_feature_melspectrogram L audio sr n_fft hop_length n_mels in
  let? mel_spec_db := power_to_db mel_spec in
  crop_trailing mel_spec_db.

(** ** The world: arrays on the heap, numpy's random stream, stdout *)

Definition ref : Type := nat.

Record world : Type := {
  heap : list (Matrix R);
  (** the raw values the global generator will deliver, in order *)
  rng : nat -> nat;
  stdout : list string
}.

Definition M (A : Type) : Type := world -> outcome A * world.

Definition ret {A : Type} (a : A) : M A := fun w => (Returned a, w).

Definition raise {A : Type} (e : exn) : M A := fun w => (Raised e, w).

Definition bind {A B : Type} (c : M A) (k : A -> M B) : M B :=
  fun w =>
    match c w with
    | (Returned a, w') => k a w'
    | (Raised e, w') => (Raised e, w')
    end.

Definition lift {A : Type} (o : outcome A) : M A := fun w => (o, w).

Notation "x <- c ;; k" := (bind c (fun x => k))
  (at level 61, c at next level, right associativity).
Notation "c ;;; k" := (bind c (fun _ => k))
  (at level 61, right associativity).

(** [print(msg)] *)
Definition print (msg : string) : M unit :=
  fun w => (Returned tt,
            {| heap := heap w; rng := rng w; stdout := stdout w ++ [msg] |}).

(** [np.random.randint(low, high)]: an integer of [low, high); numpy checks
    the range before it touches the generator, and words the error for
    [low = 0], the case of a call with one bound, by the upper bound alone. *)
Definition randint (low high : Z) : M Z :=
  fun w =>
    if (low <? high)%Z then
      (Returned (low + Z.of_nat (rng w 0%nat) mod (high - low))%Z,
       {| heap := heap w; rng := fun n => rng w (S n); stdout := stdout w |})
    else (Raised (ValueError (if (low =? 0)%Z then "high <= 0" else "low >= high")), w).

Definition read (r : ref) : M (Matrix R) :=
  fun w =>
    match nth_error (heap w) r with
    | Some m => (Returned m, w)
    | None => (Raised IndexError, w)
    end.

Fixpoint set_nth {A : Type} (n : nat) (a : A) (l : list A) : list A :=
  match l, n with
  | [], _ => []
  | _ :: t, O => a :: t
  | x :: t, S n' => x :: set_nth n' a t
  end.

Definition write (r : ref) (m : Matrix R) : M unit :=
  fun w => (Returned tt,
            {| heap := set_nth r m (heap w); rng := rng w; stdout := stdout w |}).

(** [a.copy()]: a fresh array with the contents of [a] *)
Definition np_copy (r : ref) : M ref :=
  m <- read r ;;
  fun w => (Returned (length (heap w)),
            {| heap := heap w ++ [m]; rng := rng w; stdout := stdout w |}).

(** [for _ in range(n): body] *)
Fixpoint for_range (n : nat) (body : M unit) : M unit :=
  match n with
  | O => ret tt
  | S n' => body ;;; for_range n' body
  end.

(** ** spec_augment *)

Definition in_slice (len : nat) (start stop : Z) (i : nat) : bool :=
  (slice_index len start <=? i)%nat && (i <? slice_index len stop)%nat.

Fixpoint mapi_from {A B : Type} (i : nat) (f : nat -> A -> B) (l : list A) : list B :=
  match l with
  | [] => []
  | a :: t => f i a :: mapi_from (S i) f t
  end.

Definition mapi {A B : Type} (f : nat -> A -> B) (l : list A) : list B :=
  mapi_from 0 f l.

(** [m[a:b, :] = v] *)
Definition set_rows (a b : Z) (v : R) (m : Matrix R) : Matrix R :=
  mapi (fun i row =>
          if in_slice (shape0 m) a b i then map (fun _ => v) row else row) m.

(** [m[:, a:b] = v] *)
Definition set_cols (a b : Z) (v : R) (m : Matrix R) : Matrix R :=
  map (fun row =>
         mapi (fun j x => if in_slice (length row) a b j then v else x) row) m.

Definition freq_mask (spec : ref) (freq_mask_param : Z) : M unit :=
  f <- randint 0 freq_mask_param ;;
  m <- read spec ;;
  f0 <- randint 0 (Z.of_nat (shape0 m) - f) ;;
  m <- read spec ;;
  lo <- lift (np_min2 m) ;;
  write spec (set_rows f0 (f0 + f) lo m).

Definition time_mask (spec : ref) (time_mask_param : Z) : M unit :=
  t <- randint 0 time_mask_param ;;
  m <- read spec ;;
  t0 <- randint 0 (Z.of_nat (shape1 m) - t) ;;
  m <- read spec ;;
  lo <- lift (np_min2 m) ;;
  write spec (set_cols t0 (t0 + t) lo m).

Definition spec_augment (spec : ref) (freq_mask_param time_mask_param num_masks : Z)
  : M ref :=
  spec <- np_copy spec ;;
  for_range (Z.to_nat num_masks) (freq_mask spec freq_mask_param) ;;;
  for_range (Z.to_nat num_masks) (time_mask spec time_mask_param) ;;;
  ret spec.

(** the defaults of the signature *)
Definition spec_augment_default (spec : ref) : M ref := spec_augment spec 10 20 2.

(** ** OpenCV *)

(** a uint8 image is a matrix of integers of [0, 255]; a colour image has a
    triple of them per pixel *)
Definition pixel : Type := (Z * Z * Z)%type.

Record Cv2 : Type := {
  (** [cv2.resize(src, (width, height), interpolation=cv2.INTER_LINEAR)] on a
      float64 array and on a uint8 array *)
  cv2_resize_f64 : Matrix R -> Z * Z -> outcome (Matrix R);
  cv2_resize_u8 : Matrix Z -> Z * Z -> outcome (Matrix Z);
  (** the lookup table of [cv2.COLORMAP_JET], in OpenCV's channel order *)
  COLORMAP_JET : Z -> pixel
}.

(** [cv2.applyColorMap(src, cv2.COLORMAP_JET)]: a table lookup per pixel *)
Definition cv2_applyColorMap_JET (cv : Cv2) (src : Matrix Z) : Matrix pixel :=
  map (map (COLORMAP_JET cv)) src.

(** [cv2.cvtColor(src, cv2.COLOR_BGR2RGB)] *)
Definition cv2_cvtColor_BGR2RGB (src : Matrix pixel) : Matrix pixel :=
  map (map (fun p : pixel => let '(b, g, r) := p in (r, g, b))) src.

(** [x.astype(np.uint8)]: the fraction is dropped, the integer wraps *)
Definition Rtrunc (x : R) : Z :=
  if Rle_dec 0 x then Int_part x else (- Int_part (- x))%Z.

Definition astype_uint8 (x : R) : Z := (Rtrunc x mod 256)%Z.

(** ** resize_for_cnn *)

Definition resize_for_cnn (cv : Cv2) (spec : Matrix R) (target_size : Z * Z)
  : M (Matrix pixel) :=
  let n_mels := Z.of_nat (shape0 spec) in
  far <- (if (n_mels =? 0)%Z then raise ZeroDivisionError
          else ret (Rgtb (IZR (Z.abs (Z.of_nat (shape1 spec) - n_mels)) / IZR n_mels)
                         (2 / 10))) ;;
  square_spec <- (if far : bool then lift (cv2_resize_f64 cv spec (n_mels, n_mels))
                  else ret spec) ;;
  spec_min <- lift (np_min2 square_spec) ;;
  spec_max <- lift (np_max2 square_spec) ;;
  let spec_normalized :=
    map (map (fun v => (v - spec_min) / (spec_max - spec_min + / 10 ^ 10))) square_spec in
  let spec_img := map (map (fun v => astype_uint8 (v * 255))) spec_normalized in
  spec_img_resized <-
    (if negb ((fst target_size =? n_mels)%Z && (snd target_size =? n_mels)%Z)
     then lift (cv2_resize_u8 cv spec_img (snd target_size, fst target_size))
     else ret spec_img) ;;
  let spec_img_color := cv2_applyColorMap_JET cv spec_img_resized in
  let spec_img_color := cv2_cvtColor_BGR2RGB spec_img_color in
  ret spec_img_color.

(** the default [target_size=(224, 224)] *)
Definition resize_for_cnn_default (cv : Cv2) (spec : Matrix R) : M (Matrix pixel) :=
  resize_for_cnn cv spec (224, 224)%Z.

(** the shape of an [H x W x 3] image *)
Definition shape3 (img : Matrix pixel) : nat * nat * nat :=
  (shape0 img, shape1 img, 3%nat).

(** ** load_and_preprocess_audio *)

(** [try: body  except Exception as e: handler(e)] *)
Definition try_except_Exception {A : Type} (body : M A) (handler : exn -> M A) : M A :=
  fun w =>
    match body w with
    | (Returned a, w') => (Returned a, w')
    | (Raised e, w') => if is_Exception e then handler e w' else (Raised e, w')
    end.

(** [try: body  except TypeError: handler] *)
Definition try_except_TypeError {A : Type} (body : M A) (handler : M A) : M A :=
  fun w =>
    match body w with
    | (Returned a, w') => (Returned a, w')
    | (Raised e, w') => if is_TypeError e then handler w' else (Raised e, w')
    end.

Definition first_index (l : list nat) : Z := Z.of_nat (hd 0%nat l).

(** lines 53-70: the crop to the active region *)
Definition active_region (L : Librosa) (y : list R) : outcome (list R) :=
  let frame_length := 1024%Z in
  let hop_length := 512%Z in
  let energy := librosa_feature_rms L y frame_length hop_length in
  let? mx := np_max energy in
  let threshold := (3 / 100) * mx in
  let active_frames := np_where (map (fun e => Rgtb e threshold) energy) in
  if (0 <? length active_frames)%nat then
    let start_sample := Z.max 0 (first_index active_frames * hop_length - frame_length) in
    let end_sample :=
      Z.min (Z.of_nat (length y))
            ((last_index active_frames + 1) * hop_length + frame_length) in
    Returned (py_slice start_sample end_sample y)
  else
    Returned y.

(** [librosa.util.normalize(y)]: the waveform is divided by its peak
    [np.max(np.abs(y))], and on a waveform without samples that reduction
    has nothing to reduce: the call raises [ValueError] *)
Definition util_normalize (L : Librosa) (y : list R) : outcome (list R) :=
  let? _ := np_max (map Rabs y) in
  Returned (librosa_util_normalize L y).

(** [None] is the value of the [except] branch *)
Definition load_and_preprocess_audio (L : Librosa) (file_path : string) (target_sr : Z)
  : M (option (list R)) :=
  loaded <- try_except_Exception
              (y <- lift (librosa_load L file_path target_sr) ;; ret (Some y))
              (fun e =>
                 print ("Error loading " ++ file_path ++ ": " ++ str_exn e)%string ;;;
                 ret None) ;;
  match loaded with
  | None => ret None
  | Some y =>
      let y := librosa_effects_trim L y 35 in
      y <- lift (active_region L y) ;;
      y <- lift (util_normalize L y) ;;
      ret (Some y)
  end.

(** ** audiomentations and get_audio_augmenter *)

Definition kwargs : Type := list (string * R).

(** The module as the installed version exposes it: an attribute is present
    or not, and a constructor accepts its keyword arguments or raises. *)
Record Audiomentations : Type := {
  transform : Type;
  augmenter : Type;
  Compose : option (list transform -> outcome augmenter);
  AddGaussianNoise : option (kwargs -> outcome transform);
  TimeStretch : option (kwargs -> outcome transform);
  PitchShift : option (kwargs -> outcome transform);
  Gain : option (kwargs -> outcome transform)
}.

(** [audiomentations.name] *)
Definition getattr {X : Type} (attr : option X) (name : string) : outcome X :=
  match attr with
  | Some x => Returned x
  | None =>
      Raised (AttributeError
                ("module 'audiomentations' has no attribute '" ++ name ++ "'")%string)
  end.

(** a call [audiomentations.name(k1=v1, ...)] *)
Definition construct {X : Type} (attr : option (kwargs -> outcome X)) (name : string)
    (kw : kwargs) : outcome X :=
  let? c := getattr attr name in c kw.

Definition noise_kwargs : kwargs :=
  [("min_amplitude", 1 / 1000); ("max_amplitude", 15 / 1000); ("p", 5 / 10)]%string.
Definition stretch_kwargs : kwargs :=
  [("min_rate", 8 / 10); ("max_rate", 12 / 10); ("p", 5 / 10)]%string.
Definition pitch_kwargs : kwargs :=
  [("min_semitones", -4); ("max_semitones", 4); ("p", 5 / 10)]%string.
Definition gain_kwargs_new : kwargs :=
  [("min_gain_in_db", -6); ("max_gain_in_db", 6); ("p", 5 / 10)]%string.
Definition gain_kwargs_old : kwargs :=
  [("min_gain_db", -6); ("max_gain_db", 6); ("p", 5 / 10)]%string.

(** [audiomentations.Compose([AddGaussianNoise(..), TimeStretch(..),
    PitchShift(..), Gain(..)])] for the given keyword arguments of [Gain]: Python looks the callee up first and
    evaluates the list left to right. *)
Definition compose_four (A : Audiomentations) (gain_kw : kwargs)
  : outcome (augmenter A) :=
  let? compose := getattr (Compose A) "Compose" in
  let? noise := construct (AddGaussianNoise A) "AddGaussianNoise" noise_kwargs in
  let? stretch := construct (TimeStretch A) "TimeStretch" stretch_kwargs in
  let? pitch := construct (PitchShift A) "PitchShift" pitch_kwargs in
  let? gain := construct (Gain A) "Gain" gain_kw in
  compose [noise; stretch; pitch; gain].

(** [audiomentations.Compose([AddGaussianNoise(..), TimeStretch(..)])] *)
Definition compose_minimal (A : Audiomentations) : outcome (augmenter A) :=
  let? compose := getattr (Compose A) "Compose" in
  let? noise := construct (AddGaussianNoise A) "AddGaussianNoise" noise_kwargs in
  let? stretch := construct (TimeStretch A) "TimeStretch" stretch_kwargs in
  compose [noise; stretch].

Definition minimal_set_warning : string :=
  "Warning: Could not initialize all audio augmentations. Using minimal set.".

Definition get_audio_augmenter (A : Audiomentations) : M (augmenter A) :=
  try_except_TypeError
    (lift (compose_four A gain_kwargs_new))
    (try_except_TypeError
       (lift (compose_four A gain_kwargs_old))
       (print minimal_set_warning ;;;
        lift (compose_minimal A))).

(** ** Reading the result of a run *)

Definition value {A : Type} (r : outcome A * world) : outcome A := fst r.
Definition after {A : Type} (r : outcome A * world) : world := snd r.

(** [w] after [print(msg)] *)
Definition printed (w : world) (msg : string) : world :=
  {| heap := heap w; rng := rng w; stdout := stdout w ++ [msg] |}.

(** ** Vocabulary of the statements *)

(** [mx] is the largest entry of [l], [mn] the least *)
Definition maximum_of (l : list R) (mx : R) : Prop :=
  In mx l /\ Forall (fun e => e <= mx) l.

Definition minimum_of (l : list R) (mn : R) : Prop :=
  In mn l /\ Forall (fun e => mn <= e) l.

(** frame [i] of the envelope lies above the threshold *)
Definition exceeds (energy : list R) (thr : R) (i : nat) : Prop :=
  exists e, nth_error energy i = Some e /\ e > thr.

Definition first_active (energy : list R) (thr : R) (i : nat) : Prop :=
  exceeds energy thr i /\ forall j, (j < i)%nat -> ~ exceeds energy thr j.

Definition last_active (energy : list R) (thr : R) (i : nat) : Prop :=
  exceeds energy thr i /\ forall j, (i < j)%nat -> ~ exceeds energy thr j.

(** On the hop grid of the energy envelope (hop 512), frame [i] begins at
    sample [512 * i] and ends where frame [i + 1] begins. *)
Definition frame_start (i : nat) : Z := Z.of_nat i * 512.
Definition frame_end (i : nat) : Z := (Z.of_nat i + 1) * 512.

(** the entry of the decibel matrix for the power [x], the reference being
    [ref_value] and the largest entry being at 0 dB *)
Definition db_of (ref_value x : R) : R :=
  Rmax (log_spec_of ref_value x) (0 - top_db).

(** the sum of column [j] *)
Definition column_sum (m : Matrix R) (j : nat) : R :=
  fold_right (fun row acc => nth j row 0 + acc) 0 m.

(** decibels back to linear power *)
Definition linear (v : R) : R := pow10 (v / 10).

(** the total linear energy of time frame [j], plus epsilon *)
Definition column_energy (db : Matrix R) (j : nat) : R :=
  column_sum (map (map linear) db) j + / 10 ^ 10.

Definition column_energies (db : Matrix R) : list R :=
  map (column_energy db) (seq 0 (shape1 db)).

(** ** Vocabulary for spec_augment *)

(** the error of [np.random.randint(0, high)] on an empty range *)
Definition empty_range : exn := ValueError "high <= 0".

(** the world in which the array under construction is the newest object *)
Definition working (h : list (Matrix R)) (cur : Matrix R) (g : nat -> nat)
    (s : list string) : world :=
  {| heap := h ++ [cur]; rng := g; stdout := s |}.

(** the stream after [k] draws *)
Definition drawn (k : nat) (g : nat -> nat) : nat -> nat := fun n => g (k + n)%nat.

(** [y] is the entry [x] or the minimum of the input *)
Definition kept_or_min (m : Matrix R) (x y : R) : Prop :=
  y = x \/ minimum_of (concat m) y.

(** [cur] has the shape of [m], and each entry is the entry of [m] at its
    place or the minimum of [m] *)
Definition masked (m cur : Matrix R) : Prop :=
  Forall2 (Forall2 (kept_or_min m)) m cur.

(** the state between two statements of [spec_augment]: the heap of the
    caller, then the array under construction, masked so far *)
Definition augmenting (h : list (Matrix R)) (s : list string) (m : Matrix R)
    (w : world) : Prop :=
  exists cur g, w = working h cur g s /\ masked m cur.

(** a band [(start, width)] holds [width] consecutive indices from [start] *)
Definition in_band (band : nat * nat) (i : nat) : bool :=
  (fst band <=? i)%nat && (i <? fst band + snd band)%nat.

(** [m] with the value [lo] in the rows of the bands [fm] and the columns of
    the bands [tm] *)
Definition with_masks (lo : R) (fm tm : list (nat * nat)) (m : Matrix R) : Matrix R :=
  mapi (fun i row =>
          mapi (fun j x =>
                  if existsb (fun b => in_band b i) fm || existsb (fun b => in_band b j) tm
                  then lo else x) row) m.

(** ** Example inputs *)

Definition empty_world : world :=
  {| heap := []; rng := fun _ => 0%nat; stdout := [] |}.

(** a world whose heap holds the array [m] alone, at reference 0 *)
Definition world_of (m : Matrix R) (g : nat -> nat) : world :=
  {| heap := [m]; rng := g; stdout := [] |}.

(** A librosa is given by the waveform, the energy envelope and the mel
    power spectrogram it delivers; trimming and normalisation leave the
    waveform as it is. *)
Definition librosa_of (loaded : outcome (list R)) (envelope : list R) (mel : Matrix R)
  : Librosa :=
  {| librosa_load := fun _ _ => loaded;
     librosa_effects_trim := fun y _ => y;
     librosa_feature_rms := fun _ _ _ => envelope;
     librosa_util_normalize := fun y => y;
     librosa_feature_melspectrogram := fun _ _ _ _ _ => mel |}.

(** every read fails, as for an unreadable file *)
Definition unreadable (msg : string) : Librosa :=
  librosa_of (Raised (OSError msg)) [] [].

(** the file holds 4096 samples, and the only loud frame of the energy
    envelope is frame 3 *)
Definition burst_librosa : Librosa :=
  librosa_of (Returned (repeat 1 4096)) [0; 0; 0; 1; 0; 0; 0; 0; 0] [].

(** a mel power spectrogram of two bands and three frames *)
Definition librosa_small : Librosa :=
  librosa_of (Returned []) [] [[1; 4; 0]; [2; 1; 0]].

(** A mel power spectrogram of 128 bands and 8 frames: in frame 0 every band
    carries the power 0.9 (a click: flat across the bands), frames 1 to 6 are
    silent, and in frame 7 one band alone carries the power 1 (a pure tone,
    the peak of the clip). *)
Definition tone_row : list R := [9 / 10; 0; 0; 0; 0; 0; 0; 1].
Definition click_row : list R := [9 / 10; 0; 0; 0; 0; 0; 0; 0].
Definition click_tone : Matrix R := tone_row :: repeat click_row 127.

(** the short-time Fourier transform and the mel filter bank are not
    modelled: this librosa delivers [click_tone] as the mel power
    spectrogram of the clip *)
Definition librosa_click_tone : Librosa := librosa_of (Returned []) [] click_tone.

(** the decibel matrix of [click_tone], its peak power being 1 *)
Definition click_tone_db : Matrix R := map (map (db_of 1)) click_tone.

(** a spectrogram of 128 bands that the trailing crop has cut to 6 frames *)
Definition cropped_spec : Matrix R := repeat (repeat (-80) 6) 128.

(** a spectrogram of 128 bands and 300 frames *)
Definition long_spec : Matrix R := repeat (repeat (-80) 300) 128.

(** a stream whose fifth value, the width of the first time mask, is 19 *)
Definition wide_time_mask : nat -> nat :=
  fun n => if (n =? 4)%nat then 19%nat else 0%nat.

(** the stream that delivers the given values, then zeros *)
Definition stream_of (l : list nat) : nat -> nat := fun n => nth n l 0%nat.

(** Versions of audiomentations.  A transform is recorded by its class name
    and keyword arguments, a pipeline by its list of transforms; a
    constructor raises [TypeError] on a keyword it does not know. *)
Definition accepts (names : list string) (kw : kwargs) : bool :=
  forallb (fun k => existsb (String.eqb (fst k)) names) kw.

Definition ctor (name : string) (names : list string) (kw : kwargs)
  : outcome (string * kwargs) :=
  if accepts names kw then Returned (name, kw)
  else Raised (TypeError (name ++ ".__init__() got an unexpected keyword argument")%string).

Definition audiomentations_of
    (noise pitch gain : option (kwargs -> outcome (string * kwargs))) : Audiomentations :=
  {| transform := string * kwargs;
     augmenter := list (string * kwargs);
     Compose := Some (fun ts => Returned ts);
     AddGaussianNoise := noise;
     TimeStretch := Some (ctor "TimeStretch" ["min_rate"; "max_rate"; "p"]%string);
     PitchShift := pitch;
     Gain := gain |}.

Definition noise_ctor := ctor "AddGaussianNoise" ["min_amplitude"; "max_amplitude"; "p"]%string.
Definition pitch_ctor := ctor "PitchShift" ["min_semitones"; "max_semitones"; "p"]%string.
Definition gain_db_ctor := ctor "Gain" ["min_gain_db"; "max_gain_db"; "p"]%string.

(** [Gain] takes [min_gain_db] and [max_gain_db] *)
Definition audiomentations_gain_db : Audiomentations :=
  audiomentations_of (Some noise_ctor) (Some pitch_ctor) (Some gain_db_ctor).

(** the module has no [PitchShift] *)
Definition audiomentations_no_pitch : Audiomentations :=
  audiomentations_of (Some noise_ctor) None (Some gain_db_ctor).

(** [AddGaussianNoise] takes [min_std] and [max_std] instead of the
    amplitude arguments *)
Definition audiomentations_noise_std : Audiomentations :=
  audiomentations_of
    (Some (ctor "AddGaussianNoise" ["min_std"; "max_std"; "p"]%string))
    (Some pitch_ctor) (Some gain_db_ctor).

(** ** Vocabulary of the further properties *)

(** the entry at row [i] and column [j], if there is one *)
Definition entry {A : Type} (m : Matrix A) (i j : nat) : option A :=
  match nth_error m i with
  | Some row => nth_error row j
  | None => None
  end.

(** every level of a uint8 image lies in [0, 255] *)
Definition uint8_image (img : Matrix Z) : Prop :=
  Forall (Forall (fun v => (0 <= v <= 255)%Z)) img.

Definition uint8_pixel (p : pixel) : Prop :=
  let '(c1, c2, c3) := p in
  (0 <= c1 <= 255)%Z /\ (0 <= c2 <= 255)%Z /\ (0 <= c3 <= 255)%Z.

(** What the documentation of OpenCV says of the functions used: [resize]
    returns an image of the height and width asked for when the source has a
    row and a column and the size is positive, raises [cv2.error] on a source
    without rows or columns, and keeps the type of the pixels; the colour
    map yields uint8 channels. *)
Record Cv2_ok (cv : Cv2) : Prop := {
  resize_f64_shape :
    forall src w h,
      (0 < shape0 src)%nat -> (0 < shape1 src)%nat -> rect (shape1 src) src ->
      (0 < w)%Z -> (0 < h)%Z ->
      exists dst, cv2_resize_f64 cv src (w, h) = Returned dst /\
                  shape0 dst = Z.to_nat h /\ rect (Z.to_nat w) dst;
  resize_u8_shape :
    forall src w h,
      (0 < shape0 src)%nat -> (0 < shape1 src)%nat -> rect (shape1 src) src ->
      (0 < w)%Z -> (0 < h)%Z ->
      exists dst, cv2_resize_u8 cv src (w, h) = Returned dst /\
                  shape0 dst = Z.to_nat h /\ rect (Z.to_nat w) dst;
  resize_f64_empty :
    forall src dsize,
      (shape0 src = 0 \/ shape1 src = 0)%nat ->
      exists msg, cv2_resize_f64 cv src dsize = Raised (cv2_error msg);
  resize_u8_range :
    forall src dsize dst,
      cv2_resize_u8 cv src dsize = Returned dst -> uint8_image src -> uint8_image dst;
  palette_range :
    forall v, (0 <= v <= 255)%Z -> uint8_pixel (COLORMAP_JET cv v)
}.

(** the width is within 20% of the height: the test of [resize_for_cnn],
    in integers *)
Definition near_square (rows cols : nat) : Prop :=
  (5 * (cols - rows) <= rows /\ 5 * (rows - cols) <= rows)%nat.

(** the gray level of the value [v] in a matrix of minimum [lo] and maximum
    [hi]: [((v - lo) / (hi - lo + 1e-10) * 255).astype(np.uint8)].  Over the
    reals the quotient of the maximum stays below 1; a float absorbs the
    [1e-10] as soon as [hi - lo] is large, the quotient is then 1 and the
    maximum gets level 255.  What is stated of the levels holds either way:
    their order, the bounds 0 and 255, the level of the minimum. *)
Definition gray_level (lo hi v : R) : Z :=
  astype_uint8 ((v - lo) / (hi - lo + / 10 ^ 10) * 255).

(** An implementation of the interface, to show that [Cv2_ok] can be met:
    sampling of the nearest source pixel above and to the left, and a palette
    of grays.  It stands for no algorithm of OpenCV. *)
Definition sample {A : Type} (d : A) (src : Matrix A) (dsize : Z * Z) : outcome (Matrix A) :=
  let w := Z.to_nat (fst dsize) in
  let h := Z.to_nat (snd dsize) in
  if ((shape0 src =? 0) || (shape1 src =? 0) || (w =? 0) || (h =? 0))%nat
  then Raised (cv2_error "resize: empty source or size")
  else Returned
         (map (fun i =>
                 map (fun j => nth (j * shape1 src / w) (nth (i * shape0 src / h) src []) d)
                     (seq 0 w))
              (seq 0 h)).

Definition cv2_sampling : Cv2 :=
  {| cv2_resize_f64 := sample 0;
     cv2_resize_u8 := sample 0%Z;
     COLORMAP_JET := fun v => (v, v, v) |}.

(** a gray image mapped through the colour map and turned to RGB *)
Definition coloured (cv : Cv2) (gray : Matrix Z) : Matrix pixel :=
  cv2_cvtColor_BGR2RGB (cv2_applyColorMap_JET cv gray).

(** ** Python strings and paths *)

(** [s.startswith(pre)] and [s.endswith(suffix)] *)
Definition startswith (s pre : string) : bool := String.prefix pre s.

Fixpoint endswith (s suffix : string) : bool :=
  if String.eqb s suffix then true
  else match s with
       | EmptyString => false
       | String _ t => endswith t suffix
       end.

(** [s[start:stop]] *)
Definition str_slice (start stop : Z) (s : string) : string :=
  string_of_list_ascii (py_slice start stop (list_ascii_of_string s)).

(** [os.path.join(a, *p)] of [posixpath]: a component that starts with the
    separator restarts the path; otherwise it is appended, after a separator
    unless the path is empty or ends with one *)
Definition os_path_join (a : string) (p : list string) : string :=
  fold_left
    (fun path b =>
       if startswith b "/" then b
       else if (String.eqb path "" || endswith path "/")%bool then (path ++ b)%string
       else (path ++ "/" ++ b)%string)
    p a.

(** ** process_dataset: the directories and the two loops *)

(** the image files on disk, in the order written *)
Definition disk : Type := list (string * Matrix pixel).

Definition system : Type := (world * disk)%type.

(** the monad of [process_dataset]: the world of the pipeline and the disk *)
Definition MS (A : Type) : Type := system -> outcome A * system.

Definition retS {A : Type} (a : A) : MS A := fun s => (Returned a, s).

Definition bindS {A B : Type} (c : MS A) (k : A -> MS B) : MS B :=
  fun s =>
    match c s with
    | (Returned a, s') => k a s'
    | (Raised e, s') => (Raised e, s')
    end.

Notation "x <-- c ;; k" := (bindS c (fun x => k))
  (at level 61, c at next level, right associativity).

(** a computation of the pipeline, which leaves the disk alone *)
Definition liftM {A : Type} (c : M A) : MS A :=
  fun s => let (o, w') := c (fst s) in (o, (w', snd s)).

Definition liftO {A : Type} (o : outcome A) : MS A := fun s => (o, s).

(** The file system and the image writer as the run finds them: the listing
    of a directory, the creation of a directory, and the outcome of a write
    ([True], [False], or an error of OpenCV).  The directory tree itself is
    not modelled. *)
Record Files : Type := {
  os_listdir : string -> outcome (list string);
  os_makedirs : string -> outcome unit;
  imwrite : string -> Matrix pixel -> outcome bool
}.

(** [cv2.imwrite(path, img)]: on [True] the image is on disk *)
Definition cv2_imwrite (F : Files) (path : string) (img : Matrix pixel) : MS bool :=
  fun s =>
    match imwrite F path img with
    | Returned true => (Returned true, (fst s, snd s ++ [(path, img)]))
    | o => (o, s)
    end.

(** [cv2.cvtColor(src, cv2.COLOR_RGB2BGR)] *)
Definition cv2_cvtColor_RGB2BGR (src : Matrix pixel) : Matrix pixel :=
  map (map (fun p : pixel => let '(r, g, b) := p in (b, g, r))) src.

(** a row of [data] *)
Record dataset_record : Type := {
  filename : string;
  spectrogram_path : string;
  label : Z;
  original_path : string
}.

(** [os.path.join(output_dir, 'spectrograms', f'{tag}{name[:-4]}.png')] *)
Definition output_path_of (output_dir tag name : string) : string :=
  os_path_join output_dir ["spectrograms"; tag ++ str_slice 0 (-4) name ++ ".png"]%string.

(** the body of either loop, for one entry of the listing; [tag] is ['pd_']
    or ['control_'] and [lbl] is 1 or 0 *)
Definition process_file (L : Librosa) (cv : Cv2) (F : Files) (dir tag : string) (lbl : Z)
    (output_dir : string) (data : list dataset_record) (name : string)
  : MS (list dataset_record) :=
  if endswith name ".wav" then
    let file_path := os_path_join dir [name] in
    audio <-- liftM (load_and_preprocess_audio L file_path SAMPLE_RATE) ;;
    match audio with
    | Some audio =>
        mel_spec <-- liftO (create_mel_spectrogram L audio SAMPLE_RATE FFT_WINDOW
                              HOP_LENGTH N_MELS) ;;
        resized_spec <-- liftM (resize_for_cnn_default cv mel_spec) ;;
        let output_path := output_path_of output_dir tag name in
        _ <-- cv2_imwrite F output_path (cv2_cvtColor_RGB2BGR resized_spec) ;;
        retS (data ++ [{| filename := name;
                          spectrogram_path := output_path;
                          label := lbl;
                          original_path := file_path |}])
    | None => retS data
    end
  else retS data.

(** [for filename in os.listdir(dir): ...] over the listing [names] *)
Fixpoint process_files (L : Librosa) (cv : Cv2) (F : Files) (dir tag : string) (lbl : Z)
    (output_dir : string) (names : list string) (data : list dataset_record)
  : MS (list dataset_record) :=
  match names with
  | [] => retS data
  | name :: rest =>
      data <-- process_file L cv F dir tag lbl output_dir data name ;;
      process_files L cv F dir tag lbl output_dir rest data
  end.

(** lines 207-254 of [process_dataset]: what it does up to the list [data];
    the progress bar of [tqdm] goes to stderr and is left out *)
Definition process_dataset_records (L : Librosa) (cv : Cv2) (F : Files)
    (parkinsons_dir control_dir output_dir : string) : MS (list dataset_record) :=
  _ <-- liftO (os_makedirs F output_dir) ;;
  _ <-- liftO (os_makedirs F (os_path_join output_dir ["spectrograms"]%string)) ;;
  let data := [] in
  _ <-- liftM (print "Processing Parkinson's audio files...") ;;
  names <-- liftO (os_listdir F parkinsons_dir) ;;
  data <-- process_files L cv F parkinsons_dir "pd_" 1 output_dir names data ;;
  _ <-- liftM (print "Processing Control audio files...") ;;
  names <-- liftO (os_listdir F control_dir) ;;
  data <-- process_files L cv F control_dir "control_" 0 output_dir names data ;;
  retS data.

(** ** Vocabulary of the properties of process_dataset *)

(** the loader gives the file up: [librosa.load] raises an exception that
    the [except] clause catches *)
Definition load_fails (L : Librosa) (path : string) : bool :=
  match librosa_load L path SAMPLE_RATE with
  | Raised e => is_Exception e
  | Returned _ => false
  end.

(** a name the loop goes on with: it ends in [.wav] and the loader does not
    give the file up *)
Definition readable_wav (L : Librosa) (dir name : string) : bool :=
  endswith name ".wav" && negb (load_fails L (os_path_join dir [name])).

(** the row of the file [name] *)
Definition row_of (dir tag : string) (lbl : Z) (output_dir name : string) : dataset_record :=
  {| filename := name;
     spectrogram_path := output_path_of output_dir tag name;
     label := lbl;
     original_path := os_path_join dir [name] |}.

(** the lines the loader prints over a listing: one for each [.wav] file it
    gives up *)
Definition error_lines (L : Librosa) (dir : string) (names : list string) : list string :=
  flat_map
    (fun name =>
       let path := os_path_join dir [name] in
       if endswith name ".wav" then
         match librosa_load L path SAMPLE_RATE with
         | Raised e =>
             if is_Exception e
             then [("Error loading " ++ path ++ ": " ++ str_exn e)%string]
             else []
         | Returned _ => []
         end
       else [])
    names.

(** [w] after the lines [msgs] have been printed *)
Definition printed_all (w : world) (msgs : list string) : world :=
  fold_left printed msgs w.

(** [img] is the image the pipeline makes of the file at [path] *)
Definition spectrogram_image (L : Librosa) (cv : Cv2) (path : string) (img : Matrix pixel)
  : Prop :=
  exists audio mel,
    (forall w, load_and_preprocess_audio L path SAMPLE_RATE w = (Returned (Some audio), w)) /\
    create_mel_spectrogram L audio SAMPLE_RATE FFT_WINDOW HOP_LENGTH N_MELS = Returned mel /\
    (forall w, resize_for_cnn_default cv mel w = (Returned img, w)).

(** the entry of the disk for the file [name]: written by [cv2.imwrite], at
    the output path, from the image of the pipeline *)
Definition written_for (L : Librosa) (cv : Cv2) (F : Files) (dir tag output_dir : string)
    (names : list string) (file : string * Matrix pixel) : Prop :=
  exists name img,
    In name names /\ readable_wav L dir name = true /\
    fst file = output_path_of output_dir tag name /\
    snd file = cv2_cvtColor_RGB2BGR img /\
    spectrogram_image L cv (os_path_join dir [name]) img /\
    imwrite F (fst file) (snd file) = Returned true.

(** What the documentation of librosa says of the functions used, for the
    parameters of the pipeline: a read returns or raises an exception that
    [except Exception] catches, the energy envelope has one frame per 512
    samples and one more, and the mel spectrogram has [N_MELS] rows and at
    least one frame. *)
Record Librosa_ok (L : Librosa) : Prop := {
  load_raises_Exception :
    forall path e, librosa_load L path SAMPLE_RATE = Raised e -> is_Exception e = true;
  rms_frames :
    forall y, length (librosa_feature_rms L y 1024 512) = (1 + length y / 512)%nat;
  mel_shape :
    forall audio,
      let mel := librosa_feature_melspectrogram L audio SAMPLE_RATE FFT_WINDOW HOP_LENGTH
                   N_MELS in
      shape0 mel = 128%nat /\ exists frames, (0 < frames)%nat /\ rect frames mel
}.

(** the files: none that can be read is left without samples by the trim *)
Definition no_empty_clip (L : Librosa) : Prop :=
  forall path y0,
    librosa_load L path SAMPLE_RATE = Returned y0 -> librosa_effects_trim L y0 35 <> [].

(** directories that can be listed and made, and writes that do not raise *)
Record Files_ok (F : Files) (parkinsons_dir control_dir output_dir : string) : Prop := {
  listdir_parkinsons : exists names, os_listdir F parkinsons_dir = Returned names;
  listdir_control : exists names, os_listdir F control_dir = Returned names;
  makedirs_output : os_makedirs F output_dir = Returned tt;
  makedirs_spectrograms :
    os_makedirs F (os_path_join output_dir ["spectrograms"]%string) = Returned tt;
  imwrite_returns : forall path img, exists b, imwrite F path img = Returned b
}.

(** A librosa and a file system to run the loops on: the files named in
    [corrupt] cannot be read, every other file holds four samples and gives a
    flat mel power spectrogram of 128 bands and 8 frames. *)
Definition flat_mel : Matrix R := repeat (repeat 1 8) 128.

Definition librosa_with_corrupt (corrupt : list string) : Librosa :=
  {| librosa_load := fun path _ =>
       if existsb (String.eqb path) corrupt then Raised (OSError "corrupt file")
       else Returned [0; 1; 0; -1];
     librosa_effects_trim := fun y _ => y;
     librosa_feature_rms := fun y _ _ => repeat 1 (1 + length y / 512);
     librosa_util_normalize := fun y => y;
     librosa_feature_melspectrogram := fun _ _ _ _ _ => flat_mel |}.

(** two directories, and a disk that takes every write or none *)
Definition two_dirs (writable : bool) : Files :=
  {| os_listdir := fun dir =>
       if String.eqb dir "pd" then Returned ["a.wav"; "notes.txt"; "b.wav"]%string
       else if String.eqb dir "hc" then Returned ["a.wav"; "c.wav"]%string
       else Raised (OSError "No such file or directory");
     os_makedirs := fun _ => Returned tt;
     imwrite := fun _ _ => Returned writable |}.

(** a librosa whose mel spectrogram has no band: nothing can be made of its
    files *)
Definition librosa_no_band : Librosa := librosa_of (Returned [0; 1; 0; -1]) [1] [].

(** * Properties *)

(** ** WaveformAugmenter: construction of the pipeline *)

Lemma try_except_TypeError_returned {A : Type} (o : outcome A) (h : M A) (a : A) (w : world) :
  o = Returned a -> try_except_TypeError (lift o) h w = (Returned a, w).
Proof. intros ->. reflexivity. Qed.

Lemma try_except_TypeError_caught {A : Type} (o : outcome A) (h : M A) (e : exn) (w : world) :
  o = Raised e -> is_TypeError e = true -> try_except_TypeError (lift o) h w = h w.
Proof. intros -> He. unfold try_except_TypeError, lift. now rewrite He. Qed.

Lemma try_except_TypeError_passed {A : Type} (o : outcome A) (h : M A) (e : exn) (w : world) :
  o = Raised e -> is_TypeError e = false ->
  try_except_TypeError (lift o) h w = (Raised e, w).
Proof. intros -> He. unfold try_except_TypeError, lift. now rewrite He. Qed.

(** C8, as the code has it: when each attempt at the four-transform pipeline
    returns or raises [TypeError], and the reduced pipeline (Gaussian noise,
    time-stretch) can be built, construction returns: the pipeline with the
    newer gain names if that is accepted, else the one with the older gain
    names if that is accepted, else the reduced one after a warning. *)
Theorem get_audio_augmenter_degrades (A : Audiomentations) (w : world)
    (minimal : augmenter A)
    (Hnew : forall e, compose_four A gain_kwargs_new = Raised e -> is_TypeError e = true)
    (Hold : forall e, compose_four A gain_kwargs_old = Raised e -> is_TypeError e = true)
    (Hmin : compose_minimal A = Returned minimal) :
  exists a,
    value (get_audio_augmenter A w) = Returned a /\
    ((compose_four A gain_kwargs_new = Returned a /\
      after (get_audio_augmenter A w) = w) \/
     ((exists e, compose_four A gain_kwargs_new = Raised e) /\
      compose_four A gain_kwargs_old = Returned a /\
      after (get_audio_augmenter A w) = w) \/
     ((exists e, compose_four A gain_kwargs_new = Raised e) /\
      (exists e, compose_four A gain_kwargs_old = Raised e) /\
      a = minimal /\
      after (get_audio_augmenter A w) = printed w minimal_set_warning)).
Proof.
  unfold get_audio_augmenter.
  destruct (compose_four A gain_kwargs_new) as [a1|e1] eqn:E1.
  - exists a1. rewrite (try_except_TypeError_returned _ _ a1 w eq_refl).
    split; [reflexivity|]. left. split; reflexivity.
  - rewrite (try_except_TypeError_caught _ _ e1 w eq_refl (Hnew e1 eq_refl)).
    destruct (compose_four A gain_kwargs_old) as [a2|e2] eqn:E2.
    + exists a2. rewrite (try_except_TypeError_returned _ _ a2 w eq_refl).
      split; [reflexivity|]. right; left. repeat split; eauto.
    + rewrite (try_except_TypeError_caught _ _ e2 w eq_refl (Hold e2 eq_refl)).
      exists minimal. unfold bind, print, lift. rewrite Hmin.
      split; [reflexivity|]. right; right. repeat split; eauto.
Qed.

Lemma get_audio_augmenter_degrades_witness :
  exists a,
    value (get_audio_augmenter audiomentations_gain_db empty_world) = Returned a /\
    compose_four audiomentations_gain_db gain_kwargs_old = Returned a.
Proof.
  destruct (get_audio_augmenter_degrades audiomentations_gain_db empty_world
              [("AddGaussianNoise", noise_kwargs); ("TimeStretch", stretch_kwargs)]%string)
    as [a [Hv H]].
  - intros e He. vm_compute in He. inversion He. reflexivity.
  - intros e He. vm_compute in He. discriminate He.
  - reflexivity.
  - exists a. split; [exact Hv|].
    destruct H as [[H _]|[[_ [H _]]|[_ [[e He] _]]]].
    + vm_compute in H. discriminate H.
    + exact H.
    + vm_compute in He. discriminate He.
Defined.

(** C8, counterexamples: construction raises when the module has no
    [PitchShift] ([AttributeError] is not caught), and when
    [AddGaussianNoise] rejects its keyword arguments (the reduced pipeline
    is built outside every [try]). *)
Lemma get_audio_augmenter_raises :
  (exists msg, value (get_audio_augmenter audiomentations_no_pitch empty_world)
               = Raised (AttributeError msg)) /\
  (exists msg, value (get_audio_augmenter audiomentations_noise_std empty_world)
               = Raised (TypeError msg)).
Proof.
  split; eexists; vm_compute; reflexivity.
Qed.

(** ** ImageFormatter *)

Lemma np_min2_returns (x : R) (r : list R) (m : Matrix R) :
  exists lo, np_min2 ((x :: r) :: m) = Returned lo.
Proof. unfold np_min2. cbn [concat app np_min]. eexists; reflexivity. Qed.

Lemma np_max2_returns (x : R) (r : list R) (m : Matrix R) :
  exists hi, np_max2 ((x :: r) :: m) = Returned hi.
Proof. unfold np_max2. cbn [concat app np_max]. eexists; reflexivity. Qed.

Lemma shape0_map {A B : Type} (f : list A -> list B) (m : Matrix A) :
  shape0 (map f m) = shape0 m.
Proof. apply length_map. Qed.

Lemma shape1_map_map {A B : Type} (f : A -> B) (m : Matrix A) :
  shape1 (map (map f) m) = shape1 m.
Proof. destruct m; [reflexivity|]. cbn. apply length_map. Qed.

Lemma shape3_colour (cv : Cv2) (img : Matrix Z) :
  shape3 (cv2_cvtColor_BGR2RGB (cv2_applyColorMap_JET cv img)) =
  (shape0 img, shape1 img, 3%nat).
Proof.
  unfold shape3, cv2_cvtColor_BGR2RGB, cv2_applyColorMap_JET.
  now rewrite shape0_map, shape1_map_map, shape0_map, shape1_map_map.
Qed.

(** the outcome of [resize_for_cnn] is a function of its arguments alone *)
Lemma resize_for_cnn_pure (cv : Cv2) (spec : Matrix R) (target_size : Z * Z) :
  exists o, forall w, resize_for_cnn cv spec target_size w = (o, w).
Proof.
  unfold resize_for_cnn, bind, lift, ret, raise.
  destruct (Z.of_nat (shape0 spec) =? 0)%Z; [eexists; reflexivity|].
  destruct (Rgtb _ _).
  - destruct (cv2_resize_f64 cv spec _) as [sq|e]; [|eexists; reflexivity].
    destruct (np_min2 sq); [|eexists; reflexivity].
    destruct (np_max2 sq); [|eexists; reflexivity].
    destruct (negb _); [|eexists; reflexivity].
    destruct (cv2_resize_u8 cv _ _); eexists; reflexivity.
  - destruct (np_min2 spec); [|eexists; reflexivity].
    destruct (np_max2 spec); [|eexists; reflexivity].
    destruct (negb _); [|eexists; reflexivity].
    destruct (cv2_resize_u8 cv _ _); eexists; reflexivity.
Qed.

(** C9: [resize_for_cnn] reads neither the random stream nor the heap and
    leaves the world as it found it: from any two worlds the same matrix and
    target size give the same outcome, and so do two calls in a row. *)
Theorem resize_for_cnn_deterministic (cv : Cv2) (spec : Matrix R) (target_size : Z * Z)
    (w1 w2 : world) :
  value (resize_for_cnn cv spec target_size w1) =
  value (resize_for_cnn cv spec target_size w2) /\
  after (resize_for_cnn cv spec target_size w1) = w1 /\
  value (resize_for_cnn cv spec target_size
           (after (resize_for_cnn cv spec target_size w1))) =
  value (resize_for_cnn cv spec target_size w1).
Proof.
  destruct (resize_for_cnn_pure cv spec target_size) as [o Ho].
  rewrite !Ho. cbn [value after fst snd]. repeat split.
Qed.

(** C2, the failing input: a matrix of 224 rows and 200 columns.  The width
    is within 20% of the height, so the matrix is not squared; the target
    size equals [(n_mels, n_mels)], so the second resize is skipped too, and
    the image keeps its 200 columns. *)
Theorem resize_for_cnn_224x200 (cv : Cv2) (w : world) :
  exists img,
    resize_for_cnn_default cv (repeat (repeat 0 200) 224) w = (Returned img, w) /\
    shape3 img = (224%nat, 200%nat, 3%nat).
Proof.
  unfold resize_for_cnn_default, resize_for_cnn.
  set (spec := repeat (repeat 0 200) 224).
  assert (H0 : shape0 spec = 224%nat) by (unfold spec, shape0; apply repeat_length).
  assert (H1 : shape1 spec = 200%nat) by reflexivity.
  rewrite H0, H1.
  change (Z.of_nat 224 =? 0)%Z with false.
  replace (Rgtb (IZR (Z.abs (Z.of_nat 200 - Z.of_nat 224)) / IZR (Z.of_nat 224)) (2 / 10))
    with false.
  2:{ unfold Rgtb. change (Z.abs (Z.of_nat 200 - Z.of_nat 224)) with 24%Z.
      change (Z.of_nat 224) with 224%Z.
      destruct (Rlt_dec _ _) as [Hlt|]; [exfalso; lra|reflexivity]. }
  destruct (np_min2_returns 0 (repeat 0 199) (repeat (repeat 0 200) 223)) as [lo Hlo].
  destruct (np_max2_returns 0 (repeat 0 199) (repeat (repeat 0 200) 223)) as [hi Hhi].
  change ((0 :: repeat 0 199) :: repeat (repeat 0 200) 223) with spec in Hlo, Hhi.
  unfold bind, ret, lift. rewrite Hlo, Hhi.
  change ((fst (224, 224) =? Z.of_nat 224) && (snd (224, 224) =? Z.of_nat 224))%Z
    with true.
  cbn [negb]. eexists. split; [reflexivity|].
  rewrite shape3_colour, shape0_map, shape1_map_map, shape0_map, shape1_map_map.
  now rewrite H0, H1.
Qed.

(** ** numpy reductions and [np.where] *)

Lemma fold_left_Rmax_ge (l : list R) (x : R) : x <= fold_left Rmax l x.
Proof.
  revert x. induction l as [|a l IH]; intro x; cbn; [lra|].
  eapply Rle_trans; [apply (Rmax_l x a)|apply IH].
Qed.

Lemma fold_left_Rmax_upper (l : list R) (x : R) :
  Forall (fun e => e <= fold_left Rmax l x) l.
Proof.
  revert x. induction l as [|a l IH]; intro x; cbn; constructor.
  - eapply Rle_trans; [apply (Rmax_r x a)|apply fold_left_Rmax_ge].
  - apply IH.
Qed.

Lemma fold_left_Rmax_In (l : list R) (x : R) : In (fold_left Rmax l x) (x :: l).
Proof.
  revert x. induction l as [|a l IH]; intro x; cbn; [now left|].
  destruct (IH (Rmax x a)) as [H|H]; [|now right; right].
  unfold Rmax in H at 1. destruct (Rle_dec x a); [right; left|left]; exact H.
Qed.

Lemma np_max_maximum (l : list R) (mx : R) :
  np_max l = Returned mx -> maximum_of l mx.
Proof.
  destruct l as [|x t]; [discriminate|]. cbn. intro H. injection H as <-.
  split; [apply fold_left_Rmax_In|].
  constructor; [apply fold_left_Rmax_ge|apply fold_left_Rmax_upper].
Qed.

Lemma maximum_of_unique (l : list R) (a b : R) :
  maximum_of l a -> maximum_of l b -> a = b.
Proof.
  intros [Ha Fa] [Hb Fb]. rewrite Forall_forall in Fa, Fb.
  apply Rle_antisym; auto.
Qed.

Lemma maximum_of_np_max (l : list R) (mx : R) :
  maximum_of l mx -> np_max l = Returned mx.
Proof.
  intro H. destruct l as [|x t]; [destruct H as [[] _]|].
  cbn [np_max]. f_equal. eapply maximum_of_unique; [|exact H].
  apply np_max_maximum. reflexivity.
Qed.

Lemma where_from_In (cond : list bool) (k i : nat) :
  In i (where_from k cond) <-> (k <= i)%nat /\ nth_error cond (i - k) = Some true.
Proof.
  revert k. induction cond as [|b t IH]; intro k; cbn [where_from].
  - split; [intros []|]. intros [_ H]. destruct (i - k)%nat; discriminate.
  - assert (Hstep : In i (where_from (S k) t) <->
                    (S k <= i)%nat /\ nth_error (b :: t) (i - k) = Some true).
    { rewrite IH. split; intros [Hle H]; split; try lia.
      - replace (i - k)%nat with (S (i - S k)) by lia. exact H.
      - replace (i - k)%nat with (S (i - S k)) in H by lia. exact H. }
    destruct b; cbn [In]; rewrite Hstep.
    + split.
      * intros [<-|[Hle H]]; [split; [lia|]|split; [lia|exact H]].
        now rewrite Nat.sub_diag.
      * intros [Hle H]. destruct (Nat.eq_dec k i) as [->|Hne]; [now left|].
        right. split; [lia|exact H].
    + split.
      * intros [Hle H]. split; [lia|exact H].
      * intros [Hle H]. split; [|exact H].
        destruct (Nat.eq_dec k i) as [->|Hne]; [|lia].
        rewrite Nat.sub_diag in H. discriminate H.
Qed.

Lemma where_from_lower (cond : list bool) (k i : nat) :
  In i (where_from k cond) -> (k <= i)%nat.
Proof. intro H. now apply where_from_In in H. Qed.

(** the first index found is the least one *)
Lemma where_from_hd (cond : list bool) (k i : nat) :
  In i (where_from k cond) -> (hd 0%nat (where_from k cond) <= i)%nat.
Proof.
  revert k. induction cond as [|b t IH]; intro k; cbn [where_from]; [intros []|].
  destruct b; cbn [hd In].
  - intros [<-|H]; [lia|]. apply where_from_lower in H. lia.
  - apply IH.
Qed.

(** the last index found is the greatest one *)
Lemma where_from_last (cond : list bool) (k i : nat) :
  In i (where_from k cond) -> (i <= last (where_from k cond) 0%nat)%nat.
Proof.
  revert k i. induction cond as [|b t IH]; intros k i; cbn [where_from]; [intros []|].
  destruct b; [|apply IH].
  destruct (where_from (S k) t) as [|j u] eqn:E.
  - intros [<-|[]]. cbn. lia.
  - change (last (k :: j :: u) 0%nat) with (last (j :: u) 0%nat). rewrite <- E.
    assert (Hj : In j (where_from (S k) t)) by (rewrite E; now left).
    intros [<-|H].
    + pose proof (where_from_lower _ _ _ Hj). specialize (IH (S k) j Hj). lia.
    + apply IH. exact H.
Qed.

Lemma hd_In {A : Type} (d : A) (l : list A) : l <> [] -> In (hd d l) l.
Proof. destruct l; [congruence|]. intros _. now left. Qed.

Lemma last_In {A : Type} (d : A) (l : list A) : l <> [] -> In (last l d) l.
Proof.
  induction l as [|a l IH]; [congruence|]. intros _.
  destruct l as [|b l]; [now left|]. right. apply IH. discriminate.
Qed.

Lemma np_where_exceeds (energy : list R) (thr : R) (i : nat) :
  In i (np_where (map (fun e => Rgtb e thr) energy)) <-> exceeds energy thr i.
Proof.
  unfold np_where, exceeds. rewrite where_from_In, Nat.sub_0_r, nth_error_map.
  split.
  - intros [_ H]. destruct (nth_error energy i) as [e|]; [|discriminate].
    exists e. split; [reflexivity|]. cbn in H. unfold Rgtb in H.
    destruct (Rlt_dec thr e); [assumption|discriminate].
  - intros [e [-> H]]. split; [lia|]. cbn. unfold Rgtb.
    destruct (Rlt_dec thr e); [reflexivity|contradiction].
Qed.

(** what [np.where] finds when some frame is above the threshold *)
Lemma np_where_first_last (energy : list R) (thr : R) :
  (exists i, exceeds energy thr i) ->
  let active := np_where (map (fun e => Rgtb e thr) energy) in
  (0 <? length active)%nat = true /\
  first_active energy thr (hd 0%nat active) /\
  last_active energy thr (last active 0%nat).
Proof.
  intros [i Hi] active.
  assert (Hin : In i active) by now apply np_where_exceeds.
  assert (Hne : active <> []) by (intro E; rewrite E in Hin; destruct Hin).
  split; [|split].
  - destruct active; [congruence|reflexivity].
  - split; [apply np_where_exceeds, hd_In, Hne|].
    intros j Hj Hex. apply np_where_exceeds in Hex.
    apply where_from_hd in Hex. fold (np_where (map (fun e => Rgtb e thr) energy)) in Hex.
    fold active in Hex. lia.
  - split; [apply np_where_exceeds, last_In, Hne|].
    intros j Hj Hex. apply np_where_exceeds in Hex.
    apply where_from_last in Hex. fold (np_where (map (fun e => Rgtb e thr) energy)) in Hex.
    fold active in Hex. lia.
Qed.

Lemma np_where_none (energy : list R) (thr : R) :
  (forall i, ~ exceeds energy thr i) ->
  np_where (map (fun e => Rgtb e thr) energy) = [].
Proof.
  intro H. destruct (np_where _) as [|i t] eqn:E; [reflexivity|].
  exfalso. apply (H i), np_where_exceeds. rewrite E. now left.
Qed.

(** a slice between two indices that are not negative *)
Lemma py_slice_nonneg {A : Type} (start stop : Z) (l : list A) :
  (0 <= start)%Z -> (0 <= stop <= Z.of_nat (length l))%Z ->
  py_slice start stop l =
  firstn (Z.to_nat stop - Z.to_nat start) (skipn (Z.to_nat start) l).
Proof.
  intros Hs He. unfold py_slice, slice_index.
  destruct (Z.ltb_spec start 0); [lia|]. destruct (Z.ltb_spec stop 0); [lia|].
  replace (Z.min (Z.max 0 stop) (Z.of_nat (length l))) with stop by lia.
  destruct (Z_le_gt_dec start (Z.of_nat (length l))) as [Hle|Hgt].
  - now replace (Z.min (Z.max 0 start) (Z.of_nat (length l))) with start by lia.
  - replace (Z.min (Z.max 0 start) (Z.of_nat (length l))) with (Z.of_nat (length l)) by lia.
    rewrite Nat2Z.id, skipn_all.
    rewrite (skipn_all2 l) by lia. now rewrite !firstn_nil.
Qed.

(** ** AudioLoader: the crop to the active region *)

(** what [active_region] returns when some frame is above the threshold *)
Lemma active_region_crop (L : Librosa) (y : list R) (mx : R) :
  let energy := librosa_feature_rms L y 1024 512 in
  let active := np_where (map (fun e => Rgtb e (3 / 100 * mx)) energy) in
  maximum_of energy mx ->
  (exists i, exceeds energy (3 / 100 * mx) i) ->
  let start := Z.to_nat (Z.max 0 (frame_start (hd 0%nat active) - 1024)) in
  let stop := Z.to_nat (Z.min (Z.of_nat (length y))
                          (frame_end (last active 0%nat) + 1024)) in
  active_region L y = Returned (firstn (stop - start) (skipn start y)) /\
  (hd 0%nat active <= last active 0%nat)%nat /\
  (last active 0%nat < length energy)%nat.
Proof.
  intros energy active Hmx Hex.
  destruct (np_where_first_last energy (3 / 100 * mx) Hex) as [Hlen [Hfirst Hlast]].
  fold active in Hlen, Hfirst, Hlast. cbv zeta. split; [|split].
  - unfold active_region. fold energy. rewrite (maximum_of_np_max _ _ Hmx).
    cbn [obind]. fold active. rewrite Hlen.
    rewrite py_slice_nonneg; [reflexivity|lia|].
    unfold last_index. lia.
  - destruct Hlast as [Hl _]. apply np_where_exceeds in Hl.
    apply where_from_hd in Hl. exact Hl.
  - destruct Hlast as [[e [He _]] _]. apply nth_error_Some. congruence.
Qed.

Lemma active_region_silent (L : Librosa) (y : list R) (mx : R) :
  maximum_of (librosa_feature_rms L y 1024 512) mx ->
  (forall i, ~ exceeds (librosa_feature_rms L y 1024 512) (3 / 100 * mx) i) ->
  active_region L y = Returned y.
Proof.
  intros Hmx Hnone. unfold active_region. rewrite (maximum_of_np_max _ _ Hmx).
  cbn [obind]. now rewrite (np_where_none _ _ Hnone).
Qed.

(** some frame is above 3% of the largest energy exactly when that energy
    is positive *)
Lemma exceeds_iff_positive (energy : list R) (mx : R) :
  maximum_of energy mx -> ((exists i, exceeds energy (3 / 100 * mx) i) <-> 0 < mx).
Proof.
  intros [Hin Hall]. rewrite Forall_forall in Hall. split.
  - intros [i [e [He Hgt]]]. apply nth_error_In in He. specialize (Hall e He). lra.
  - intro Hpos. apply In_nth_error in Hin as [i Hi]. exists i, mx.
    split; [exact Hi|lra].
Qed.

Lemma silent_no_active (energy : list R) (mx : R) :
  maximum_of energy mx -> mx <= 0 -> forall i, ~ exceeds energy (3 / 100 * mx) i.
Proof.
  intros Hmx Hle i Hi.
  assert (0 < mx) by (apply (exceeds_iff_positive energy mx Hmx); now exists i). lra.
Qed.

(** the length of the slice cut between the first and the last active
    frame, the envelope having one frame per 512 samples and one more *)
Lemma crop_length (len first last frames : nat) :
  frames = (1 + len / 512)%nat -> (first <= last)%nat -> (last < frames)%nat ->
  let start := Z.to_nat (Z.max 0 (frame_start first - 1024)) in
  let stop := Z.to_nat (Z.min (Z.of_nat len) (frame_end last + 1024)) in
  (Nat.min len 1024 <= Nat.min (stop - start) (len - start) <= len)%nat.
Proof.
  intros Hframes Hfl Hlast. cbv zeta. unfold frame_start, frame_end.
  pose proof (Nat.Div0.mul_div_le len 512) as Hdiv.
  set (q := (len / 512)%nat) in *. lia.
Qed.

(** the crop returns, and keeps at least 1024 samples of a waveform that
    has them *)
Lemma active_region_length (L : Librosa) (y : list R) (mx : R) :
  let energy := librosa_feature_rms L y 1024 512 in
  length energy = (1 + length y / 512)%nat ->
  maximum_of energy mx ->
  exists y',
    active_region L y = Returned y' /\
    (Nat.min (length y) 1024 <= length y' <= length y)%nat.
Proof.
  intros energy Hframes Hmx.
  destruct (Rlt_le_dec 0 mx) as [Hpos|Hle].
  - destruct (active_region_crop L y mx Hmx) as [Hregion [Hfl Hlast]].
    { now apply exceeds_iff_positive. }
    fold energy in Hregion, Hfl, Hlast.
    eexists. split; [exact Hregion|].
    rewrite length_firstn, length_skipn.
    now apply (crop_length (length y) _ _ (length energy)).
  - exists y. split; [|lia].
    apply (active_region_silent L y mx Hmx). now apply silent_no_active.
Qed.

Lemma length_pos_nonempty {A : Type} (l : list A) : (0 < length l)%nat <-> l <> [].
Proof. destruct l; cbn; split; intro H; try lia; congruence. Qed.

(** [librosa.util.normalize] returns on a waveform with a sample and on no
    other *)
Lemma util_normalize_nonempty (L : Librosa) (y : list R) :
  y <> [] -> util_normalize L y = Returned (librosa_util_normalize L y).
Proof. destruct y as [|a y]; [congruence|reflexivity]. Qed.

Lemma util_normalize_empty (L : Librosa) :
  util_normalize L [] = Raised (zero_size "maximum").
Proof. reflexivity. Qed.

(** the loader after a successful read: the normalisation of the crop, or
    the error of the crop *)
Lemma load_after_read (L : Librosa) (file_path : string) (sr : Z) (w : world)
    (y0 : list R) :
  librosa_load L file_path sr = Returned y0 ->
  load_and_preprocess_audio L file_path sr w =
  match active_region L (librosa_effects_trim L y0 35) with
  | Returned y' =>
      match util_normalize L y' with
      | Returned yn => (Returned (Some yn), w)
      | Raised e => (Raised e, w)
      end
  | Raised e => (Raised e, w)
  end.
Proof.
  intro Hload.
  unfold load_and_preprocess_audio, bind, try_except_Exception, lift, ret.
  rewrite Hload. now destruct (active_region L _).
Qed.

Lemma load_returned (L : Librosa) (file_path : string) (sr : Z) (w : world)
    (y0 y' : list R) :
  librosa_load L file_path sr = Returned y0 ->
  active_region L (librosa_effects_trim L y0 35) = Returned y' -> y' <> [] ->
  load_and_preprocess_audio L file_path sr w =
  (Returned (Some (librosa_util_normalize L y')), w).
Proof.
  intros Hload Hregion Hne.
  now rewrite (load_after_read L file_path sr w y0 Hload), Hregion,
    (util_normalize_nonempty L y' Hne).
Qed.

(** a waveform that the trim leaves without samples makes the loader raise:
    [np.max] has nothing to reduce, in the crop or in the normalisation *)
Lemma load_raises_on_empty (L : Librosa) (file_path : string) (sr : Z) (w : world)
    (y0 : list R) :
  librosa_load L file_path sr = Returned y0 ->
  librosa_effects_trim L y0 35 = [] ->
  load_and_preprocess_audio L file_path sr w = (Raised (zero_size "maximum"), w).
Proof.
  intros Hload Hempty. rewrite (load_after_read L file_path sr w y0 Hload), Hempty.
  unfold active_region.
  destruct (librosa_feature_rms L [] 1024 512) as [|e0 energy]; [reflexivity|].
  cbn [np_max obind].
  match goal with
  | |- context [if ?c then _ else _] => destruct c
  end; [|reflexivity].
  unfold py_slice. cbn [length skipn]. now rewrite skipn_nil, firstn_nil.
Qed.

(** C3: when some frame of the energy envelope (frame length 1024, hop 512)
    exceeds 3% of the largest frame energy, the loader keeps exactly the
    samples from the start of the first such frame minus 1024 to the end of
    the last such frame plus 1024, the bounds clamped to [0] and to the
    number of samples; the waveform returned is the normalisation of that
    slice.  The slice has a sample whenever the waveform has one and the
    envelope has librosa's number of frames; on a slice without samples
    [librosa.util.normalize] raises, and the loader with it. *)
Theorem load_crops_to_active_region (L : Librosa) (file_path : string) (sr : Z)
    (w : world) (y0 : list R) (mx : R) :
  let y := librosa_effects_trim L y0 35 in
  let energy := librosa_feature_rms L y 1024 512 in
  librosa_load L file_path sr = Returned y0 ->
  maximum_of energy mx ->
  (exists i, exceeds energy (3 / 100 * mx) i) ->
  exists first last,
    first_active energy (3 / 100 * mx) first /\
    last_active energy (3 / 100 * mx) last /\
    let start := Z.to_nat (Z.max 0 (frame_start first - 1024)) in
    let stop := Z.to_nat (Z.min (Z.of_nat (length y)) (frame_end last + 1024)) in
    active_region L y = Returned (firstn (stop - start) (skipn start y)) /\
    (firstn (stop - start) (skipn start y) <> [] ->
     load_and_preprocess_audio L file_path sr w =
     (Returned (Some (librosa_util_normalize L (firstn (stop - start) (skipn start y)))),
      w)) /\
    (length energy = (1 + length y / 512)%nat -> y <> [] ->
     firstn (stop - start) (skipn start y) <> []) /\
    (firstn (stop - start) (skipn start y) = [] ->
     load_and_preprocess_audio L file_path sr w = (Raised (zero_size "maximum"), w)).
Proof.
  intros y energy Hload Hmx Hex.
  destruct (np_where_first_last energy (3 / 100 * mx) Hex) as [Hlen [Hfirst Hlast]].
  destruct (active_region_crop L y mx Hmx Hex) as [Hregion [Hfl Hlt]].
  fold energy in Hregion, Hfl, Hlt.
  set (active := np_where (map (fun e => Rgtb e (3 / 100 * mx)) energy)) in *.
  exists (hd 0%nat active), (last active 0%nat).
  split; [exact Hfirst|]. split; [exact Hlast|].
  cbv zeta. split; [exact Hregion|]. split; [|split].
  - intro Hne. exact (load_returned L file_path sr w y0 _ Hload Hregion Hne).
  - intros Hframes Hy. apply length_pos_nonempty.
    rewrite length_firstn, length_skipn.
    pose proof (crop_length (length y) _ _ (length energy) Hframes Hfl Hlt) as Hc.
    cbv zeta in Hc. apply length_pos_nonempty in Hy. lia.
  - intro Hempty. rewrite (load_after_read L file_path sr w y0 Hload). fold y.
    rewrite Hregion, Hempty. reflexivity.
Qed.

Lemma load_crops_to_active_region_witness :
  exists first last,
    first_active [0; 0; 0; 1; 0; 0; 0; 0; 0] (3 / 100 * 1) first /\
    last_active [0; 0; 0; 1; 0; 0; 0; 0; 0] (3 / 100 * 1) last /\
    load_and_preprocess_audio burst_librosa "a.wav" SAMPLE_RATE empty_world =
    (Returned
       (Some (firstn
                (Z.to_nat (Z.min 4096 (frame_end last + 1024)) -
                 Z.to_nat (Z.max 0 (frame_start first - 1024)))
                (skipn (Z.to_nat (Z.max 0 (frame_start first - 1024))) (repeat 1 4096)))),
     empty_world).
Proof.
  destruct (load_crops_to_active_region burst_librosa "a.wav" SAMPLE_RATE empty_world
              (repeat 1 4096) 1) as [first [last [Hf [Hl [_ [H [Hne _]]]]]]].
  - reflexivity.
  - split; [cbn; tauto|]. repeat constructor; lra.
  - exists 3%nat, 1. split; [reflexivity|lra].
  - exists first, last. split; [exact Hf|]. split; [exact Hl|].
    rewrite H.
    + cbn [burst_librosa librosa_of librosa_util_normalize librosa_effects_trim].
      rewrite repeat_length. reflexivity.
    + apply Hne.
      * cbn [burst_librosa librosa_of librosa_effects_trim librosa_feature_rms].
        rewrite repeat_length. reflexivity.
      * cbn [burst_librosa librosa_of librosa_effects_trim]. discriminate.
Defined.

(** ** AudioLoader: a failed read is not fatal *)

(** C10: when [librosa.load] raises an exception (a subclass of
    [Exception]), [load_and_preprocess_audio] does not raise: it prints the
    path and the cause and returns [None].  When the read succeeds, the
    loader returns a waveform if the trim leaves a sample (the envelope
    having librosa's number of frames): the normalisation of the crop.  If
    the trim leaves none -- a file without samples -- the loader raises
    [ValueError]. *)
Theorem load_failure_returns_None (L : Librosa) (file_path : string) (sr : Z) (w : world) :
  (forall e, librosa_load L file_path sr = Raised e -> is_Exception e = true ->
     load_and_preprocess_audio L file_path sr w =
     (Returned None,
      printed w ("Error loading " ++ file_path ++ ": " ++ str_exn e)%string)) /\
  (forall y0, librosa_load L file_path sr = Returned y0 ->
     let y := librosa_effects_trim L y0 35 in
     length (librosa_feature_rms L y 1024 512) = (1 + length y / 512)%nat ->
     y <> [] ->
     exists y',
       active_region L y = Returned y' /\ y' <> [] /\
       load_and_preprocess_audio L file_path sr w =
       (Returned (Some (librosa_util_normalize L y')), w)) /\
  (forall y0, librosa_load L file_path sr = Returned y0 ->
     librosa_effects_trim L y0 35 = [] ->
     load_and_preprocess_audio L file_path sr w =
     (Raised (ValueError
                "zero-size array to reduction operation maximum which has no identity"),
      w)).
Proof.
  split; [|split].
  - intros e Hload Hexc.
    unfold load_and_preprocess_audio, bind, try_except_Exception, lift.
    rewrite Hload, Hexc. reflexivity.
  - intros y0 Hload y Hframes Hy.
    assert (Hmx : exists mx, maximum_of (librosa_feature_rms L y 1024 512) mx).
    { destruct (librosa_feature_rms L y 1024 512) as [|e0 energy] eqn:E;
        [cbn in Hframes; lia|].
      eexists. apply np_max_maximum. reflexivity. }
    destruct Hmx as [mx Hmx].
    destruct (active_region_length L y mx Hframes Hmx) as [y' [Hregion Hlen]].
    assert (Hne : y' <> []).
    { apply length_pos_nonempty. apply length_pos_nonempty in Hy. lia. }
    exists y'. split; [exact Hregion|]. split; [exact Hne|].
    exact (load_returned L file_path sr w y0 y' Hload Hregion Hne).
  - intros y0 Hload Hempty. exact (load_raises_on_empty L file_path sr w y0 Hload Hempty).
Qed.

Lemma load_failure_returns_None_witness :
  load_and_preprocess_audio (unreadable "No such file") "a.wav" SAMPLE_RATE empty_world =
  (Returned None,
   printed empty_world "Error loading a.wav: No such file").
Proof.
  apply (proj1 (load_failure_returns_None (unreadable "No such file") "a.wav"
                  SAMPLE_RATE empty_world) (OSError "No such file"));
    reflexivity.
Defined.

(** C10, counterexample: a file that is read without error and holds no
    sample.  The envelope of the empty waveform is a single frame of energy
    0, no frame is active, nothing is cropped, and [librosa.util.normalize]
    raises on the empty waveform: the loader raises instead of returning a
    waveform. *)
Lemma load_raises_on_empty_file :
  load_and_preprocess_audio (librosa_of (Returned []) [0] []) "empty.wav" SAMPLE_RATE
    empty_world =
  (Raised (ValueError
             "zero-size array to reduction operation maximum which has no identity"),
   empty_world).
Proof.
  apply (load_raises_on_empty (librosa_of (Returned []) [0] []) "empty.wav" SAMPLE_RATE
           empty_world []); reflexivity.
Qed.

(** ** Decibels *)

Lemma ln_10_pos : 0 < ln 10.
Proof. rewrite <- ln_1. apply ln_increasing; lra. Qed.

Lemma log10_le (x y : R) : 0 < x -> x <= y -> log10 x <= log10 y.
Proof.
  intros Hx [Hlt| ->]; [|lra]. unfold log10.
  apply Rmult_le_compat_r.
  - left. apply Rinv_0_lt_compat, ln_10_pos.
  - left. now apply ln_increasing.
Qed.

Lemma pow10_pos (x : R) : 0 < pow10 x.
Proof. unfold pow10, Rpower. apply exp_pos. Qed.

Lemma pow10_0 : pow10 0 = 1.
Proof. unfold pow10. apply Rpower_O. lra. Qed.

Lemma pow10_le (x y : R) : x <= y -> pow10 x <= pow10 y.
Proof.
  intros [Hlt| ->]; [|lra]. left. unfold pow10, Rpower.
  apply exp_increasing. apply Rmult_lt_compat_r; [apply ln_10_pos|exact Hlt].
Qed.

Lemma pow10_log10 (x : R) : 0 < x -> pow10 (log10 x) = x.
Proof.
  intro Hx. unfold pow10, log10, Rpower.
  replace (ln x / ln 10 * ln 10) with (ln x).
  - now apply exp_ln.
  - field. pose proof ln_10_pos. lra.
Qed.

Lemma pow10_opp_nat (n : nat) : pow10 (- INR n) = / 10 ^ n.
Proof.
  unfold pow10. rewrite Rpower_Ropp, Rpower_pow by lra. reflexivity.
Qed.

Lemma log10_inv_pow (n : nat) : log10 (/ 10 ^ n) = - INR n.
Proof.
  unfold log10. rewrite ln_Rinv by (apply pow_lt; lra).
  rewrite ln_pow by lra. field. pose proof ln_10_pos. lra.
Qed.

Lemma amin_pos : 0 < amin.
Proof. unfold amin. apply Rinv_0_lt_compat, pow_lt. lra. Qed.

Lemma Rmax_amin_pos (x : R) : 0 < Rmax amin x.
Proof. eapply Rlt_le_trans; [apply amin_pos|apply Rmax_l]. Qed.

(** an entry below the reference lies at or below 0 dB, the reference at 0 *)
Lemma log_spec_of_le (ref_value x : R) : x <= ref_value -> log_spec_of ref_value x <= 0.
Proof.
  intro H. unfold log_spec_of.
  assert (log10 (Rmax amin x) <= log10 (Rmax amin ref_value)); [|lra].
  apply log10_le; [apply Rmax_amin_pos|].
  apply Rmax_lub; [apply Rmax_l|]. eapply Rle_trans; [exact H|apply Rmax_r].
Qed.

Lemma log_spec_of_ref (ref_value : R) : log_spec_of ref_value ref_value = 0.
Proof. unfold log_spec_of. lra. Qed.

(** ** Reductions over the entries of a matrix *)

Lemma In_concat_map_map {A B : Type} (f : A -> B) (m : Matrix A) (y : B) :
  In y (concat (map (map f) m)) <-> exists x, In x (concat m) /\ y = f x.
Proof.
  rewrite <- concat_map, in_map_iff. split; intros [x [H1 H2]]; exists x; auto.
Qed.

Lemma maximum_of_map_map (f : R -> R) (m : Matrix R) (mx : R) :
  (forall x y, x <= y -> f x <= f y) ->
  maximum_of (concat m) mx -> maximum_of (concat (map (map f) m)) (f mx).
Proof.
  intros Hf [Hin Hall]. split.
  - apply In_concat_map_map. now exists mx.
  - rewrite Forall_forall in *. intros y Hy.
    apply In_concat_map_map in Hy as [x [Hx ->]]. auto.
Qed.

Lemma log_spec_maximum (m : Matrix R) (ref_value : R) :
  maximum_of (concat m) ref_value ->
  maximum_of (concat (map (map (log_spec_of ref_value)) m)) 0.
Proof.
  intros [Hin Hall]. split.
  - apply In_concat_map_map. exists ref_value. split; [exact Hin|].
    now rewrite log_spec_of_ref.
  - rewrite Forall_forall in *. intros y Hy.
    apply In_concat_map_map in Hy as [x [Hx ->]]. apply log_spec_of_le. auto.
Qed.

(** [power_to_db] returns on a matrix with an entry, and computes [db_of]
    entrywise *)
Lemma power_to_db_returns (m : Matrix R) (ref_value : R) :
  maximum_of (concat m) ref_value ->
  power_to_db m = Returned (map (map (db_of ref_value)) m).
Proof.
  intro Hmax. unfold power_to_db, np_max2.
  rewrite (maximum_of_np_max _ _ Hmax). cbn [obind].
  rewrite (maximum_of_np_max _ _ (log_spec_maximum _ _ Hmax)). cbn [obind].
  now rewrite map_map, (map_ext _ _ (fun r => map_map _ _ r)).
Qed.

Lemma db_of_le (ref_value x : R) : x <= ref_value -> db_of ref_value x <= 0.
Proof.
  intro H. unfold db_of, top_db. apply Rmax_lub; [now apply log_spec_of_le|lra].
Qed.

Lemma db_of_ref (ref_value : R) : db_of ref_value ref_value = 0.
Proof.
  unfold db_of, top_db. rewrite log_spec_of_ref. apply Rmax_left. lra.
Qed.

Lemma db_maximum (m : Matrix R) (ref_value : R) :
  maximum_of (concat m) ref_value ->
  maximum_of (concat (map (map (db_of ref_value)) m)) 0.
Proof.
  intros [Hin Hall]. split.
  - apply In_concat_map_map. exists ref_value. split; [exact Hin|].
    now rewrite db_of_ref.
  - rewrite Forall_forall in *. intros y Hy.
    apply In_concat_map_map in Hy as [x [Hx ->]]. apply db_of_le. auto.
Qed.

(** ** Column sums *)

Lemma zip_with_Rplus_seq (row : list R) (f : nat -> R) (k : nat) :
  zip_with Rplus row (map f (seq k (length row))) =
  map (fun j => nth (j - k) row 0 + f j) (seq k (length row)).
Proof.
  revert k. induction row as [|a t IH]; intro k; [reflexivity|].
  cbn [length seq map zip_with]. rewrite Nat.sub_diag. cbn [nth]. f_equal.
  rewrite IH. apply map_ext_in. intros j Hj. apply in_seq in Hj.
  replace (j - k)%nat with (S (j - S k)) by lia. reflexivity.
Qed.

Lemma repeat_0_seq (w k : nat) : repeat 0 w = map (fun _ => 0) (seq k w).
Proof. revert k. induction w as [|w IH]; intro k; cbn; [|rewrite <- IH]; reflexivity. Qed.

Lemma fold_zip_columns (m : Matrix R) (w : nat) :
  rect w m ->
  fold_right (zip_with Rplus) (repeat 0 w) m = map (column_sum m) (seq 0 w).
Proof.
  induction 1 as [|row t Hrow Ht IH]; cbn [fold_right].
  - apply repeat_0_seq.
  - rewrite IH. subst w. rewrite zip_with_Rplus_seq.
    apply map_ext. intro j. now rewrite Nat.sub_0_r.
Qed.

Lemma rect_shape1 {A : Type} (w : nat) (m : Matrix A) :
  rect w m -> m <> [] -> shape1 m = w.
Proof. intros H Hne. destruct m; [congruence|]. now inversion H. Qed.

Lemma rect_map_map {A B : Type} (f : A -> B) (w : nat) (m : Matrix A) :
  rect w m -> rect w (map (map f) m).
Proof.
  unfold rect. rewrite !Forall_forall. intros H r Hr.
  apply in_map_iff in Hr as [r0 [<- Hr0]]. rewrite length_map. auto.
Qed.

Lemma np_sum_axis0_columns (m : Matrix R) (w : nat) :
  rect w m -> m <> [] -> np_sum_axis0 m = map (column_sum m) (seq 0 w).
Proof.
  intros H Hne. unfold np_sum_axis0. rewrite (rect_shape1 w m H Hne).
  now apply fold_zip_columns.
Qed.

(** the energies the code computes are the column energies *)
Lemma spec_energy_columns (db : Matrix R) (w : nat) :
  rect w db -> db <> [] ->
  map (fun s => s + / 10 ^ 10)
      (np_sum_axis0 (map (map (fun v => pow10 (v / 10))) db)) =
  column_energies db.
Proof.
  intros H Hne. unfold column_energies.
  rewrite (np_sum_axis0_columns _ w).
  - rewrite map_map, (rect_shape1 w db H Hne). reflexivity.
  - now apply rect_map_map.
  - destruct db; [congruence|discriminate].
Qed.

Lemma last_active_unique (energy : list R) (thr : R) (i j : nat) :
  last_active energy thr i -> last_active energy thr j -> i = j.
Proof.
  intros [Hi Li] [Hj Lj].
  destruct (Nat.lt_trichotomy i j) as [H|[H|H]]; [|exact H|].
  - exfalso. exact (Li j H Hj).
  - exfalso. exact (Lj i H Hi).
Qed.

Lemma py_slice_prefix {A : Type} (stop : nat) (l : list A) :
  (stop <= length l)%nat -> py_slice 0 (Z.of_nat stop) l = firstn stop l.
Proof.
  intro H. rewrite py_slice_nonneg by lia.
  cbn [Z.to_nat skipn]. now rewrite Nat2Z.id, Nat.sub_0_r.
Qed.

(** ** SpectrogramExtractor: the crop of trailing frames *)

Lemma crop_trailing_active (db : Matrix R) (w : nat) (mx : R) (jl : nat) :
  rect w db -> db <> [] ->
  maximum_of (column_energies db) mx ->
  last_active (column_energies db) (1 / 100 * mx) jl ->
  crop_trailing db = Returned (map (firstn (Nat.min (jl + 6) w)) db).
Proof.
  intros Hrect Hne Hmx Hlast. unfold crop_trailing. cbv zeta.
  rewrite (spec_energy_columns db w Hrect Hne).
  rewrite (maximum_of_np_max _ _ Hmx). cbn [obind].
  destruct (np_where_first_last (column_energies db) (1 / 100 * mx)) as [Hlen [_ Hl]].
  { exists jl. apply Hlast. }
  cbv zeta in Hlen, Hl. rewrite Hlen. unfold last_index.
  rewrite (last_active_unique _ _ _ _ Hl Hlast).
  rewrite (rect_shape1 w db Hrect Hne). f_equal. unfold cols_upto.
  apply map_ext_in. intros row Hrow.
  assert (Hw : (0 < w)%nat).
  { destruct Hlast as [[e [He _]] _]. unfold column_energies in He.
    rewrite (rect_shape1 w db Hrect Hne) in He.
    assert (Hs : nth_error (map (column_energy db) (seq 0 w)) jl <> None) by congruence.
    apply nth_error_Some in Hs. rewrite length_map, length_seq in Hs. lia. }
  unfold rect in Hrect. rewrite Forall_forall in Hrect. specialize (Hrect row Hrow).
  replace (Z.min (Z.of_nat jl + 5) (Z.of_nat w - 1) + 1)%Z
    with (Z.of_nat (Nat.min (jl + 6) w)) by lia.
  apply py_slice_prefix. lia.
Qed.

Lemma crop_trailing_silent (db : Matrix R) (w : nat) (mx : R) :
  rect w db -> db <> [] ->
  maximum_of (column_energies db) mx ->
  (forall j, ~ exceeds (column_energies db) (1 / 100 * mx) j) ->
  crop_trailing db = Returned db.
Proof.
  intros Hrect Hne Hmx Hnone. unfold crop_trailing. cbv zeta.
  rewrite (spec_energy_columns db w Hrect Hne).
  rewrite (maximum_of_np_max _ _ Hmx). cbn [obind].
  now rewrite (np_where_none _ _ Hnone).
Qed.

Lemma linear_pos (v : R) : 0 < linear v.
Proof. apply pow10_pos. Qed.

Lemma linear_0 : linear 0 = 1.
Proof. unfold linear. replace (0 / 10) with 0 by lra. apply pow10_0. Qed.

Lemma linear_le_1 (v : R) : v <= 0 -> linear v <= 1.
Proof. intro H. rewrite <- pow10_0. apply pow10_le. lra. Qed.

Lemma column_sum_nonneg (m : Matrix R) (j : nat) :
  (forall row x, In row m -> In x row -> 0 <= x) -> 0 <= column_sum m j.
Proof.
  induction m as [|row t IH]; intro H; cbn; [lra|].
  assert (0 <= nth j row 0).
  { destruct (nth_in_or_default j row 0) as [Hin| ->]; [|lra].
    apply (H row); [now left|exact Hin]. }
  assert (0 <= column_sum t j) by (apply IH; intros r x Hr; apply H; now right).
  unfold column_sum in *. lra.
Qed.

Lemma linear_entries_nonneg (db : Matrix R) (row : list R) (x : R) :
  In row (map (map linear) db) -> In x row -> 0 <= x.
Proof.
  intros Hrow Hx. apply in_map_iff in Hrow as [r [<- _]].
  apply in_map_iff in Hx as [v [<- _]]. left. apply linear_pos.
Qed.

Lemma column_energy_pos (db : Matrix R) (j : nat) : 0 < column_energy db j.
Proof.
  unfold column_energy.
  pose proof (column_sum_nonneg (map (map linear) db) j (linear_entries_nonneg db)).
  assert (0 < / 10 ^ 10) by (apply Rinv_0_lt_compat, pow_lt; lra). lra.
Qed.

Lemma column_energies_nth (db : Matrix R) (j : nat) :
  (j < shape1 db)%nat ->
  nth_error (column_energies db) j = Some (column_energy db j).
Proof.
  intro H. unfold column_energies.
  rewrite nth_error_map, nth_error_nth' with (d := 0%nat) by now rewrite length_seq.
  now rewrite seq_nth.
Qed.

Lemma column_energies_In (db : Matrix R) (e : R) :
  In e (column_energies db) -> exists j, (j < shape1 db)%nat /\ e = column_energy db j.
Proof.
  unfold column_energies. intro H. apply in_map_iff in H as [j [<- Hj]].
  apply in_seq in Hj. exists j. split; [lia|reflexivity].
Qed.

(** the maximum of the column energies exists, and its own frame lies above
    1% of it *)
Lemma column_energies_maximum (db : Matrix R) :
  (0 < shape1 db)%nat ->
  exists mx, maximum_of (column_energies db) mx /\
             exists j, exceeds (column_energies db) (1 / 100 * mx) j.
Proof.
  intro Hw.
  destruct (column_energies db) as [|e t] eqn:E.
  { unfold column_energies in E. destruct (shape1 db); [lia|discriminate]. }
  exists (fold_left Rmax t e).
  assert (Hmx : maximum_of (e :: t) (fold_left Rmax t e))
    by (apply np_max_maximum; reflexivity).
  split; [exact Hmx|].
  destruct Hmx as [Hin _]. rewrite <- E in Hin.
  destruct (column_energies_In _ _ Hin) as [j [Hj Hej]].
  exists j. exists (fold_left Rmax t e). split.
  - rewrite <- E, Hej. now apply column_energies_nth.
  - pose proof (column_energy_pos db j). rewrite <- Hej in H. lra.
Qed.

(** C4: on a decibel matrix with at least one row and one column, the crop
    takes as energy of a time frame the sum over the mel bands of
    [10^(dB/10)] plus epsilon; with [jl] the last frame whose energy exceeds
    1% of the largest frame energy, it returns the frames [0 .. jl + 5],
    or all of them when the matrix is narrower; such a frame exists; were
    there none, the matrix would come back uncropped.  This crop is what
    [create_mel_spectrogram] applies to the decibel matrix. *)
Theorem crop_trailing_keeps_last_active_plus_5 (db : Matrix R) (w : nat) :
  rect w db -> db <> [] -> (0 < w)%nat ->
  exists mx,
    maximum_of (column_energies db) mx /\
    (exists jl, last_active (column_energies db) (1 / 100 * mx) jl) /\
    (forall jl, last_active (column_energies db) (1 / 100 * mx) jl ->
       crop_trailing db = Returned (map (firstn (Nat.min (jl + 6) w)) db)) /\
    ((forall j, ~ exceeds (column_energies db) (1 / 100 * mx) j) ->
       crop_trailing db = Returned db) /\
    (forall L audio sr n_fft hop_length n_mels,
       power_to_db (librosa_feature_melspectrogram L audio sr n_fft hop_length n_mels)
       = Returned db ->
       create_mel_spectrogram L audio sr n_fft hop_length n_mels = crop_trailing db).
Proof.
  intros Hrect Hne Hw.
  destruct (column_energies_maximum db) as [mx [Hmx Hex]].
  { now rewrite (rect_shape1 w db Hrect Hne). }
  exists mx. split; [exact Hmx|]. split; [|split; [|split]].
  - destruct (np_where_first_last _ _ Hex) as [_ [_ Hl]]. eexists. exact Hl.
  - intros jl Hjl. now apply (crop_trailing_active db w mx).
  - intro Hnone. now apply (crop_trailing_silent db w mx).
  - intros L audio sr n_fft hop_length n_mels Hdb.
    unfold create_mel_spectrogram. now rewrite Hdb.
Qed.

Lemma crop_trailing_keeps_last_active_plus_5_witness :
  exists mx jl,
    maximum_of (column_energies [[0; 0; -80]; [-10; -20; -80]]) mx /\
    last_active (column_energies [[0; 0; -80]; [-10; -20; -80]]) (1 / 100 * mx) jl /\
    crop_trailing [[0; 0; -80]; [-10; -20; -80]] =
    Returned (map (firstn (Nat.min (jl + 6) 3)) [[0; 0; -80]; [-10; -20; -80]]).
Proof.
  destruct (crop_trailing_keeps_last_active_plus_5 [[0; 0; -80]; [-10; -20; -80]] 3)
    as [mx [Hmx [[jl Hjl] [H _]]]].
  - repeat constructor.
  - discriminate.
  - lia.
  - exists mx, jl. split; [exact Hmx|]. split; [exact Hjl|]. now apply H.
Defined.

(** ** SpectrogramExtractor: the peak of the decibel matrix *)

Lemma column_sum_ge_entry (m : Matrix R) (i j : nat) (row : list R) :
  (forall r x, In r m -> In x r -> 0 <= x) ->
  nth_error m i = Some row -> nth j row 0 <= column_sum m j.
Proof.
  revert i. induction m as [|r t IH]; intros i Hpos Hi; [destruct i; discriminate|].
  assert (Ht : 0 <= column_sum t j)
    by (apply column_sum_nonneg; intros r0 x Hr0; apply Hpos; now right).
  assert (Hr : 0 <= nth j r 0).
  { destruct (nth_in_or_default j r 0) as [Hin| ->]; [|lra].
    apply (Hpos r); [now left|exact Hin]. }
  change (column_sum (r :: t) j) with (nth j r 0 + column_sum t j).
  destruct i as [|i]; cbn in Hi.
  - injection Hi as ->. lra.
  - specialize (IH i). assert (nth j row 0 <= column_sum t j); [|lra].
    apply IH; [|exact Hi]. intros r0 x Hr0. apply Hpos. now right.
Qed.

Lemma column_sum_le_rows (m : Matrix R) (j : nat) :
  (forall r x, In r m -> In x r -> x <= 1) -> column_sum m j <= INR (length m).
Proof.
  induction m as [|r t IH]; intro H; [cbn; lra|].
  change (column_sum (r :: t) j) with (nth j r 0 + column_sum t j).
  change (length (r :: t)) with (S (length t)). rewrite S_INR.
  assert (nth j r 0 <= 1).
  { destruct (nth_in_or_default j r 0) as [Hin| ->]; [|lra].
    apply (H r); [now left|exact Hin]. }
  assert (column_sum t j <= INR (length t)); [|lra].
  apply IH. intros r0 x Hr0. apply H. now right.
Qed.

Lemma In_concat_nth {A : Type} (m : Matrix A) (x : A) :
  In x (concat m) ->
  exists i j row, nth_error m i = Some row /\ nth_error row j = Some x.
Proof.
  intro H. apply in_concat in H as [row [Hrow Hx]].
  apply In_nth_error in Hrow as [i Hi]. apply In_nth_error in Hx as [j Hj].
  now exists i, j, row.
Qed.

Lemma nth_In_concat {A : Type} (m : Matrix A) (i j : nat) (row : list A) (x : A) :
  nth_error m i = Some row -> nth_error row j = Some x -> In x (concat m).
Proof.
  intros Hi Hj. apply in_concat. exists row.
  split; eapply nth_error_In; eassumption.
Qed.

Lemma shape1_map_firstn {A : Type} (k w : nat) (m : Matrix A) :
  rect w m -> m <> [] -> shape1 (map (firstn k) m) = Nat.min k w.
Proof.
  intros H Hne. destruct m as [|r t]; [congruence|]. inversion H; subst.
  cbn. apply length_firstn.
Qed.

Lemma nth_error_firstn_lt {A : Type} (k j : nat) (l : list A) :
  (j < k)%nat -> nth_error (firstn k l) j = nth_error l j.
Proof.
  revert j l. induction k as [|k IH]; intros j l H; [lia|].
  destruct l as [|a l]; [reflexivity|]. destruct j as [|j]; [reflexivity|].
  cbn. apply IH. lia.
Qed.

Lemma In_firstn {A : Type} (k : nat) (l : list A) (x : A) :
  In x (firstn k l) -> In x l.
Proof.
  intro H. rewrite <- (firstn_skipn k l). apply in_or_app. now left.
Qed.

(** the linear powers of a decibel matrix whose entries are at most 0 dB
    lie in (0, 1] *)
Lemma linear_entries_le_1 (db : Matrix R) :
  Forall (fun v => v <= 0) (concat db) ->
  forall r x, In r (map (map linear) db) -> In x r -> x <= 1.
Proof.
  intros Hdb r x Hr Hx. rewrite Forall_forall in Hdb.
  apply in_map_iff in Hr as [r0 [<- Hr0]]. apply in_map_iff in Hx as [v [<- Hv]].
  apply linear_le_1, Hdb, in_concat. now exists r0.
Qed.

(** a frame that holds a 0 dB cell lies above 1% of the largest frame
    energy when there are at most 100 bands *)
Lemma peak_frame_exceeds (db : Matrix R) (w i j : nat) (row : list R) (mx : R) :
  rect w db -> (length db <= 100)%nat ->
  Forall (fun v => v <= 0) (concat db) ->
  nth_error db i = Some row -> nth_error row j = Some 0 ->
  maximum_of (column_energies db) mx ->
  exceeds (column_energies db) (1 / 100 * mx) j.
Proof.
  intros Hrect Hrows Hle Hi Hj [Hin _].
  assert (Hne : db <> []) by (intro E; rewrite E in Hi; destruct i; discriminate).
  assert (Hjw : (j < w)%nat).
  { unfold rect in Hrect. rewrite Forall_forall in Hrect.
    rewrite <- (Hrect row (nth_error_In _ _ Hi)).
    apply nth_error_Some. congruence. }
  exists (column_energy db j). split.
  { apply column_energies_nth. now rewrite (rect_shape1 w db Hrect Hne). }
  destruct (column_energies_In _ _ Hin) as [j' [_ ->]].
  assert (Hlow : 1 <= column_sum (map (map linear) db) j).
  { rewrite <- linear_0.
    replace (linear 0) with (nth j (map linear row) 0).
    - apply (column_sum_ge_entry _ i); [apply linear_entries_nonneg|].
      now rewrite nth_error_map, Hi.
    - apply nth_error_nth. now rewrite nth_error_map, Hj. }
  assert (Hup : column_sum (map (map linear) db) j' <= 100).
  { eapply Rle_trans; [apply column_sum_le_rows, linear_entries_le_1, Hle|].
    rewrite length_map. replace 100 with (INR 100) by (cbn; lra).
    now apply le_INR. }
  assert (Heps : 0 < / 10 ^ 10) by (apply Rinv_0_lt_compat, pow_lt; lra).
  unfold column_energy. lra.
Qed.

Lemma maximum_of_nonempty (m : Matrix R) (w : nat) (mx : R) :
  rect w m -> maximum_of (concat m) mx -> m <> [] /\ (0 < w)%nat.
Proof.
  intros Hrect [Hin _]. apply in_concat in Hin as [row [Hrow Hx]].
  split; [intro E; rewrite E in Hrow; destruct Hrow|].
  unfold rect in Hrect. rewrite Forall_forall in Hrect.
  rewrite <- (Hrect row Hrow). destruct row; [destruct Hx|cbn; lia].
Qed.

(** what [create_mel_spectrogram] returns, the mel power matrix being
    rectangular with largest entry [ref_value] *)
Lemma create_mel_spectrogram_returns (L : Librosa) (audio : list R)
    (sr n_fft hop_length n_mels : Z) (w : nat) (ref_value : R) :
  let mel := librosa_feature_melspectrogram L audio sr n_fft hop_length n_mels in
  let db := map (map (db_of ref_value)) mel in
  rect w mel -> maximum_of (concat mel) ref_value ->
  exists mx jl,
    maximum_of (column_energies db) mx /\
    last_active (column_energies db) (1 / 100 * mx) jl /\
    create_mel_spectrogram L audio sr n_fft hop_length n_mels =
    Returned (map (firstn (Nat.min (jl + 6) w)) db).
Proof.
  intros mel db Hrect Hmax.
  destruct (maximum_of_nonempty mel w ref_value Hrect Hmax) as [Hne Hw].
  assert (Hrdb : rect w db) by now apply rect_map_map.
  assert (Hnedb : db <> []) by (unfold db; destruct mel; [congruence|discriminate]).
  destruct (column_energies_maximum db) as [mx [Hmx Hex]].
  { now rewrite (rect_shape1 w db Hrdb Hnedb). }
  destruct (np_where_first_last _ _ Hex) as [_ [_ Hl]].
  exists mx. eexists. split; [exact Hmx|]. split; [exact Hl|].
  unfold create_mel_spectrogram. fold mel.
  rewrite (power_to_db_returns mel ref_value Hmax). cbn [obind]. fold db.
  now apply (crop_trailing_active db w mx).
Qed.

(** C1, as the code has it: when the mel power matrix has an entry, every
    value of the matrix returned is at most 0 dB; the decibel matrix has
    maximum exactly 0 dB before the crop; the matrix returned has maximum
    exactly 0 dB whenever the crop keeps a frame that holds the peak power,
    and it keeps one whenever there are at most 100 mel bands. *)
Theorem create_mel_spectrogram_at_most_0_dB (L : Librosa) (audio : list R)
    (sr n_fft hop_length n_mels : Z) (w : nat) (ref_value : R) :
  let mel := librosa_feature_melspectrogram L audio sr n_fft hop_length n_mels in
  rect w mel -> maximum_of (concat mel) ref_value ->
  exists db out,
    power_to_db mel = Returned db /\ maximum_of (concat db) 0 /\
    create_mel_spectrogram L audio sr n_fft hop_length n_mels = Returned out /\
    Forall (fun v => v <= 0) (concat out) /\
    ((exists i j row, nth_error mel i = Some row /\ nth_error row j = Some ref_value /\
                      (j < shape1 out)%nat) ->
     maximum_of (concat out) 0) /\
    ((shape0 mel <= 100)%nat -> maximum_of (concat out) 0).
Proof.
  intros mel Hrect Hmax.
  destruct (create_mel_spectrogram_returns L audio sr n_fft hop_length n_mels w ref_value
              Hrect Hmax) as [mx [jl [Hmx [Hjl Hout]]]].
  fold mel in Hmx, Hjl, Hout.
  set (db := map (map (db_of ref_value)) mel) in *.
  set (k := Nat.min (jl + 6) w) in *.
  destruct (maximum_of_nonempty mel w ref_value Hrect Hmax) as [Hne Hw].
  assert (Hrdb : rect w db) by now apply rect_map_map.
  assert (Hnedb : db <> []) by (unfold db; destruct mel; [congruence|discriminate]).
  pose proof (db_maximum mel ref_value Hmax) as Hdbmax. fold db in Hdbmax.
  assert (Hle : Forall (fun v => v <= 0) (concat (map (firstn k) db))).
  { destruct Hdbmax as [_ Hall]. rewrite Forall_forall in *. intros v Hv.
    apply in_concat in Hv as [r [Hr Hv]]. apply in_map_iff in Hr as [r0 [<- Hr0]].
    apply Hall, in_concat. exists r0. split; [exact Hr0|]. eapply In_firstn, Hv. }
  assert (Hkept : forall i j row,
             nth_error mel i = Some row -> nth_error row j = Some ref_value ->
             (j < k)%nat -> maximum_of (concat (map (firstn k) db)) 0).
  { intros i j row Hi Hj Hjk. split; [|exact Hle].
    apply (nth_In_concat _ i j (firstn k (map (db_of ref_value) row))).
    - unfold db. now rewrite !nth_error_map, Hi.
    - rewrite nth_error_firstn_lt by exact Hjk.
      rewrite nth_error_map, Hj. cbn [option_map]. now rewrite db_of_ref. }
  exists db, (map (firstn k) db).
  split; [now apply power_to_db_returns|]. split; [exact Hdbmax|].
  split; [exact Hout|]. split; [exact Hle|]. split.
  - intros [i [j [row [Hi [Hj Hjk]]]]].
    rewrite (shape1_map_firstn k w db Hrdb Hnedb) in Hjk.
    apply (Hkept i j row Hi Hj). lia.
  - intro Hrows. destruct Hmax as [Hin Hall].
    destruct (In_concat_nth _ _ Hin) as [i [j [row [Hi Hj]]]].
    apply (Hkept i j row Hi Hj).
    assert (Hjw : (j < w)%nat).
    { unfold rect in Hrect. rewrite Forall_forall in Hrect.
      rewrite <- (Hrect row (nth_error_In _ _ Hi)). apply nth_error_Some. congruence. }
    assert (Hex : exceeds (column_energies db) (1 / 100 * mx) j).
    { apply (peak_frame_exceeds db w i j (map (db_of ref_value) row)); try assumption.
      - unfold db, shape0 in *. now rewrite length_map.
      - apply Hdbmax.
      - unfold db. now rewrite nth_error_map, Hi.
      - rewrite nth_error_map, Hj. cbn [option_map]. now rewrite db_of_ref. }
    destruct Hjl as [_ Hlast].
    assert (j <= jl)%nat.
    { destruct (Nat.le_gt_cases j jl) as [H|H]; [exact H|]. exfalso.
      exact (Hlast j H Hex). }
    unfold k. lia.
Qed.

Lemma create_mel_spectrogram_at_most_0_dB_witness :
  exists db out,
    power_to_db [[1; 4; 0]; [2; 1; 0]] = Returned db /\ maximum_of (concat db) 0 /\
    create_mel_spectrogram librosa_small [1; 0; -1] SAMPLE_RATE FFT_WINDOW HOP_LENGTH 2
    = Returned out /\
    maximum_of (concat out) 0.
Proof.
  destruct (create_mel_spectrogram_at_most_0_dB librosa_small [1; 0; -1]
              SAMPLE_RATE FFT_WINDOW HOP_LENGTH 2 3 4)
    as [db [out [Hdb [Hmax [Hout [_ [_ H]]]]]]].
  - repeat constructor.
  - split; [cbn; tauto|]. cbn. repeat constructor; lra.
  - exists db, out. split; [exact Hdb|]. split; [exact Hmax|]. split; [exact Hout|].
    apply H. cbn. lia.
Defined.

(** ** The click-and-tone spectrogram *)

Lemma log10_1 : log10 1 = 0.
Proof. unfold log10. rewrite ln_1. lra. Qed.

Lemma Rmax_amin_1 : Rmax amin 1 = 1.
Proof.
  apply Rmax_right. unfold amin. lra.
Qed.

Lemma db_of_1_tone : db_of 1 1 = 0.
Proof. apply db_of_ref. Qed.

Lemma db_of_1_silence : db_of 1 0 = -80.
Proof.
  unfold db_of, log_spec_of, top_db. rewrite Rmax_amin_1, log10_1.
  rewrite (Rmax_left amin 0) by (left; apply amin_pos).
  unfold amin. rewrite log10_inv_pow.
  replace (INR 10) with 10 by (cbn; lra). rewrite Rmax_right by lra. lra.
Qed.

Lemma db_of_1_click : db_of 1 (9 / 10) = 10 * log10 (9 / 10).
Proof.
  unfold db_of, log_spec_of, top_db. rewrite Rmax_amin_1, log10_1.
  rewrite (Rmax_right amin (9 / 10)).
  2:{ unfold amin. lra. }
  rewrite Rmult_0_r, Rminus_0_r. apply Rmax_left.
  assert (log10 (/ 10 ^ 8) <= log10 (9 / 10)).
  { apply log10_le; lra. }
  rewrite log10_inv_pow in H. replace (INR 8) with 8 in H by (cbn; lra). lra.
Qed.

Lemma linear_tone : linear (db_of 1 1) = 1.
Proof. rewrite db_of_1_tone. apply linear_0. Qed.

Lemma linear_silence : linear (db_of 1 0) = / 10 ^ 8.
Proof.
  rewrite db_of_1_silence. unfold linear.
  replace (-80 / 10) with (- INR 8) by (cbn; lra). apply pow10_opp_nat.
Qed.

Lemma linear_click : linear (db_of 1 (9 / 10)) = 9 / 10.
Proof.
  rewrite db_of_1_click. unfold linear.
  replace (10 * log10 (9 / 10) / 10) with (log10 (9 / 10)) by lra.
  apply pow10_log10. lra.
Qed.

(** below the peak in power, below 0 in decibels *)
Lemma linear_lt_1_neg (v : R) : linear v < 1 -> v < 0.
Proof.
  intro H. destruct (Rlt_le_dec v 0) as [Hv|Hv]; [exact Hv|exfalso].
  assert (linear 0 <= linear v) by (apply pow10_le; lra).
  rewrite linear_0 in H0. lra.
Qed.

Lemma db_of_1_click_neg : db_of 1 (9 / 10) < 0.
Proof. apply linear_lt_1_neg. rewrite linear_click. lra. Qed.

Lemma db_of_1_silence_neg : db_of 1 0 < 0.
Proof. rewrite db_of_1_silence. lra. Qed.

Lemma column_sum_repeat (r : list R) (n j : nat) :
  column_sum (repeat r n) j = INR n * nth j r 0.
Proof.
  induction n as [|n IH]; [cbn; lra|].
  change (column_sum (repeat r (S n)) j) with (nth j r 0 + column_sum (repeat r n) j).
  rewrite IH, S_INR. lra.
Qed.

Lemma click_tone_rect : rect 8 click_tone.
Proof.
  constructor; [reflexivity|]. apply Forall_forall. intros r Hr.
  apply repeat_spec in Hr. now subst.
Qed.

Lemma click_tone_maximum : maximum_of (concat click_tone) 1.
Proof.
  split.
  - apply in_concat. exists tone_row. split; [now left|cbn; tauto].
  - apply Forall_forall. intros x Hx. apply in_concat in Hx as [r [Hr Hx]].
    destruct Hr as [<-|Hr]; [|apply repeat_spec in Hr; subst r];
      cbn in Hx; repeat (destruct Hx as [<-|Hx]; [lra|]); destruct Hx.
Qed.

Lemma click_tone_db_rows :
  map (map linear) click_tone_db =
  [9 / 10; / 10 ^ 8; / 10 ^ 8; / 10 ^ 8; / 10 ^ 8; / 10 ^ 8; / 10 ^ 8; 1]
  :: repeat [9 / 10; / 10 ^ 8; / 10 ^ 8; / 10 ^ 8; / 10 ^ 8; / 10 ^ 8; / 10 ^ 8; / 10 ^ 8]
       127.
Proof.
  unfold click_tone_db, click_tone. cbn [map]. rewrite !map_repeat.
  unfold tone_row, click_row. cbn [map].
  now rewrite linear_tone, linear_silence, linear_click.
Qed.

Lemma click_tone_energies :
  column_energies click_tone_db =
  [128 * (9 / 10) + / 10 ^ 10;
   128 * / 10 ^ 8 + / 10 ^ 10; 128 * / 10 ^ 8 + / 10 ^ 10; 128 * / 10 ^ 8 + / 10 ^ 10;
   128 * / 10 ^ 8 + / 10 ^ 10; 128 * / 10 ^ 8 + / 10 ^ 10; 128 * / 10 ^ 8 + / 10 ^ 10;
   1 + 127 * / 10 ^ 8 + / 10 ^ 10].
Proof.
  unfold column_energies.
  change (shape1 click_tone_db) with 8%nat. cbn [seq map].
  unfold column_energy. rewrite click_tone_db_rows.
  assert (H127 : INR 127 = 127) by (rewrite INR_IZR_INZ; reflexivity).
  repeat match goal with
    | |- context [column_sum (?r :: repeat ?r' 127) ?j] =>
        change (column_sum (r :: repeat r' 127) j)
          with (nth j r 0 + column_sum (repeat r' 127) j);
        rewrite (column_sum_repeat r' 127 j), H127; cbn [nth]
    end.
  repeat (apply (f_equal2 (@cons R)); [lra|]). reflexivity.
Qed.

Lemma click_tone_energy_maximum :
  maximum_of (column_energies click_tone_db) (128 * (9 / 10) + / 10 ^ 10).
Proof.
  rewrite click_tone_energies. split; [now left|].
  repeat (constructor; [lra|]). constructor.
Qed.

(** frame 0 is the only one above 1% of the largest frame energy: the
    frame of the tone has energy 1.00000127 against a threshold of 1.152 *)
Lemma click_tone_last_active :
  last_active (column_energies click_tone_db)
    (1 / 100 * (128 * (9 / 10) + / 10 ^ 10)) 0.
Proof.
  rewrite click_tone_energies. split.
  - eexists. split; [reflexivity|]. lra.
  - intros j Hj [e [He Hgt]].
    do 8 (destruct j as [|j]; [try lia; cbn in He; injection He as <-; lra|]).
    destruct j; discriminate He.
Qed.

Lemma click_tone_db_negative :
  Forall (fun v => v < 0) (concat (map (firstn 6) click_tone_db)).
Proof.
  apply Forall_forall. intros v Hv. apply in_concat in Hv as [r [Hr Hv]].
  apply in_map_iff in Hr as [r0 [<- Hr0]].
  unfold click_tone_db in Hr0. apply in_map_iff in Hr0 as [r1 [<- Hr1]].
  pose proof db_of_1_click_neg. pose proof db_of_1_silence_neg.
  destruct Hr1 as [<-|Hr1]; [|apply repeat_spec in Hr1; subst r1];
    cbn in Hv; repeat (destruct Hv as [<-|Hv]; [assumption|]); destruct Hv.
Qed.

(** C1, counterexample: on [click_tone] (128 mel bands) the only frame
    above the threshold is frame 0, the crop keeps frames 0 to 5, and the
    frame of the peak, frame 7, is cut: every value returned is below 0 dB. *)
Lemma create_mel_spectrogram_crops_the_peak :
  exists out,
    create_mel_spectrogram librosa_click_tone (repeat 1 1200)
      SAMPLE_RATE FFT_WINDOW HOP_LENGTH N_MELS = Returned out /\
    out = map (firstn 6) click_tone_db /\
    Forall (fun v => v < 0) (concat out) /\
    ~ maximum_of (concat out) 0.
Proof.
  destruct (create_mel_spectrogram_returns librosa_click_tone (repeat 1 1200)
              SAMPLE_RATE FFT_WINDOW HOP_LENGTH N_MELS 8 1
              click_tone_rect click_tone_maximum) as [mx [jl [Hmx [Hjl Hout]]]].
  cbn [librosa_click_tone librosa_of librosa_feature_melspectrogram] in Hmx, Hjl, Hout.
  fold click_tone_db in Hmx, Hjl, Hout.
  rewrite (maximum_of_unique _ _ _ Hmx click_tone_energy_maximum) in Hjl.
  rewrite (last_active_unique _ _ _ _ Hjl click_tone_last_active) in Hout.
  exists (map (firstn 6) click_tone_db).
  split; [exact Hout|]. split; [reflexivity|]. split; [apply click_tone_db_negative|].
  intros [Hin _]. pose proof click_tone_db_negative as Hneg.
  rewrite Forall_forall in Hneg. specialize (Hneg 0 Hin). lra.
Qed.

(** ** SpecAugmenter: one mask *)

Lemma nth_error_working (h : list (Matrix R)) (cur : Matrix R) :
  nth_error (h ++ [cur]) (length h) = Some cur.
Proof. now rewrite nth_error_app2, Nat.sub_diag by lia. Qed.

Lemma set_nth_working (h : list (Matrix R)) (cur new : Matrix R) :
  set_nth (length h) new (h ++ [cur]) = h ++ [new].
Proof. induction h as [|a h IH]; [reflexivity|]. cbn. now rewrite IH. Qed.

(** what one frequency mask does to the array under construction *)
Lemma freq_mask_run (h : list (Matrix R)) (cur : Matrix R) (g : nat -> nat)
    (s : list string) (fp : Z) :
  freq_mask (length h) fp (working h cur g s) =
  if (0 <? fp)%Z then
    let f := (Z.of_nat (g 0%nat) mod fp)%Z in
    if (0 <? Z.of_nat (shape0 cur) - f)%Z then
      let f0 := (Z.of_nat (g 1%nat) mod (Z.of_nat (shape0 cur) - f))%Z in
      match np_min2 cur with
      | Returned lo =>
          (Returned tt, working h (set_rows f0 (f0 + f) lo cur) (drawn 2 g) s)
      | Raised e => (Raised e, working h cur (drawn 2 g) s)
      end
    else (Raised empty_range, working h cur (drawn 1 g) s)
  else (Raised empty_range, working h cur g s).
Proof.
  unfold freq_mask, bind, randint at 1. cbn [working rng heap stdout].
  destruct (0 <? fp)%Z; [|reflexivity].
  unfold read at 1. cbn [heap]. rewrite nth_error_working.
  unfold randint. cbn [rng heap stdout].
  rewrite Z.sub_0_r, Z.add_0_l.
  destruct (0 <? Z.of_nat (shape0 cur) - Z.of_nat (g 0%nat) mod fp)%Z; [|reflexivity].
  unfold read. cbn [heap]. rewrite nth_error_working.
  unfold lift. destruct (np_min2 cur) as [lo|e]; [|reflexivity].
  unfold write. cbn [heap rng stdout]. rewrite set_nth_working.
  rewrite Z.sub_0_r, Z.add_0_l. reflexivity.
Qed.

Lemma time_mask_run (h : list (Matrix R)) (cur : Matrix R) (g : nat -> nat)
    (s : list string) (tp : Z) :
  time_mask (length h) tp (working h cur g s) =
  if (0 <? tp)%Z then
    let t := (Z.of_nat (g 0%nat) mod tp)%Z in
    if (0 <? Z.of_nat (shape1 cur) - t)%Z then
      let t0 := (Z.of_nat (g 1%nat) mod (Z.of_nat (shape1 cur) - t))%Z in
      match np_min2 cur with
      | Returned lo =>
          (Returned tt, working h (set_cols t0 (t0 + t) lo cur) (drawn 2 g) s)
      | Raised e => (Raised e, working h cur (drawn 2 g) s)
      end
    else (Raised empty_range, working h cur (drawn 1 g) s)
  else (Raised empty_range, working h cur g s).
Proof.
  unfold time_mask, bind, randint at 1. cbn [working rng heap stdout].
  destruct (0 <? tp)%Z; [|reflexivity].
  unfold read at 1. cbn [heap]. rewrite nth_error_working.
  unfold randint. cbn [rng heap stdout].
  rewrite Z.sub_0_r, Z.add_0_l.
  destruct (0 <? Z.of_nat (shape1 cur) - Z.of_nat (g 0%nat) mod tp)%Z; [|reflexivity].
  unfold read. cbn [heap]. rewrite nth_error_working.
  unfold lift. destruct (np_min2 cur) as [lo|e]; [|reflexivity].
  unfold write. cbn [heap rng stdout]. rewrite set_nth_working.
  rewrite Z.sub_0_r, Z.add_0_l. reflexivity.
Qed.

(** ** SpecAugmenter: shape and minimum are invariant *)

Lemma fold_left_Rmin_le (l : list R) (x : R) : fold_left Rmin l x <= x.
Proof.
  revert x. induction l as [|a l IH]; intro x; cbn; [lra|].
  eapply Rle_trans; [apply IH|apply Rmin_l].
Qed.

Lemma fold_left_Rmin_lower (l : list R) (x : R) :
  Forall (fun e => fold_left Rmin l x <= e) l.
Proof.
  revert x. induction l as [|a l IH]; intro x; cbn; constructor.
  - eapply Rle_trans; [apply fold_left_Rmin_le|apply Rmin_r].
  - apply IH.
Qed.

Lemma fold_left_Rmin_In (l : list R) (x : R) : In (fold_left Rmin l x) (x :: l).
Proof.
  revert x. induction l as [|a l IH]; intro x; cbn; [now left|].
  destruct (IH (Rmin x a)) as [H|H]; [|now right; right].
  unfold Rmin in H at 1. destruct (Rle_dec x a); [left|right; left]; exact H.
Qed.

Lemma np_min_minimum (l : list R) (lo : R) :
  np_min l = Returned lo -> minimum_of l lo.
Proof.
  destruct l as [|x t]; [discriminate|]. cbn. intro H. injection H as <-.
  split; [apply fold_left_Rmin_In|].
  constructor; [apply fold_left_Rmin_le|apply fold_left_Rmin_lower].
Qed.

Lemma minimum_of_unique (l : list R) (a b : R) :
  minimum_of l a -> minimum_of l b -> a = b.
Proof.
  intros [Ha Fa] [Hb Fb]. rewrite Forall_forall in Fa, Fb.
  apply Rle_antisym; auto.
Qed.

Lemma minimum_of_np_min (l : list R) (lo : R) :
  minimum_of l lo -> np_min l = Returned lo.
Proof.
  intro H. destruct l as [|x t]; [destruct H as [[] _]|].
  cbn [np_min]. f_equal. eapply minimum_of_unique; [|exact H].
  apply np_min_minimum. reflexivity.
Qed.

Lemma Forall2_In_l {A B : Type} (P : A -> B -> Prop) (l : list A) (l' : list B) (x : A) :
  Forall2 P l l' -> In x l -> exists y, In y l' /\ P x y.
Proof.
  induction 1 as [|a b l l' Hab _ IH]; [intros []|].
  intros [<-|Hx]; [exists b; split; [now left|exact Hab]|].
  destruct (IH Hx) as [y [Hy Hxy]]. exists y. split; [now right|exact Hxy].
Qed.

Lemma Forall2_In_r {A B : Type} (P : A -> B -> Prop) (l : list A) (l' : list B) (y : B) :
  Forall2 P l l' -> In y l' -> exists x, In x l /\ P x y.
Proof.
  induction 1 as [|a b l l' Hab _ IH]; [intros []|].
  intros [<-|Hy]; [exists a; split; [now left|exact Hab]|].
  destruct (IH Hy) as [x [Hx Hxy]]. exists x. split; [now right|exact Hxy].
Qed.

Lemma Forall2_concat {A B : Type} (P : A -> B -> Prop) (m : Matrix A) (m' : Matrix B) :
  Forall2 (Forall2 P) m m' -> Forall2 P (concat m) (concat m').
Proof.
  induction 1 as [|r r' m m' Hr _ IH]; [constructor|].
  cbn. now apply Forall2_app.
Qed.

Lemma Forall2_same {A : Type} (P : A -> A -> Prop) (l : list A) :
  (forall x, P x x) -> Forall2 P l l.
Proof. intro H. induction l; constructor; auto. Qed.

Lemma masked_refl (m : Matrix R) : masked m m.
Proof.
  apply Forall2_same. intro r. apply Forall2_same. intro x. now left.
Qed.

Lemma masked_shape0 (m cur : Matrix R) : masked m cur -> shape0 cur = shape0 m.
Proof. intro H. symmetry. eapply Forall2_length, H. Qed.

Lemma Forall2_row_lengths {A B : Type} (P : A -> B -> Prop) (m : Matrix A) (m' : Matrix B) :
  Forall2 (Forall2 P) m m' -> map (@length B) m' = map (@length A) m.
Proof.
  induction 1 as [|r r' t t' Hr _ IH]; [reflexivity|].
  cbn. f_equal; [symmetry; eapply Forall2_length, Hr|exact IH].
Qed.

Lemma masked_row_lengths (m cur : Matrix R) :
  masked m cur -> map (@length R) cur = map (@length R) m.
Proof. apply Forall2_row_lengths. Qed.

Lemma masked_shape1 (m cur : Matrix R) : masked m cur -> shape1 cur = shape1 m.
Proof.
  intro H. apply masked_row_lengths in H.
  destruct m, cur; try discriminate; [reflexivity|]. now injection H.
Qed.

Lemma masked_minimum (m cur : Matrix R) (lo : R) :
  masked m cur -> minimum_of (concat m) lo -> minimum_of (concat cur) lo.
Proof.
  intros H Hlo. apply Forall2_concat in H. split.
  - destruct Hlo as [Hin Hlo0]. destruct (Forall2_In_l _ _ _ _ H Hin) as [y [Hy [->|Hmin]]].
    + exact Hy.
    + assert (E : y = lo) by (eapply minimum_of_unique; [exact Hmin|split; [exact Hin|apply Hlo0]]).
      now rewrite <- E.
  - apply Forall_forall. intros y Hy.
    destruct (Forall2_In_r _ _ _ _ H Hy) as [x [Hx [->|Hmin]]].
    + destruct Hlo as [_ Hall]. rewrite Forall_forall in Hall. auto.
    + rewrite (minimum_of_unique _ _ _ Hmin Hlo). lra.
Qed.

Lemma masked_minimum_back (m cur : Matrix R) (lo : R) :
  masked m cur -> minimum_of (concat cur) lo -> minimum_of (concat m) lo.
Proof.
  intros H [Hin Hall]. apply Forall2_concat in H. rewrite Forall_forall in Hall.
  destruct (Forall2_In_r _ _ _ _ H Hin) as [x [Hx [->|Hmin]]]; [|exact Hmin].
  split; [exact Hx|]. apply Forall_forall. intros z Hz.
  destruct (Forall2_In_l _ _ _ _ H Hz) as [y [Hy [->|[_ Hylow]]]]; [now apply Hall|].
  rewrite Forall_forall in Hylow. apply Rle_trans with y; [now apply Hall|now apply Hylow].
Qed.

(** the minimum the code reads off the array under construction is the
    minimum of the input *)
Lemma masked_np_min2 (m cur : Matrix R) : masked m cur -> np_min2 cur = np_min2 m.
Proof.
  intro H. unfold np_min2.
  destruct (np_min (concat m)) as [lo|e] eqn:Em.
  - apply minimum_of_np_min, (masked_minimum m cur lo H), np_min_minimum, Em.
  - destruct (np_min (concat cur)) as [lo|e'] eqn:Ec.
    + apply np_min_minimum, (masked_minimum_back m cur lo H), minimum_of_np_min in Ec.
      congruence.
    + destruct (concat m); [|discriminate]. destruct (concat cur); [|discriminate].
      congruence.
Qed.

Lemma Forall2_mapi_from {A B C : Type} (P : A -> B -> Prop) (Q : A -> C -> Prop)
    (f : nat -> B -> C) (k : nat) (l : list A) (l' : list B) :
  (forall i x y, P x y -> Q x (f i y)) ->
  Forall2 P l l' -> Forall2 Q l (mapi_from k f l').
Proof.
  intros Hf H. revert k. induction H as [|x y l l' Hxy _ IH]; intro k; cbn.
  - constructor.
  - constructor; [now apply Hf|apply IH].
Qed.

Lemma Forall2_map_r {A B C : Type} (P : A -> B -> Prop) (Q : A -> C -> Prop)
    (f : B -> C) (l : list A) (l' : list B) :
  (forall x y, P x y -> Q x (f y)) -> Forall2 P l l' -> Forall2 Q l (map f l').
Proof.
  intros Hf H. induction H; cbn; constructor; auto.
Qed.

Lemma set_rows_masked (m cur : Matrix R) (a b : Z) (lo : R) :
  masked m cur -> minimum_of (concat m) lo -> masked m (set_rows a b lo cur).
Proof.
  intros H Hlo. unfold masked, set_rows, mapi.
  apply (Forall2_mapi_from (Forall2 (kept_or_min m))); [|exact H].
  intros i r r' Hr. destruct (in_slice _ _ _ _); [|exact Hr].
  apply (Forall2_map_r (kept_or_min m)); [|exact Hr].
  intros x y _. now right.
Qed.

Lemma set_cols_masked (m cur : Matrix R) (a b : Z) (lo : R) :
  masked m cur -> minimum_of (concat m) lo -> masked m (set_cols a b lo cur).
Proof.
  intros H Hlo. unfold masked, set_cols.
  apply (Forall2_map_r (Forall2 (kept_or_min m))); [|exact H].
  intros r r' Hr. unfold mapi.
  apply (Forall2_mapi_from (kept_or_min m)); [|exact Hr].
  intros j x y Hxy. destruct (in_slice _ _ _ _); [now right|exact Hxy].
Qed.

Lemma freq_mask_augmenting (h : list (Matrix R)) (s : list string) (m : Matrix R)
    (fp : Z) (w : world) :
  augmenting h s m w -> augmenting h s m (after (freq_mask (length h) fp w)).
Proof.
  intros [cur [g [-> Hm]]]. rewrite freq_mask_run.
  destruct (0 <? fp)%Z; [|now exists cur, g].
  cbv zeta. destruct (0 <? _)%Z; [|now exists cur, (drawn 1 g)].
  destruct (np_min2 cur) as [lo|e] eqn:E; [|now exists cur, (drawn 2 g)].
  eexists _, (drawn 2 g). split; [reflexivity|].
  apply set_rows_masked; [exact Hm|].
  apply (masked_minimum_back m cur lo Hm), np_min_minimum, E.
Qed.

Lemma time_mask_augmenting (h : list (Matrix R)) (s : list string) (m : Matrix R)
    (tp : Z) (w : world) :
  augmenting h s m w -> augmenting h s m (after (time_mask (length h) tp w)).
Proof.
  intros [cur [g [-> Hm]]]. rewrite time_mask_run.
  destruct (0 <? tp)%Z; [|now exists cur, g].
  cbv zeta. destruct (0 <? _)%Z; [|now exists cur, (drawn 1 g)].
  destruct (np_min2 cur) as [lo|e] eqn:E; [|now exists cur, (drawn 2 g)].
  eexists _, (drawn 2 g). split; [reflexivity|].
  apply set_cols_masked; [exact Hm|].
  apply (masked_minimum_back m cur lo Hm), np_min_minimum, E.
Qed.

Lemma for_range_invariant (I : world -> Prop) (body : M unit) (n : nat) (w : world) :
  (forall w0, I w0 -> I (after (body w0))) -> I w -> I (after (for_range n body w)).
Proof.
  intro Hbody. revert w. induction n as [|n IH]; intros w Hw; [exact Hw|].
  cbn [for_range]. unfold bind. specialize (Hbody w Hw).
  destruct (body w) as [[[]|e] w1]; cbn in Hbody; [now apply IH|exact Hbody].
Qed.

Lemma np_copy_run (w : world) (spec : ref) (m : Matrix R) :
  nth_error (heap w) spec = Some m ->
  np_copy spec w = (Returned (length (heap w)), working (heap w) m (rng w) (stdout w)).
Proof. intro Hm. unfold np_copy, bind, read. now rewrite Hm. Qed.

(** every run of [spec_augment] ends with the caller's heap untouched and
    one new array, masked from the input; when it returns, it returns the
    reference of that array *)
Lemma spec_augment_runs (w : world) (spec : ref) (m : Matrix R) (fp tp n : Z) :
  nth_error (heap w) spec = Some m ->
  augmenting (heap w) (stdout w) m (after (spec_augment spec fp tp n w)) /\
  forall r, value (spec_augment spec fp tp n w) = Returned r -> r = length (heap w).
Proof.
  intro Hm.
  assert (H : forall o w', spec_augment spec fp tp n w = (o, w') ->
                augmenting (heap w) (stdout w) m w' /\
                forall r, o = Returned r -> r = length (heap w)).
  { intros o w'. unfold spec_augment. unfold bind at 1.
    rewrite (np_copy_run w spec m Hm).
    assert (H0 : augmenting (heap w) (stdout w) m
                   (working (heap w) m (rng w) (stdout w))).
    { exists m, (rng w). split; [reflexivity|apply masked_refl]. }
    pose proof (for_range_invariant _ (freq_mask (length (heap w)) fp) (Z.to_nat n) _
                  (freq_mask_augmenting (heap w) (stdout w) m fp) H0) as H1.
    unfold bind at 1.
    destruct (for_range (Z.to_nat n) (freq_mask (length (heap w)) fp) _) as [[[]|e] w1];
      cbn [after snd] in H1.
    2:{ intro E. injection E as <- <-. split; [exact H1|discriminate]. }
    pose proof (for_range_invariant _ (time_mask (length (heap w)) tp) (Z.to_nat n) _
                  (time_mask_augmenting (heap w) (stdout w) m tp) H1) as H2.
    unfold bind.
    destruct (for_range (Z.to_nat n) (time_mask (length (heap w)) tp) w1) as [[[]|e] w2];
      cbn [after snd] in H2.
    2:{ intro E. injection E as <- <-. split; [exact H2|discriminate]. }
    unfold ret. intro E. injection E as <- <-. split; [exact H2|].
    intros r Hr. now injection Hr. }
  destruct (spec_augment spec fp tp n w) as [o w'] eqn:E.
  exact (H o w' eq_refl).
Qed.

(** ** SpecAugmenter: the masks of a run *)

Lemma length_mapi_from {A B : Type} (f : nat -> A -> B) (k : nat) (l : list A) :
  length (mapi_from k f l) = length l.
Proof. revert k. induction l; intro k; cbn; [|rewrite IHl]; reflexivity. Qed.

Lemma mapi_from_ext_in {A B : Type} (f g : nat -> A -> B) (k : nat) (l : list A) :
  (forall i x, In x l -> f i x = g i x) -> mapi_from k f l = mapi_from k g l.
Proof.
  revert k. induction l as [|a l IH]; intros k H; [reflexivity|].
  cbn. f_equal; [apply H; now left|]. apply IH. intros i x Hx. apply H. now right.
Qed.

Lemma mapi_from_mapi_from {A B C : Type} (f : nat -> A -> B) (g : nat -> B -> C)
    (k : nat) (l : list A) :
  mapi_from k g (mapi_from k f l) = mapi_from k (fun i x => g i (f i x)) l.
Proof. revert k. induction l; intro k; cbn; [|rewrite IHl]; reflexivity. Qed.

Lemma map_mapi_from {A B C : Type} (f : nat -> A -> B) (g : B -> C) (k : nat) (l : list A) :
  map g (mapi_from k f l) = mapi_from k (fun i x => g (f i x)) l.
Proof. revert k. induction l; intro k; cbn; [|rewrite IHl]; reflexivity. Qed.

Lemma mapi_from_id {A : Type} (k : nat) (l : list A) : mapi_from k (fun _ x => x) l = l.
Proof. revert k. induction l; intro k; cbn; [|rewrite IHl]; reflexivity. Qed.

Lemma slice_index_nat (len k : nat) : (k <= len)%nat -> slice_index len (Z.of_nat k) = k.
Proof.
  intro H. unfold slice_index. destruct (Z.ltb_spec (Z.of_nat k) 0); lia.
Qed.

Lemma in_slice_band (len start width i : nat) :
  (start + width <= len)%nat ->
  in_slice len (Z.of_nat start) (Z.of_nat start + Z.of_nat width) i =
  in_band (start, width) i.
Proof.
  intro H. unfold in_slice, in_band. cbn [fst snd].
  rewrite <- Nat2Z.inj_add, !slice_index_nat by lia. reflexivity.
Qed.

Lemma with_masks_none (lo : R) (m : Matrix R) : with_masks lo [] [] m = m.
Proof.
  unfold with_masks, mapi. cbn [existsb orb].
  rewrite (mapi_from_ext_in _ (fun _ row => row)); [apply mapi_from_id|].
  intros i row _. apply mapi_from_id.
Qed.

Lemma shape0_with_masks (lo : R) (fm tm : list (nat * nat)) (m : Matrix R) :
  shape0 (with_masks lo fm tm m) = shape0 m.
Proof. apply length_mapi_from. Qed.

Lemma set_rows_with_masks (lo : R) (fm tm : list (nat * nat)) (m : Matrix R)
    (start width : nat) :
  (start + width <= shape0 m)%nat ->
  set_rows (Z.of_nat start) (Z.of_nat start + Z.of_nat width) lo (with_masks lo fm tm m) =
  with_masks lo (fm ++ [(start, width)]) tm m.
Proof.
  intro H. unfold set_rows. rewrite shape0_with_masks.
  unfold with_masks, mapi. rewrite mapi_from_mapi_from.
  apply mapi_from_ext_in. intros i row _.
  rewrite (in_slice_band _ _ _ _ H), existsb_app. cbn [existsb].
  rewrite orb_false_r.
  destruct (in_band (start, width) i).
  - rewrite map_mapi_from. apply mapi_from_ext_in. intros j x _.
    now rewrite orb_true_r.
  - now rewrite orb_false_r.
Qed.

Lemma set_cols_with_masks (lo : R) (fm tm : list (nat * nat)) (m : Matrix R)
    (w start width : nat) :
  rect w m -> (start + width <= w)%nat ->
  set_cols (Z.of_nat start) (Z.of_nat start + Z.of_nat width) lo (with_masks lo fm tm m) =
  with_masks lo fm (tm ++ [(start, width)]) m.
Proof.
  intros Hrect H. unfold set_cols, with_masks, mapi. rewrite map_mapi_from.
  apply mapi_from_ext_in. intros i row Hrow.
  unfold rect in Hrect. rewrite Forall_forall in Hrect. specialize (Hrect row Hrow).
  rewrite mapi_from_mapi_from, length_mapi_from, Hrect.
  apply mapi_from_ext_in. intros j x _.
  rewrite (in_slice_band _ _ _ _ H), existsb_app. cbn [existsb].
  rewrite orb_false_r.
  destruct (in_band (start, width) j).
  - now rewrite !orb_true_r.
  - now rewrite orb_false_r.
Qed.

Lemma Forall2_mapi_from_same {A B : Type} (P : A -> B -> Prop) (f : nat -> A -> B)
    (k : nat) (l : list A) :
  (forall i x, P x (f i x)) -> Forall2 P l (mapi_from k f l).
Proof.
  intro H. revert k. induction l; intro k; cbn; constructor; auto.
Qed.

Lemma with_masks_masked (lo : R) (fm tm : list (nat * nat)) (m : Matrix R) :
  minimum_of (concat m) lo -> masked m (with_masks lo fm tm m).
Proof.
  intro Hlo. unfold masked, with_masks, mapi.
  apply Forall2_mapi_from_same. intros i row.
  apply Forall2_mapi_from_same. intros j x.
  destruct (_ || _); [now right|now left].
Qed.

Lemma shape1_with_masks (lo : R) (fm tm : list (nat * nat)) (m : Matrix R) :
  shape1 (with_masks lo fm tm m) = shape1 m.
Proof. destruct m as [|r t]; [reflexivity|]. cbn. apply length_mapi_from. Qed.

(** a matrix with a row and a column has a minimum *)
Lemma minimum_exists (m : Matrix R) :
  (0 < shape0 m)%nat -> (0 < shape1 m)%nat -> exists lo, minimum_of (concat m) lo.
Proof.
  intros H0 H1. destruct m as [|[|x r] t]; cbn in H0, H1; try lia.
  destruct (np_min2_returns x r t) as [lo Hlo]. exists lo.
  apply np_min_minimum, Hlo.
Qed.

Lemma freq_mask_default (h : list (Matrix R)) (lo : R) (fm tm : list (nat * nat))
    (m : Matrix R) (g : nat -> nat) (s : list string) :
  minimum_of (concat m) lo ->
  let f := (g 0 mod 10)%nat in
  let f0 := (g 1 mod (shape0 m - f))%nat in
  (f < shape0 m)%nat ->
  freq_mask (length h) 10 (working h (with_masks lo fm tm m) g s) =
  (Returned tt, working h (with_masks lo (fm ++ [(f0, f)]) tm m) (drawn 2 g) s) /\
  (f < 10)%nat /\ (f0 + f <= shape0 m)%nat.
Proof.
  intros Hlo f f0 Hrows.
  assert (Hf : (f < 10)%nat) by (apply Nat.mod_upper_bound; lia).
  assert (Hf0 : (f0 < shape0 m - f)%nat) by (apply Nat.mod_upper_bound; lia).
  split; [|split; [exact Hf|lia]].
  rewrite freq_mask_run. change (0 <? 10)%Z with true. cbv zeta.
  rewrite shape0_with_masks.
  change 10%Z with (Z.of_nat 10). rewrite <- Nat2Z.inj_mod. fold f.
  rewrite <- Nat2Z.inj_sub by lia.
  replace (0 <? Z.of_nat (shape0 m - f))%Z with true
    by (symmetry; apply Z.ltb_lt; lia).
  rewrite <- Nat2Z.inj_mod. fold f0.
  rewrite (masked_np_min2 m _ (with_masks_masked lo fm tm m Hlo)).
  unfold np_min2. rewrite (minimum_of_np_min _ _ Hlo).
  rewrite set_rows_with_masks by lia. reflexivity.
Qed.

Lemma time_mask_default (h : list (Matrix R)) (lo : R) (fm tm : list (nat * nat))
    (m : Matrix R) (cols : nat) (g : nat -> nat) (s : list string) :
  minimum_of (concat m) lo -> rect cols m -> m <> [] ->
  let t := (g 0 mod 20)%nat in
  let t0 := (g 1 mod (cols - t))%nat in
  (t < cols)%nat ->
  time_mask (length h) 20 (working h (with_masks lo fm tm m) g s) =
  (Returned tt, working h (with_masks lo fm (tm ++ [(t0, t)]) m) (drawn 2 g) s) /\
  (t < 20)%nat /\ (t0 + t <= cols)%nat.
Proof.
  intros Hlo Hrect Hne t t0 Hcols.
  assert (Ht : (t < 20)%nat) by (apply Nat.mod_upper_bound; lia).
  assert (Ht0 : (t0 < cols - t)%nat) by (apply Nat.mod_upper_bound; lia).
  split; [|split; [exact Ht|lia]].
  rewrite time_mask_run. change (0 <? 20)%Z with true. cbv zeta.
  rewrite shape1_with_masks, (rect_shape1 cols m Hrect Hne).
  change 20%Z with (Z.of_nat 20). rewrite <- Nat2Z.inj_mod. fold t.
  rewrite <- Nat2Z.inj_sub by lia.
  replace (0 <? Z.of_nat (cols - t))%Z with true
    by (symmetry; apply Z.ltb_lt; lia).
  rewrite <- Nat2Z.inj_mod. fold t0.
  rewrite (masked_np_min2 m _ (with_masks_masked lo fm tm m Hlo)).
  unfold np_min2. rewrite (minimum_of_np_min _ _ Hlo).
  rewrite (set_cols_with_masks lo fm tm m cols) by (assumption || lia). reflexivity.
Qed.

Lemma bind_returned {A B : Type} (c : M A) (k : A -> M B) (w w' : world) (a : A)
    (r : outcome B * world) :
  c w = (Returned a, w') -> k a w' = r -> bind c k w = r.
Proof. intros Hc Hk. unfold bind. now rewrite Hc. Qed.

Lemma bind_raised {A B : Type} (c : M A) (k : A -> M B) (w w' : world) (e : exn) :
  c w = (Raised e, w') -> bind c k w = (Raised e, w').
Proof. intro Hc. unfold bind. now rewrite Hc. Qed.

Lemma for_range_2 (body : M unit) (w w1 w2 : world) :
  body w = (Returned tt, w1) -> body w1 = (Returned tt, w2) ->
  for_range 2 body w = (Returned tt, w2).
Proof.
  intros H1 H2. cbn [for_range].
  apply (bind_returned _ _ _ _ _ _ H1), (bind_returned _ _ _ _ _ _ H2). reflexivity.
Qed.

(** the run of [spec_augment] with its default parameters, draw by draw,
    when each width drawn is below the number of rows or columns *)
Lemma spec_augment_default_run (w : world) (spec : ref) (m : Matrix R) (cols : nat) (lo : R) :
  nth_error (heap w) spec = Some m -> rect cols m ->
  minimum_of (concat m) lo ->
  let g := rng w in
  let f1 := (g 0 mod 10)%nat in let p1 := (g 1 mod (shape0 m - f1))%nat in
  let f2 := (g 2 mod 10)%nat in let p2 := (g 3 mod (shape0 m - f2))%nat in
  let t1 := (g 4 mod 20)%nat in let q1 := (g 5 mod (cols - t1))%nat in
  let t2 := (g 6 mod 20)%nat in let q2 := (g 7 mod (cols - t2))%nat in
  (f1 < shape0 m)%nat -> (f2 < shape0 m)%nat -> (t1 < cols)%nat -> (t2 < cols)%nat ->
  spec_augment_default spec w =
  (Returned (length (heap w)),
   working (heap w) (with_masks lo [(p1, f1); (p2, f2)] [(q1, t1); (q2, t2)] m)
     (drawn 8 g) (stdout w)) /\
  ((f1 < 10)%nat /\ (p1 + f1 <= shape0 m)%nat) /\
  ((f2 < 10)%nat /\ (p2 + f2 <= shape0 m)%nat) /\
  ((t1 < 20)%nat /\ (q1 + t1 <= cols)%nat) /\
  ((t2 < 20)%nat /\ (q2 + t2 <= cols)%nat).
Proof.
  intros Hm Hrect Hlo g f1 p1 f2 p2 t1 q1 t2 q2 Hf1 Hf2 Ht1 Ht2.
  assert (Hne : m <> []) by (intro E; rewrite E in Hf1; cbn in Hf1; lia).
  set (h := heap w). set (s := stdout w).
  destruct (freq_mask_default h lo [] [] m g s Hlo Hf1) as [E1 B1].
  rewrite with_masks_none in E1.
  destruct (freq_mask_default h lo [(p1, f1)] [] m (drawn 2 g) s Hlo Hf2) as [E2 B2].
  destruct (time_mask_default h lo [(p1, f1); (p2, f2)] [] m cols (drawn 4 g) s
              Hlo Hrect Hne Ht1) as [E3 B3].
  destruct (time_mask_default h lo [(p1, f1); (p2, f2)] [(q1, t1)] m cols (drawn 6 g) s
              Hlo Hrect Hne Ht2) as [E4 B4].
  split; [|split; [exact B1|split; [exact B2|split; [exact B3|exact B4]]]].
  unfold spec_augment_default, spec_augment.
  apply (bind_returned _ _ _ _ _ _ (np_copy_run w spec m Hm)).
  eapply bind_returned;
    [change (Z.to_nat 2) with 2%nat; eapply for_range_2; [exact E1|exact E2]|].
  eapply bind_returned;
    [change (Z.to_nat 2) with 2%nat; eapply for_range_2; [exact E3|exact E4]|].
  reflexivity.
Qed.

(** on a matrix of at least 10 rows and 20 columns every width fits *)
Lemma spec_augment_default_returns (w : world) (spec : ref) (m : Matrix R) (cols : nat) :
  nth_error (heap w) spec = Some m -> rect cols m ->
  (10 <= shape0 m)%nat -> (20 <= cols)%nat ->
  value (spec_augment_default spec w) = Returned (length (heap w)).
Proof.
  intros Hm Hrect Hrows Hcols.
  destruct (minimum_exists m) as [lo Hlo]; [lia| |].
  { destruct m as [|r t]; [cbn in Hrows; lia|]. inversion Hrect; subst. cbn. lia. }
  pose proof (Nat.mod_upper_bound (rng w 0) 10).
  pose proof (Nat.mod_upper_bound (rng w 2) 10).
  pose proof (Nat.mod_upper_bound (rng w 4) 20).
  pose proof (Nat.mod_upper_bound (rng w 6) 20).
  destruct (spec_augment_default_run w spec m cols lo Hm Hrect Hlo) as [E _]; try lia.
  now rewrite E.
Qed.

(** ** SpecAugmenter: runs that raise *)

Lemma value_bind_raised {A B : Type} (c : M A) (k : A -> M B) (w : world) (e : exn) :
  value (c w) = Raised e -> value (bind c k w) = Raised e.
Proof.
  unfold value, bind. destruct (c w) as [[a|e'] w']; cbn; intro H; [discriminate H|now injection H as ->].
Qed.

Lemma value_bind_returned {A B : Type} (c : M A) (k : A -> M B) (w w' : world) (a : A)
    (o : outcome B) :
  c w = (Returned a, w') -> value (k a w') = o -> value (bind c k w) = o.
Proof. intros Hc Hk. unfold bind. now rewrite Hc. Qed.

(** too few rows: a first frequency mask of width 9 leaves no position *)
Lemma spec_augment_default_raises_rows (w : world) (spec : ref) (m : Matrix R) :
  nth_error (heap w) spec = Some m -> (shape0 m < 10)%nat -> rng w 0%nat = 9%nat ->
  value (spec_augment_default spec w) = Raised empty_range.
Proof.
  intros Hm Hrows Hg. unfold spec_augment_default, spec_augment.
  eapply value_bind_returned; [exact (np_copy_run w spec m Hm)|].
  apply value_bind_raised. change (Z.to_nat 2) with 2%nat. cbn [for_range].
  apply value_bind_raised. rewrite freq_mask_run. change (0 <? 10)%Z with true.
  cbv zeta. rewrite Hg. change (Z.of_nat 9 mod 10)%Z with 9%Z.
  replace (0 <? Z.of_nat (shape0 m) - 9)%Z with false; [reflexivity|].
  symmetry. apply Z.ltb_ge. lia.
Qed.

(** too few columns: a first time mask of width 19 leaves no position *)
Lemma spec_augment_default_raises_cols (w : world) (spec : ref) (m : Matrix R) (lo : R) :
  nth_error (heap w) spec = Some m -> (10 <= shape0 m)%nat -> (shape1 m < 20)%nat ->
  minimum_of (concat m) lo -> rng w 4%nat = 19%nat ->
  value (spec_augment_default spec w) = Raised empty_range.
Proof.
  intros Hm Hrows Hcols Hlo Hg. unfold spec_augment_default, spec_augment.
  eapply value_bind_returned; [exact (np_copy_run w spec m Hm)|].
  pose proof (Nat.mod_upper_bound (rng w 0) 10) as U1.
  pose proof (Nat.mod_upper_bound (rng w 2) 10) as U2.
  destruct (freq_mask_default (heap w) lo [] [] m (rng w) (stdout w) Hlo) as [E1 _];
    [lia|].
  rewrite with_masks_none in E1.
  destruct (freq_mask_default (heap w) lo
              [((rng w 1 mod (shape0 m - rng w 0 mod 10))%nat, (rng w 0 mod 10)%nat)] []
              m (drawn 2 (rng w)) (stdout w) Hlo) as [E2 _];
    [change (drawn 2 (rng w) 0%nat) with (rng w 2%nat); lia|].
  eapply value_bind_returned;
    [change (Z.to_nat 2) with 2%nat; eapply for_range_2; [exact E1|exact E2]|].
  apply value_bind_raised. change (Z.to_nat 2) with 2%nat. cbn [for_range].
  apply value_bind_raised. rewrite time_mask_run. change (0 <? 20)%Z with true.
  cbv zeta. rewrite shape1_with_masks.
  change (drawn 2 (drawn 2 (rng w)) 0%nat) with (rng w 4%nat). rewrite Hg.
  change (Z.of_nat 19 mod 20)%Z with 19%Z.
  replace (0 <? Z.of_nat (shape1 m) - 19)%Z with false; [reflexivity|].
  symmetry. apply Z.ltb_ge. lia.
Qed.

(** no entry at all: [np.min] raises in the first frequency mask *)
Lemma spec_augment_default_raises_empty (w : world) (spec : ref) (m : Matrix R) :
  nth_error (heap w) spec = Some m -> (10 <= shape0 m)%nat -> concat m = [] ->
  value (spec_augment_default spec w) = Raised (zero_size "minimum").
Proof.
  intros Hm Hrows Hempty. unfold spec_augment_default, spec_augment.
  eapply value_bind_returned; [exact (np_copy_run w spec m Hm)|].
  apply value_bind_raised. change (Z.to_nat 2) with 2%nat. cbn [for_range].
  apply value_bind_raised. rewrite freq_mask_run. change (0 <? 10)%Z with true.
  cbv zeta.
  assert (Hf : (rng w 0 mod 10 < 10)%nat) by (apply Nat.mod_upper_bound; lia).
  change 10%Z with (Z.of_nat 10). rewrite <- Nat2Z.inj_mod.
  replace (0 <? Z.of_nat (shape0 m) - Z.of_nat (rng w 0 mod 10))%Z with true
    by (symmetry; apply Z.ltb_lt; lia).
  unfold np_min2. rewrite Hempty. reflexivity.
Qed.

(** ** SpecAugmenter: the statements *)

Lemma nth_error_working_old (h : list (Matrix R)) (cur : Matrix R) (q : nat) :
  (q < length h)%nat -> nth_error (h ++ [cur]) q = nth_error h q.
Proof. intro H. now apply nth_error_app1. Qed.

(** C5, as the code has it: the arrays of the caller, the input among them,
    are as before whatever the outcome; when [spec_augment] returns, it
    returns a new array of the shape of the input (row by row) and with the
    minimum of the input; with the default parameters it returns on every
    matrix of at least 10 rows and 20 columns. *)
Theorem spec_augment_keeps_shape_and_minimum (w : world) (spec : ref) (m : Matrix R)
    (fp tp n : Z) :
  nth_error (heap w) spec = Some m ->
  (forall q, (q < length (heap w))%nat ->
     nth_error (heap (after (spec_augment spec fp tp n w))) q = nth_error (heap w) q) /\
  (forall r, value (spec_augment spec fp tp n w) = Returned r ->
     r <> spec /\ r = length (heap w) /\
     exists out,
       nth_error (heap (after (spec_augment spec fp tp n w))) r = Some out /\
       shape0 out = shape0 m /\ shape1 out = shape1 m /\
       map (@length R) out = map (@length R) m /\
       np_min2 out = np_min2 m /\
       (forall lo, minimum_of (concat m) lo -> minimum_of (concat out) lo)) /\
  (forall cols, rect cols m -> (10 <= shape0 m)%nat -> (20 <= cols)%nat ->
     exists r, value (spec_augment_default spec w) = Returned r).
Proof.
  intro Hm. destruct (spec_augment_runs w spec m fp tp n Hm) as [[cur [g [Hw Hmask]]] Hr].
  split; [|split].
  - intros q Hq. rewrite Hw. cbn [working heap]. now apply nth_error_working_old.
  - intros r Hret. specialize (Hr r Hret). subst r.
    split; [|split; [reflexivity|]].
    + assert (spec < length (heap w))%nat by (apply nth_error_Some; congruence). lia.
    + exists cur. rewrite Hw. cbn [working heap].
      split; [apply nth_error_working|].
      split; [now apply masked_shape0|]. split; [now apply masked_shape1|].
      split; [now apply masked_row_lengths|]. split; [now apply masked_np_min2|].
      intros lo. now apply masked_minimum.
  - intros cols Hrect Hrows Hcols. exists (length (heap w)).
    now apply (spec_augment_default_returns w spec m cols).
Qed.

Lemma spec_augment_keeps_shape_and_minimum_witness :
  exists r, value (spec_augment_default 0%nat (world_of long_spec wide_time_mask))
            = Returned r.
Proof.
  destruct (spec_augment_keeps_shape_and_minimum (world_of long_spec wide_time_mask)
              0%nat long_spec 10 20 2 eq_refl) as [_ [_ H]].
  apply (H 300%nat).
  - apply Forall_forall. intros r Hr. apply repeat_spec in Hr. subst r.
    apply repeat_length.
  - unfold long_spec, shape0. rewrite repeat_length. lia.
  - lia.
Defined.

(** C5, counterexample: on a spectrogram cropped to 6 frames, a first time
    mask of width 19 leaves [randint] an empty range, and [spec_augment]
    raises instead of returning a matrix. *)
Lemma spec_augment_raises_on_cropped :
  value (spec_augment_default 0%nat (world_of cropped_spec wide_time_mask))
  = Raised (ValueError "high <= 0").
Proof.
  apply (spec_augment_default_raises_cols _ _ cropped_spec (-80)).
  - reflexivity.
  - unfold cropped_spec, shape0. rewrite repeat_length. lia.
  - cbn. lia.
  - split.
    + apply in_concat. exists (repeat (-80) 6). split; [now left|now left].
    + apply Forall_forall. intros x Hx. apply in_concat in Hx as [r [Hr Hx]].
      apply repeat_spec in Hr. subst r. apply repeat_spec in Hx. subst x. lra.
  - reflexivity.
Qed.

(** C6: with the default parameters [spec_augment] draws, in this order, the
    width and the start of two bands of rows and of two bands of columns: a
    width below 10 (rows) or below 20 (columns), then a start that keeps the
    band inside the matrix.  When each width drawn is below the number of
    rows or columns, it returns the input with the minimum of the input
    written into exactly these four bands; and any four bands within the
    bounds are the outcome of some stream. *)
Theorem spec_augment_default_masks (w : world) (spec : ref) (m : Matrix R) (cols : nat) :
  nth_error (heap w) spec = Some m -> rect cols m ->
  (0 < shape0 m)%nat -> (0 < cols)%nat ->
  exists lo,
    minimum_of (concat m) lo /\
    (let g := rng w in
     let f1 := (g 0 mod 10)%nat in let p1 := (g 1 mod (shape0 m - f1))%nat in
     let f2 := (g 2 mod 10)%nat in let p2 := (g 3 mod (shape0 m - f2))%nat in
     let t1 := (g 4 mod 20)%nat in let q1 := (g 5 mod (cols - t1))%nat in
     let t2 := (g 6 mod 20)%nat in let q2 := (g 7 mod (cols - t2))%nat in
     (f1 < shape0 m)%nat -> (f2 < shape0 m)%nat -> (t1 < cols)%nat -> (t2 < cols)%nat ->
     spec_augment_default spec w =
     (Returned (length (heap w)),
      working (heap w) (with_masks lo [(p1, f1); (p2, f2)] [(q1, t1); (q2, t2)] m)
        (drawn 8 g) (stdout w)) /\
     ((f1 < 10)%nat /\ (p1 + f1 <= shape0 m)%nat) /\
     ((f2 < 10)%nat /\ (p2 + f2 <= shape0 m)%nat) /\
     ((t1 < 20)%nat /\ (q1 + t1 <= cols)%nat) /\
     ((t2 < 20)%nat /\ (q2 + t2 <= cols)%nat)) /\
    (forall f1 p1 f2 p2 t1 q1 t2 q2 : nat,
       (f1 < 10)%nat -> (p1 < shape0 m - f1)%nat ->
       (f2 < 10)%nat -> (p2 < shape0 m - f2)%nat ->
       (t1 < 20)%nat -> (q1 < cols - t1)%nat ->
       (t2 < 20)%nat -> (q2 < cols - t2)%nat ->
       exists g,
         spec_augment_default spec {| heap := heap w; rng := g; stdout := stdout w |} =
         (Returned (length (heap w)),
          working (heap w) (with_masks lo [(p1, f1); (p2, f2)] [(q1, t1); (q2, t2)] m)
            (drawn 8 g) (stdout w))).
Proof.
  intros Hm Hrect Hrows Hcols.
  destruct (minimum_exists m) as [lo Hlo]; [lia| |].
  { destruct m as [|r t]; [cbn in Hrows; lia|]. inversion Hrect; subst. cbn. lia. }
  exists lo. split; [exact Hlo|]. split.
  - cbv zeta. intros Hf1 Hf2 Ht1 Ht2.
    exact (spec_augment_default_run w spec m cols lo Hm Hrect Hlo Hf1 Hf2 Ht1 Ht2).
  - intros f1 p1 f2 p2 t1 q1 t2 q2 Hf1 Hp1 Hf2 Hp2 Ht1 Hq1 Ht2 Hq2.
    exists (stream_of [f1; p1; f2; p2; t1; q1; t2; q2]).
    pose proof (spec_augment_default_run
                  {| heap := heap w; rng := stream_of [f1; p1; f2; p2; t1; q1; t2; q2];
                     stdout := stdout w |} spec m cols lo Hm Hrect Hlo) as E.
    cbv zeta in E. cbn [heap rng stdout stream_of nth] in E.
    rewrite (Nat.mod_small f1), (Nat.mod_small f2), (Nat.mod_small t1), (Nat.mod_small t2)
      in E by assumption.
    rewrite (Nat.mod_small p1), (Nat.mod_small p2), (Nat.mod_small q1), (Nat.mod_small q2)
      in E by assumption.
    apply E; lia.
Qed.

Lemma spec_augment_default_masks_witness :
  exists lo,
    minimum_of (concat long_spec) lo /\
    spec_augment_default 0%nat (world_of long_spec wide_time_mask) =
    (Returned 1%nat,
     working [long_spec]
       (with_masks lo [(0, 0); (0, 0)]%nat [(0, 19); (0, 0)]%nat long_spec)
       (drawn 8 wide_time_mask) []).
Proof.
  destruct (spec_augment_default_masks (world_of long_spec wide_time_mask) 0%nat
              long_spec 300) as [lo [Hlo [H _]]].
  - reflexivity.
  - apply Forall_forall. intros r Hr. apply repeat_spec in Hr. subst r.
    apply repeat_length.
  - unfold long_spec, shape0. rewrite repeat_length. lia.
  - lia.
  - exists lo. split; [exact Hlo|].
    assert (Hs : shape0 long_spec = 128%nat) by apply repeat_length.
    cbv zeta in H. rewrite Hs in H.
    apply H; cbn; lia.
Defined.

(** C7: with the default parameters, [spec_augment] returns for every
    random stream exactly when the matrix has at least 10 rows and at least
    20 columns.  On a matrix of fewer than 10 rows, and on one of at least
    10 rows and 1 to 19 columns, some stream makes [randint] raise on an empty
    range of positions. *)
Theorem spec_augment_default_returns_iff (h : list (Matrix R)) (s : list string)
    (spec : ref) (m : Matrix R) :
  nth_error h spec = Some m -> rect (shape1 m) m ->
  ((forall g, exists r,
      value (spec_augment_default spec {| heap := h; rng := g; stdout := s |})
      = Returned r) <->
   (10 <= shape0 m)%nat /\ (20 <= shape1 m)%nat) /\
  ((shape0 m < 10)%nat ->
   exists g, value (spec_augment_default spec {| heap := h; rng := g; stdout := s |})
             = Raised (ValueError "high <= 0")) /\
  ((10 <= shape0 m)%nat -> (0 < shape1 m < 20)%nat ->
   exists g, value (spec_augment_default spec {| heap := h; rng := g; stdout := s |})
             = Raised (ValueError "high <= 0")).
Proof.
  intros Hm Hrect.
  assert (Hrows : (shape0 m < 10)%nat ->
            value (spec_augment_default spec
                     {| heap := h; rng := fun _ => 9%nat; stdout := s |})
            = Raised empty_range).
  { intro H. now apply (spec_augment_default_raises_rows _ _ m). }
  assert (Hcols : (10 <= shape0 m)%nat -> (0 < shape1 m < 20)%nat ->
            value (spec_augment_default spec
                     {| heap := h; rng := wide_time_mask; stdout := s |})
            = Raised empty_range).
  { intros H10 H20. destruct (minimum_exists m) as [lo Hlo]; [lia|lia|].
    now apply (spec_augment_default_raises_cols _ _ m lo). }
  split; [split|split].
  - intro Hall.
    destruct (Nat.lt_ge_cases (shape0 m) 10) as [H10|H10].
    { destruct (Hall (fun _ => 9%nat)) as [r Hr]. rewrite (Hrows H10) in Hr.
      discriminate Hr. }
    split; [exact H10|].
    destruct (Nat.lt_ge_cases (shape1 m) 20) as [H20|H20]; [exfalso|exact H20].
    destruct (Nat.eq_dec (shape1 m) 0) as [H0|H0].
    + destruct (Hall (fun _ => 0%nat)) as [r Hr].
      rewrite (spec_augment_default_raises_empty
                 {| heap := h; rng := fun _ => 0%nat; stdout := s |} spec m Hm H10) in Hr;
        [discriminate Hr|].
      rewrite H0 in Hrect. clear -Hrect.
      induction Hrect as [|r t Hr _ IH]; [reflexivity|].
      cbn. apply length_zero_iff_nil in Hr. now rewrite Hr, IH.
    + destruct (Hall wide_time_mask) as [r Hr]. rewrite Hcols in Hr by lia.
      discriminate Hr.
  - intros [H10 H20] g. exists (length h).
    now apply (spec_augment_default_returns
                 {| heap := h; rng := g; stdout := s |} spec m (shape1 m)).
  - intro H10. exists (fun _ => 9%nat). now apply Hrows.
  - intros H10 H20. exists wide_time_mask. now apply Hcols.
Qed.

Lemma spec_augment_default_returns_iff_witness :
  exists g, value (spec_augment_default 0%nat
                     {| heap := [cropped_spec]; rng := g; stdout := [] |})
            = Raised (ValueError "high <= 0").
Proof.
  destruct (spec_augment_default_returns_iff [cropped_spec] [] 0%nat cropped_spec)
    as [_ [_ H]].
  - reflexivity.
  - apply Forall_forall. intros r Hr. apply repeat_spec in Hr. subst r.
    reflexivity.
  - apply H.
    + unfold cropped_spec, shape0. rewrite repeat_length. lia.
    + cbn. lia.
Defined.

(** * Further properties *)

(** ** SpectrogramExtractor: range, shape and the crop applied twice *)

Lemma db_of_ge (ref_value x : R) : -80 <= db_of ref_value x.
Proof.
  unfold db_of, top_db. eapply Rle_trans; [|apply Rmax_r]. lra.
Qed.

Lemma rect_map_firstn {A : Type} (k w : nat) (m : Matrix A) :
  rect w m -> rect (Nat.min k w) (map (firstn k) m).
Proof.
  unfold rect. rewrite !Forall_forall. intros H r Hr.
  apply in_map_iff in Hr as [r0 [<- Hr0]]. rewrite length_firstn, (H r0 Hr0).
  reflexivity.
Qed.

(** X1: when the mel power matrix has an entry, every value of the matrix
    returned lies between -80 dB and 0 dB: the dynamic range is cut at
    [top_db] below the peak of the clip. *)
Theorem create_mel_spectrogram_dynamic_range (L : Librosa) (audio : list R)
    (sr n_fft hop_length n_mels : Z) (w : nat) (ref_value : R) :
  let mel := librosa_feature_melspectrogram L audio sr n_fft hop_length n_mels in
  rect w mel -> maximum_of (concat mel) ref_value ->
  exists out,
    create_mel_spectrogram L audio sr n_fft hop_length n_mels = Returned out /\
    Forall (fun v => -80 <= v <= 0) (concat out).
Proof.
  intros mel Hrect Hmax.
  destruct (create_mel_spectrogram_returns L audio sr n_fft hop_length n_mels w ref_value
              Hrect Hmax) as [mx [jl [_ [_ Hout]]]].
  eexists. split; [exact Hout|]. fold mel.
  apply Forall_forall. intros v Hv. apply in_concat in Hv as [r [Hr Hv]].
  apply in_map_iff in Hr as [r0 [<- Hr0]]. apply In_firstn in Hv.
  apply in_map_iff in Hr0 as [r1 [<- Hr1]]. apply in_map_iff in Hv as [x [<- Hx]].
  split; [apply db_of_ge|]. apply db_of_le.
  destruct Hmax as [_ Hall]. rewrite Forall_forall in Hall.
  apply Hall, in_concat. now exists r1.
Qed.

Lemma create_mel_spectrogram_dynamic_range_witness :
  exists out,
    create_mel_spectrogram librosa_small [1; 0; -1] SAMPLE_RATE FFT_WINDOW HOP_LENGTH 2
    = Returned out /\
    Forall (fun v => -80 <= v <= 0) (concat out).
Proof.
  apply (create_mel_spectrogram_dynamic_range librosa_small [1; 0; -1]
           SAMPLE_RATE FFT_WINDOW HOP_LENGTH 2 3 4).
  - repeat constructor.
  - split; [cbn; tauto|]. cbn. repeat constructor; lra.
Defined.

(** X2: the matrix returned is the decibel matrix cut to its first [k]
    frames, all mel bands kept, where [k] is at least 6 (or the whole width
    of a narrower matrix) and at most the width; every frame whose energy
    is the largest is among the frames kept. *)
Theorem create_mel_spectrogram_keeps_a_prefix (L : Librosa) (audio : list R)
    (sr n_fft hop_length n_mels : Z) (w : nat) (ref_value : R) :
  let mel := librosa_feature_melspectrogram L audio sr n_fft hop_length n_mels in
  rect w mel -> maximum_of (concat mel) ref_value ->
  exists db k,
    power_to_db mel = Returned db /\
    create_mel_spectrogram L audio sr n_fft hop_length n_mels
    = Returned (map (firstn k) db) /\
    (Nat.min 6 w <= k <= w)%nat /\
    shape0 (map (firstn k) db) = shape0 mel /\
    rect k (map (firstn k) db) /\
    (forall j, (j < w)%nat -> maximum_of (column_energies db) (column_energy db j) ->
               (j < k)%nat).
Proof.
  intros mel Hrect Hmax.
  destruct (create_mel_spectrogram_returns L audio sr n_fft hop_length n_mels w ref_value
              Hrect Hmax) as [mx [jl [Hmx [Hjl Hout]]]].
  fold mel in Hmx, Hjl, Hout.
  set (db := map (map (db_of ref_value)) mel) in *.
  destruct (maximum_of_nonempty mel w ref_value Hrect Hmax) as [Hne Hw].
  assert (Hrdb : rect w db) by now apply rect_map_map.
  assert (Hnedb : db <> []) by (unfold db; destruct mel; [congruence|discriminate]).
  exists db, (Nat.min (jl + 6) w).
  split; [now apply power_to_db_returns|]. split; [exact Hout|].
  split; [lia|]. split; [unfold shape0, db; now rewrite !length_map|].
  split.
  - replace (Nat.min (jl + 6) w) with (Nat.min (Nat.min (jl + 6) w) w) at 1 by lia.
    now apply rect_map_firstn.
  - intros j Hj Hjmax.
    rewrite <- (maximum_of_unique _ _ _ Hjmax Hmx) in Hjl.
    assert (Hex : exceeds (column_energies db) (1 / 100 * column_energy db j) j).
    { exists (column_energy db j). split.
      - apply column_energies_nth. now rewrite (rect_shape1 w db Hrdb Hnedb).
      - pose proof (column_energy_pos db j). lra. }
    destruct Hjl as [_ Hlast].
    destruct (Nat.le_gt_cases j jl) as [H|H]; [lia|]. exfalso. exact (Hlast j H Hex).
Qed.

Lemma create_mel_spectrogram_keeps_a_prefix_witness :
  exists db k,
    power_to_db [[1; 4; 0]; [2; 1; 0]] = Returned db /\
    create_mel_spectrogram librosa_small [1; 0; -1] SAMPLE_RATE FFT_WINDOW HOP_LENGTH 2
    = Returned (map (firstn k) db) /\
    (3 <= k <= 3)%nat.
Proof.
  destruct (create_mel_spectrogram_keeps_a_prefix librosa_small [1; 0; -1]
              SAMPLE_RATE FFT_WINDOW HOP_LENGTH 2 3 4) as [db [k [Hdb [Hout [Hk _]]]]].
  - repeat constructor.
  - split; [cbn; tauto|]. cbn. repeat constructor; lra.
  - exists db, k. split; [exact Hdb|]. split; [exact Hout|]. cbn in Hk. exact Hk.
Defined.

Lemma nth_error_firstn_Some {A : Type} (k j : nat) (l : list A) (x : A) :
  nth_error (firstn k l) j = Some x -> (j < k)%nat /\ nth_error l j = Some x.
Proof.
  revert j l. induction k as [|k IH]; intros j l H.
  - destruct j; discriminate H.
  - destruct l as [|a l]; [destruct j; discriminate H|].
    destruct j as [|j]; [split; [lia|exact H]|].
    cbn in H. apply IH in H as [H1 H2]. split; [lia|exact H2].
Qed.

Lemma nth_firstn_lt {A : Type} (k j : nat) (l : list A) (d : A) :
  (j < k)%nat -> nth j (firstn k l) d = nth j l d.
Proof.
  revert j l. induction k as [|k IH]; intros j l H; [lia|].
  destruct l as [|a l]; [reflexivity|]. destruct j as [|j]; [reflexivity|].
  cbn. apply IH. lia.
Qed.

Lemma column_energy_firstn (db : Matrix R) (k j : nat) :
  (j < k)%nat -> column_energy (map (firstn k) db) j = column_energy db j.
Proof.
  intro H. unfold column_energy. f_equal.
  induction db as [|r t IH]; [reflexivity|].
  cbn [map column_sum fold_right]. fold (column_sum (map (map linear) (map (firstn k) t)) j).
  fold (column_sum (map (map linear) t) j). rewrite IH. f_equal.
  now rewrite <- firstn_map, nth_firstn_lt.
Qed.

Lemma firstn_seq_le (k n start : nat) :
  (k <= n)%nat -> firstn k (seq start n) = seq start k.
Proof.
  revert n start. induction k as [|k IH]; intros n start H; [reflexivity|].
  destruct n as [|n]; [lia|]. cbn. f_equal. apply IH. lia.
Qed.

(** the energies of the frames kept are the first energies *)
Lemma column_energies_firstn (db : Matrix R) (w k : nat) :
  rect w db -> db <> [] -> (k <= w)%nat ->
  column_energies (map (firstn k) db) = firstn k (column_energies db).
Proof.
  intros Hrect Hne Hk. unfold column_energies.
  rewrite (shape1_map_firstn k w db Hrect Hne), (rect_shape1 w db Hrect Hne).
  rewrite firstn_map, firstn_seq_le by exact Hk. replace (Nat.min k w) with k by lia.
  apply map_ext_in. intros j Hj. apply in_seq in Hj.
  apply column_energy_firstn. lia.
Qed.

(** X3: cropping is idempotent: the matrix the crop returns is returned
    unchanged when cropped again. *)
Theorem crop_trailing_idempotent (db : Matrix R) (w : nat) :
  rect w db -> db <> [] -> (0 < w)%nat ->
  exists out, crop_trailing db = Returned out /\ crop_trailing out = Returned out.
Proof.
  intros Hrect Hne Hw.
  destruct (column_energies_maximum db) as [mx [Hmx Hex]].
  { now rewrite (rect_shape1 w db Hrect Hne). }
  destruct (np_where_first_last _ _ Hex) as [_ [_ Hl]]. cbv zeta in Hl.
  set (jl := last (np_where (map (fun e => Rgtb e (1 / 100 * mx)) (column_energies db)))
               0%nat) in *.
  set (k := Nat.min (jl + 6) w).
  exists (map (firstn k) db).
  split; [now apply (crop_trailing_active db w mx)|].
  assert (Hk : (k <= w)%nat) by (unfold k; lia).
  assert (Hjl : (jl < k)%nat).
  { destruct Hl as [[e [He _]] _].
    assert (Hs : nth_error (column_energies db) jl <> None) by congruence.
    apply nth_error_Some in Hs. unfold column_energies in Hs.
    rewrite length_map, length_seq, (rect_shape1 w db Hrect Hne) in Hs. unfold k. lia. }
  assert (Hrk : rect k (map (firstn k) db)).
  { replace k with (Nat.min k w) at 1 by lia. now apply rect_map_firstn. }
  assert (Hnek : map (firstn k) db <> []) by (destruct db; [congruence|discriminate]).
  assert (HE : column_energies (map (firstn k) db) = firstn k (column_energies db))
    by now apply (column_energies_firstn db w).
  rewrite (crop_trailing_active (map (firstn k) db) k mx jl Hrk Hnek).
  - rewrite map_map. apply f_equal, map_ext. intro r.
    rewrite firstn_firstn. f_equal. unfold k. lia.
  - rewrite HE. destruct Hmx as [Hin Hall]. split.
    + destruct (column_energies_In _ _ Hin) as [jm [Hjm ->]].
      assert (Hexm : exceeds (column_energies db) (1 / 100 * column_energy db jm) jm).
      { exists (column_energy db jm). split; [now apply column_energies_nth|].
        pose proof (column_energy_pos db jm). lra. }
      destruct Hl as [_ Hlast].
      assert (jm <= jl)%nat.
      { destruct (Nat.le_gt_cases jm jl) as [H|H]; [exact H|]. exfalso.
        exact (Hlast jm H Hexm). }
      apply (nth_error_In _ jm). rewrite nth_error_firstn_lt by lia.
      now apply column_energies_nth.
    + rewrite Forall_forall in *. intros e He. apply Hall. eapply In_firstn, He.
  - rewrite HE. destruct Hl as [[e [He Hgt]] Hlast]. split.
    + exists e. split; [|exact Hgt]. now rewrite nth_error_firstn_lt.
    + intros j Hj [e' [He' Hgt']]. apply nth_error_firstn_Some in He' as [_ He'].
      apply (Hlast j Hj). now exists e'.
Qed.

Lemma crop_trailing_idempotent_witness :
  exists out,
    crop_trailing [[0; 0; -80]; [-10; -20; -80]] = Returned out /\
    crop_trailing out = Returned out.
Proof.
  apply (crop_trailing_idempotent [[0; 0; -80]; [-10; -20; -80]] 3).
  - repeat constructor.
  - discriminate.
  - lia.
Defined.

(** ** SpectrogramExtractor: silence and the empty matrix *)

Lemma db_of_below_floor (ref_value x : R) :
  x <= ref_value -> ref_value <= amin -> db_of ref_value x = 0.
Proof.
  intros Hx Href. unfold db_of, log_spec_of, top_db.
  rewrite (Rmax_left amin x) by lra. rewrite (Rmax_left amin ref_value) by lra.
  rewrite Rmax_left; lra.
Qed.

Lemma column_sum_constant (m : Matrix R) (j : nat) (c : R) :
  (forall r, In r m -> nth j r 0 = c) -> column_sum m j = INR (length m) * c.
Proof.
  induction m as [|r t IH]; intro H; [cbn; lra|].
  change (column_sum (r :: t) j) with (nth j r 0 + column_sum t j).
  change (length (r :: t)) with (S (length t)).
  rewrite S_INR, (H r) by now left. rewrite IH; [lra|].
  intros r0 Hr0. apply H. now right.
Qed.

(** in an all-0-dB matrix every frame has the energy of the number of bands *)
Lemma column_energy_zero_db (mel : Matrix R) (w j : nat) :
  rect w mel -> (j < w)%nat ->
  column_energy (map (map (fun _ => 0)) mel) j = INR (length mel) + / 10 ^ 10.
Proof.
  intros Hrect Hj. unfold column_energy. f_equal.
  rewrite (column_sum_constant _ j 1); [rewrite !length_map; lra|].
  intros r Hr. apply in_map_iff in Hr as [r0 [<- Hr0]].
  apply in_map_iff in Hr0 as [r1 [<- Hr1]].
  unfold rect in Hrect. rewrite Forall_forall in Hrect. specialize (Hrect r1 Hr1).
  rewrite map_map. rewrite (nth_indep _ 0 (linear 0)) by (rewrite length_map; lia).
  rewrite (map_nth (fun _ => linear 0) r1 0 j). apply linear_0.
Qed.

(** X4: a clip whose peak mel power is at most [amin = 1e-10] -- digital
    silence above all -- comes back as a matrix of 0 dB throughout, with all
    its frames: nothing is cropped. *)
Theorem create_mel_spectrogram_silence (L : Librosa) (audio : list R)
    (sr n_fft hop_length n_mels : Z) (w : nat) (ref_value : R) :
  let mel := librosa_feature_melspectrogram L audio sr n_fft hop_length n_mels in
  rect w mel -> maximum_of (concat mel) ref_value -> ref_value <= / 10 ^ 10 ->
  create_mel_spectrogram L audio sr n_fft hop_length n_mels =
  Returned (map (map (fun _ => 0)) mel).
Proof.
  intros mel Hrect Hmax Href.
  destruct (create_mel_spectrogram_returns L audio sr n_fft hop_length n_mels w ref_value
              Hrect Hmax) as [mx [jl [Hmx [Hjl Hout]]]].
  fold mel in Hmx, Hjl, Hout.
  destruct (maximum_of_nonempty mel w ref_value Hrect Hmax) as [Hne Hw].
  assert (Hdb : map (map (db_of ref_value)) mel = map (map (fun _ => 0)) mel).
  { apply map_ext_in. intros r Hr. apply map_ext_in. intros x Hx.
    apply db_of_below_floor; [|exact Href].
    destruct Hmax as [_ Hall]. rewrite Forall_forall in Hall.
    apply Hall, in_concat. now exists r. }
  rewrite Hdb in Hmx, Hjl, Hout. rewrite Hout.
  set (db := map (map (fun _ : R => 0)) mel) in *.
  assert (Hrdb : rect w db) by now apply rect_map_map.
  assert (Hnedb : db <> []) by (unfold db; destruct mel; [congruence|discriminate]).
  assert (Hlast : (w - 1 <= jl)%nat).
  { destruct (Nat.le_gt_cases (w - 1) jl) as [H|H]; [exact H|exfalso].
    destruct Hjl as [_ Hno]. apply (Hno (w - 1)%nat H).
    exists (column_energy db (w - 1)). split.
    - apply column_energies_nth. rewrite (rect_shape1 w db Hrdb Hnedb). lia.
    - destruct Hmx as [Hin _]. destruct (column_energies_In _ _ Hin) as [j' [Hj' ->]].
      rewrite (rect_shape1 w db Hrdb Hnedb) in Hj'. unfold db.
      rewrite (column_energy_zero_db mel w j' Hrect Hj').
      rewrite (column_energy_zero_db mel w (w - 1) Hrect) by lia.
      pose proof (pos_INR (length mel)).
      assert (0 < / 10 ^ 10) by (apply Rinv_0_lt_compat, pow_lt; lra). lra. }
  f_equal. rewrite <- (map_id db) at 2. apply map_ext_in. intros r Hr.
  unfold rect in Hrdb. rewrite Forall_forall in Hrdb. specialize (Hrdb r Hr).
  apply firstn_all2. lia.
Qed.

Lemma create_mel_spectrogram_silence_witness :
  create_mel_spectrogram (librosa_of (Returned []) [] [[0; 0; 0]; [0; 0; 0]])
    [0; 0; 0] SAMPLE_RATE FFT_WINDOW HOP_LENGTH 2
  = Returned [[0; 0; 0]; [0; 0; 0]].
Proof.
  apply (create_mel_spectrogram_silence (librosa_of (Returned []) [] [[0; 0; 0]; [0; 0; 0]])
           [0; 0; 0] SAMPLE_RATE FFT_WINDOW HOP_LENGTH 2 3 0).
  - repeat constructor.
  - split; [cbn; tauto|]. cbn. repeat constructor; lra.
  - lra.
Defined.

(** X6: on a rectangular mel power matrix [create_mel_spectrogram] returns
    exactly when the matrix has an entry; on a matrix without entries
    [np.max] has nothing to reduce and the call raises [ValueError]. *)
Theorem create_mel_spectrogram_returns_iff (L : Librosa) (audio : list R)
    (sr n_fft hop_length n_mels : Z) (w : nat) :
  let mel := librosa_feature_melspectrogram L audio sr n_fft hop_length n_mels in
  rect w mel ->
  ((exists out, create_mel_spectrogram L audio sr n_fft hop_length n_mels = Returned out)
   <-> concat mel <> []) /\
  (concat mel = [] ->
   create_mel_spectrogram L audio sr n_fft hop_length n_mels =
   Raised (ValueError
             "zero-size array to reduction operation maximum which has no identity")).
Proof.
  intros mel Hrect.
  assert (Hempty : concat mel = [] ->
            create_mel_spectrogram L audio sr n_fft hop_length n_mels =
            Raised (zero_size "maximum")).
  { intro H. unfold create_mel_spectrogram, power_to_db, np_max2. fold mel.
    now rewrite H. }
  split; [split|exact Hempty].
  - intros [out Hout] H. rewrite (Hempty H) in Hout. discriminate Hout.
  - intro H. destruct (concat mel) as [|x t] eqn:E; [congruence|].
    assert (Hmax : maximum_of (concat mel) (fold_left Rmax t x))
      by (rewrite E; apply np_max_maximum; reflexivity).
    destruct (create_mel_spectrogram_returns L audio sr n_fft hop_length n_mels w _
                Hrect Hmax) as [mx [jl [_ [_ Hout]]]].
    eexists. exact Hout.
Qed.

Lemma create_mel_spectrogram_returns_iff_witness :
  create_mel_spectrogram (librosa_of (Returned []) [] [[]; []]) [] SAMPLE_RATE
    FFT_WINDOW HOP_LENGTH 2 =
  Raised (ValueError
            "zero-size array to reduction operation maximum which has no identity").
Proof.
  apply (create_mel_spectrogram_returns_iff (librosa_of (Returned []) [] [[]; []]) []
           SAMPLE_RATE FFT_WINDOW HOP_LENGTH 2 0).
  - repeat constructor.
  - reflexivity.
Defined.

(** ** AudioLoader: silence and the length of the crop *)

(** X7: the energy crop is skipped exactly on silence.  With [mx] the
    largest frame energy, some frame is above the threshold iff [mx] is
    positive; when it is not, the loader returns the silence-trimmed
    waveform, normalised, with no samples removed -- if it has a sample; on
    a waveform without samples [librosa.util.normalize] raises. *)
Theorem load_keeps_a_silent_clip (L : Librosa) (file_path : string) (sr : Z)
    (w : world) (y0 : list R) (mx : R) :
  let y := librosa_effects_trim L y0 35 in
  let energy := librosa_feature_rms L y 1024 512 in
  librosa_load L file_path sr = Returned y0 ->
  maximum_of energy mx ->
  ((exists i, exceeds energy (3 / 100 * mx) i) <-> 0 < mx) /\
  (mx <= 0 -> y <> [] ->
   load_and_preprocess_audio L file_path sr w =
   (Returned (Some (librosa_util_normalize L y)), w)) /\
  (y = [] ->
   load_and_preprocess_audio L file_path sr w =
   (Raised (ValueError
              "zero-size array to reduction operation maximum which has no identity"),
    w)).
Proof.
  intros y energy Hload Hmx. split; [now apply exceeds_iff_positive|]. split.
  - intros Hle Hy. apply (load_returned L file_path sr w y0 y Hload); [|exact Hy].
    apply (active_region_silent L y mx Hmx). now apply silent_no_active.
  - intro Hy. exact (load_raises_on_empty L file_path sr w y0 Hload Hy).
Qed.

Lemma load_keeps_a_silent_clip_witness :
  load_and_preprocess_audio (librosa_of (Returned [0; 0; 0]) [0] []) "a.wav"
    SAMPLE_RATE empty_world =
  (Returned (Some [0; 0; 0]), empty_world).
Proof.
  destruct (load_keeps_a_silent_clip (librosa_of (Returned [0; 0; 0]) [0] [])
              "a.wav" SAMPLE_RATE empty_world [0; 0; 0] 0) as [_ [H _]].
  - reflexivity.
  - split; [cbn; tauto|]. repeat constructor; lra.
  - apply H; [lra|discriminate].
Defined.

(** X8: the energy crop never cuts a waveform below 1024 samples (or below
    its own length, if shorter), librosa's envelope having one frame per
    512 samples and one more: the waveform returned by the crop has between
    [min(len(y), 1024)] and [len(y)] samples.  So the crop of a waveform
    with a sample has a sample, and the loader returns its normalisation. *)
Theorem load_crop_length (L : Librosa) (file_path : string) (sr : Z)
    (w : world) (y0 : list R) (mx : R) :
  let y := librosa_effects_trim L y0 35 in
  let energy := librosa_feature_rms L y 1024 512 in
  librosa_load L file_path sr = Returned y0 ->
  length energy = (1 + length y / 512)%nat ->
  maximum_of energy mx ->
  exists y',
    active_region L y = Returned y' /\
    (Nat.min (length y) 1024 <= length y' <= length y)%nat /\
    (y <> [] ->
     y' <> [] /\
     load_and_preprocess_audio L file_path sr w =
     (Returned (Some (librosa_util_normalize L y')), w)).
Proof.
  intros y energy Hload Hframes Hmx.
  destruct (active_region_length L y mx Hframes Hmx) as [y' [Hregion Hlen]].
  exists y'. split; [exact Hregion|]. split; [exact Hlen|].
  intro Hy.
  assert (Hne : y' <> []).
  { apply length_pos_nonempty. apply length_pos_nonempty in Hy. lia. }
  split; [exact Hne|].
  exact (load_returned L file_path sr w y0 y' Hload Hregion Hne).
Qed.

Lemma load_crop_length_witness :
  exists y',
    active_region burst_librosa (repeat 1 4096) = Returned y' /\
    (1024 <= length y' <= 4096)%nat.
Proof.
  destruct (load_crop_length burst_librosa "a.wav" SAMPLE_RATE empty_world
              (repeat 1 4096) 1) as [y' [Hy [Hlen _]]].
  - reflexivity.
  - cbn [burst_librosa librosa_of librosa_effects_trim librosa_feature_rms].
    rewrite repeat_length. reflexivity.
  - split; [cbn; tauto|]. repeat constructor; lra.
  - exists y'. split; [exact Hy|].
    cbn [burst_librosa librosa_of librosa_effects_trim] in Hlen.
    rewrite repeat_length in Hlen. cbn in Hlen. exact Hlen.
Defined.

(** ** SpecAugmenter: values, parameters and draws *)

Lemma masked_range (m out : Matrix R) (lo hi : R) :
  masked m out -> minimum_of (concat m) lo -> maximum_of (concat m) hi ->
  Forall (fun v => lo <= v <= hi) (concat out).
Proof.
  intros H Hlo Hhi. apply Forall2_concat in H.
  assert (Hbounds : forall x, In x (concat m) -> lo <= x <= hi).
  { intros x Hx. destruct Hlo as [_ Hl], Hhi as [_ Hh].
    rewrite Forall_forall in Hl, Hh. split; auto. }
  apply Forall_forall. intros y Hy.
  destruct (Forall2_In_r _ _ _ _ H Hy) as [x [Hx [->|Hmin]]]; [now apply Hbounds|].
  rewrite (minimum_of_unique _ _ _ Hmin Hlo). apply Hbounds, Hlo.
Qed.

Lemma spec_augment_default_eq (spec : ref) :
  spec_augment_default spec = spec_augment spec 10 20 2.
Proof. reflexivity. Qed.

(** X9: whatever the parameters, when [spec_augment] returns, each cell of
    the result holds the value of the input at the same place or the
    minimum of the input; no value leaves the range of the input. *)
Theorem spec_augment_cells (w : world) (spec : ref) (m : Matrix R) (fp tp n : Z) (r : ref) :
  nth_error (heap w) spec = Some m ->
  value (spec_augment spec fp tp n w) = Returned r ->
  exists out,
    nth_error (heap (after (spec_augment spec fp tp n w))) r = Some out /\
    masked m out /\
    forall lo hi, minimum_of (concat m) lo -> maximum_of (concat m) hi ->
                  Forall (fun v => lo <= v <= hi) (concat out).
Proof.
  intros Hm Hret.
  destruct (spec_augment_runs w spec m fp tp n Hm) as [[cur [g [Hw Hmask]]] Hr].
  rewrite (Hr r Hret), Hw. exists cur. cbn [working heap].
  split; [apply nth_error_working|]. split; [exact Hmask|].
  intros lo hi. now apply masked_range.
Qed.

Lemma spec_augment_cells_witness :
  exists out,
    nth_error (heap (after (spec_augment 0%nat 10 20 2 (world_of long_spec wide_time_mask))))
      1%nat = Some out /\
    masked long_spec out.
Proof.
  assert (Hret : value (spec_augment_default 0%nat (world_of long_spec wide_time_mask))
                 = Returned 1%nat).
  { apply (spec_augment_default_returns (world_of long_spec wide_time_mask) 0%nat
             long_spec 300).
    - reflexivity.
    - apply Forall_forall. intros r Hr. apply repeat_spec in Hr. subst r.
      apply repeat_length.
    - unfold long_spec, shape0. rewrite repeat_length. lia.
    - lia. }
  rewrite spec_augment_default_eq in Hret.
  destruct (spec_augment_cells (world_of long_spec wide_time_mask) 0%nat long_spec
              10 20 2 1%nat eq_refl Hret) as [out [Hout [Hmask _]]].
  exists out. split; [exact Hout|exact Hmask].
Defined.

Lemma freq_mask_returned (h : list (Matrix R)) (cur : Matrix R) (g : nat -> nat)
    (s : list string) (fp : Z) (w' : world) :
  freq_mask (length h) fp (working h cur g s) = (Returned tt, w') ->
  (0 < fp)%Z /\ exists cur', w' = working h cur' (drawn 2 g) s.
Proof.
  rewrite freq_mask_run. destruct (Z.ltb_spec 0 fp); [|discriminate].
  cbv zeta. destruct (0 <? _)%Z; [|discriminate].
  destruct (np_min2 cur); [|discriminate].
  intro E. injection E as <-. split; [assumption|]. eexists. reflexivity.
Qed.

Lemma time_mask_returned (h : list (Matrix R)) (cur : Matrix R) (g : nat -> nat)
    (s : list string) (tp : Z) (w' : world) :
  time_mask (length h) tp (working h cur g s) = (Returned tt, w') ->
  (0 < tp)%Z /\ exists cur', w' = working h cur' (drawn 2 g) s.
Proof.
  rewrite time_mask_run. destruct (Z.ltb_spec 0 tp); [|discriminate].
  cbv zeta. destruct (0 <? _)%Z; [|discriminate].
  destruct (np_min2 cur); [|discriminate].
  intro E. injection E as <-. split; [assumption|]. eexists. reflexivity.
Qed.

(** a loop of [n] masks that returns has made [2 * n] draws *)
Lemma for_range_draws (body : M unit) (h : list (Matrix R)) (s : list string) :
  (forall cur g w', body (working h cur g s) = (Returned tt, w') ->
                    exists cur', w' = working h cur' (drawn 2 g) s) ->
  forall n cur g w',
    for_range n body (working h cur g s) = (Returned tt, w') ->
    exists cur' g', w' = working h cur' g' s /\
                    forall k, g' k = g (2 * n + k)%nat.
Proof.
  intros Hbody n. induction n as [|n IH]; intros cur g w' H.
  - cbn in H. injection H as <-. now exists cur, g.
  - cbn [for_range] in H. unfold bind in H.
    destruct (body (working h cur g s)) as [[[]|e] w1] eqn:E; [|discriminate H].
    destruct (Hbody cur g w1 E) as [cur1 ->].
    destruct (IH cur1 (drawn 2 g) w' H) as [cur' [g' [-> Hg']]].
    exists cur', g'. split; [reflexivity|]. intro k. rewrite Hg'. unfold drawn.
    f_equal. lia.
Qed.

Lemma spec_augment_returned (w : world) (spec : ref) (m : Matrix R) (fp tp n : Z)
    (r : ref) (w' : world) :
  nth_error (heap w) spec = Some m ->
  spec_augment spec fp tp n w = (Returned r, w') ->
  exists cur g, w' = working (heap w) cur g (stdout w) /\
                forall k, g k = rng w (4 * Z.to_nat n + k)%nat.
Proof.
  intros Hm. unfold spec_augment. unfold bind at 1.
  rewrite (np_copy_run w spec m Hm). unfold bind at 1.
  destruct (for_range (Z.to_nat n) (freq_mask (length (heap w)) fp) _)
    as [[[]|e] w1] eqn:E1; [|discriminate].
  destruct (for_range_draws _ (heap w) (stdout w)
              (fun cur g w' H => proj2 (freq_mask_returned _ cur g _ fp w' H))
              _ _ _ _ E1) as [cur1 [g1 [-> Hg1]]].
  unfold bind.
  destruct (for_range (Z.to_nat n) (time_mask (length (heap w)) tp) _)
    as [[[]|e] w2] eqn:E2; [|discriminate].
  destruct (for_range_draws _ (heap w) (stdout w)
              (fun cur g w' H => proj2 (time_mask_returned _ cur g _ tp w' H))
              _ _ _ _ E2) as [cur2 [g2 [-> Hg2]]].
  unfold ret. intro E. injection E as _ <-.
  exists cur2, g2. split; [reflexivity|].
  intro k. rewrite Hg2, Hg1. f_equal. lia.
Qed.

(** X10: a run of [spec_augment] that returns has consumed exactly four
    draws per mask round, [4 * num_masks] in all (none when [num_masks] is
    zero or negative), has printed nothing, and has added one array to the
    heap. *)
Theorem spec_augment_draws (w : world) (spec : ref) (m : Matrix R) (fp tp n : Z) (r : ref) :
  nth_error (heap w) spec = Some m ->
  value (spec_augment spec fp tp n w) = Returned r ->
  let w' := after (spec_augment spec fp tp n w) in
  (forall k, rng w' k = rng w (4 * Z.to_nat n + k)%nat) /\
  stdout w' = stdout w /\
  length (heap w') = S (length (heap w)).
Proof.
  intros Hm Hret. cbv zeta.
  destruct (spec_augment spec fp tp n w) as [o w'] eqn:E.
  unfold value, after in *. cbn [fst snd] in *. subst o.
  destruct (spec_augment_returned w spec m fp tp n r w' Hm E) as [cur [g [-> Hg]]].
  cbn [working rng stdout heap]. split; [exact Hg|split].
  - reflexivity.
  - rewrite length_app. cbn. lia.
Qed.

Lemma spec_augment_draws_witness :
  rng (after (spec_augment 0%nat 10 20 2 (world_of long_spec wide_time_mask))) 0%nat =
  wide_time_mask 8%nat.
Proof.
  assert (Hret : value (spec_augment_default 0%nat (world_of long_spec wide_time_mask))
                 = Returned 1%nat).
  { apply (spec_augment_default_returns (world_of long_spec wide_time_mask) 0%nat
             long_spec 300).
    - reflexivity.
    - apply Forall_forall. intros r Hr. apply repeat_spec in Hr. subst r.
      apply repeat_length.
    - unfold long_spec, shape0. rewrite repeat_length. lia.
    - lia. }
  rewrite spec_augment_default_eq in Hret.
  destruct (spec_augment_draws (world_of long_spec wide_time_mask) 0%nat long_spec
              10 20 2 1%nat eq_refl Hret) as [H _].
  exact (H 0%nat).
Defined.

(** X11: the mask parameters must be positive.  With at least one mask
    round, a frequency parameter of zero or less makes the very first
    [randint] raise, before any draw; a time parameter of zero or less makes
    the call raise as well, at the latest in the first time mask. *)
Theorem spec_augment_needs_positive_parameters (w : world) (spec : ref) (m : Matrix R)
    (fp tp n : Z) :
  nth_error (heap w) spec = Some m -> (0 < n)%Z ->
  ((fp <= 0)%Z ->
   value (spec_augment spec fp tp n w) = Raised (ValueError "high <= 0") /\
   rng (after (spec_augment spec fp tp n w)) = rng w) /\
  ((tp <= 0)%Z -> exists e, value (spec_augment spec fp tp n w) = Raised e).
Proof.
  intros Hm Hn.
  destruct (Z.to_nat n) as [|k] eqn:En; [lia|].
  split.
  - intro Hfp.
    assert (E : spec_augment spec fp tp n w =
                (Raised empty_range, working (heap w) m (rng w) (stdout w))).
    { unfold spec_augment. unfold bind at 1.
      rewrite (np_copy_run w spec m Hm). rewrite En. cbn [for_range].
      unfold bind. rewrite freq_mask_run.
      replace (0 <? fp)%Z with false by (symmetry; apply Z.ltb_ge; lia).
      reflexivity. }
    rewrite E. split; reflexivity.
  - intro Htp.
    assert (E : exists e w', spec_augment spec fp tp n w = (Raised e, w')).
    { unfold spec_augment. unfold bind at 1.
      rewrite (np_copy_run w spec m Hm). unfold bind at 1.
      destruct (for_range (Z.to_nat n) (freq_mask (length (heap w)) fp) _)
        as [[[]|e] w1] eqn:E1; [|now exists e, w1].
      destruct (for_range_draws _ (heap w) (stdout w)
                  (fun cur g w' H => proj2 (freq_mask_returned _ cur g _ fp w' H))
                  _ _ _ _ E1) as [cur1 [g1 [-> _]]].
      exists empty_range. eexists. rewrite En. cbn [for_range]. unfold bind.
      rewrite time_mask_run.
      replace (0 <? tp)%Z with false by (symmetry; apply Z.ltb_ge; lia).
      reflexivity. }
    destruct E as [e [w' E]]. exists e. now rewrite E.
Qed.

Lemma spec_augment_needs_positive_parameters_witness :
  value (spec_augment 0%nat 0 20 2 (world_of long_spec wide_time_mask)) =
  Raised (ValueError "high <= 0").
Proof.
  destruct (spec_augment_needs_positive_parameters (world_of long_spec wide_time_mask)
              0%nat long_spec 0 20 2 eq_refl) as [H _].
  - lia.
  - apply H. lia.
Defined.

(** ** SpecAugmenter: how much is masked *)

Lemma nth_error_mapi_from {A B : Type} (f : nat -> A -> B) (k i : nat) (l : list A) :
  nth_error (mapi_from k f l) i = option_map (f (k + i)%nat) (nth_error l i).
Proof.
  revert k i. induction l as [|a l IH]; intros k i; [now destruct i|].
  destruct i as [|i]; cbn; [now rewrite Nat.add_0_r|].
  rewrite IH. now rewrite Nat.add_succ_r.
Qed.

Lemma entry_with_masks (lo : R) (fm tm : list (nat * nat)) (m : Matrix R) (i j : nat) :
  entry (with_masks lo fm tm m) i j =
  option_map (fun x => if existsb (fun b => in_band b i) fm
                          || existsb (fun b => in_band b j) tm
                       then lo else x)
             (entry m i j).
Proof.
  unfold entry, with_masks, mapi. rewrite nth_error_mapi_from.
  destruct (nth_error m i) as [row|]; [|reflexivity].
  cbn [option_map]. now rewrite nth_error_mapi_from.
Qed.

Lemma in_band_seq (start width i : nat) :
  in_band (start, width) i = true <-> In i (seq start width).
Proof.
  unfold in_band. cbn [fst snd]. rewrite andb_true_iff, Nat.leb_le, Nat.ltb_lt, in_seq.
  reflexivity.
Qed.

Lemma existsb_bands (p1 f1 p2 f2 i : nat) :
  ~ In i (seq p1 f1 ++ seq p2 f2) ->
  existsb (fun b => in_band b i) [(p1, f1); (p2, f2)] = false.
Proof.
  intro H. cbn [existsb]. rewrite orb_false_r.
  destruct (in_band (p1, f1) i) eqn:E1.
  { exfalso. apply H, in_or_app. left. now apply in_band_seq. }
  destruct (in_band (p2, f2) i) eqn:E2; [|reflexivity].
  exfalso. apply H, in_or_app. right. now apply in_band_seq.
Qed.

(** X12: with the default parameters, on a matrix of at least 10 rows and
    20 columns, the masks touch at most 18 rows and at most 38 columns:
    outside these rows and columns every cell of the result is the cell of
    the input. *)
Theorem spec_augment_default_touches_little (w : world) (spec : ref) (m : Matrix R)
    (cols : nat) :
  nth_error (heap w) spec = Some m -> rect cols m ->
  (10 <= shape0 m)%nat -> (20 <= cols)%nat ->
  exists out rows_masked cols_masked,
    value (spec_augment_default spec w) = Returned (length (heap w)) /\
    nth_error (heap (after (spec_augment_default spec w))) (length (heap w)) = Some out /\
    (length rows_masked <= 18)%nat /\ (length cols_masked <= 38)%nat /\
    forall i j, ~ In i rows_masked -> ~ In j cols_masked -> entry out i j = entry m i j.
Proof.
  intros Hm Hrect Hrows Hcols.
  destruct (minimum_exists m) as [lo Hlo]; [lia| |].
  { destruct m as [|r t]; [cbn in Hrows; lia|]. inversion Hrect; subst. cbn. lia. }
  pose proof (Nat.mod_upper_bound (rng w 0) 10) as U1.
  pose proof (Nat.mod_upper_bound (rng w 2) 10) as U2.
  pose proof (Nat.mod_upper_bound (rng w 4) 20) as U3.
  pose proof (Nat.mod_upper_bound (rng w 6) 20) as U4.
  destruct (spec_augment_default_run w spec m cols lo Hm Hrect Hlo)
    as [E [[F1 _] [[F2 _] [[T1 _] [T2 _]]]]]; try lia.
  match type of E with
  | _ = (_, working _ (with_masks _ [(?p1, ?f1); (?p2, ?f2)] [(?q1, ?t1); (?q2, ?t2)] _) _ _) =>
      exists (with_masks lo [(p1, f1); (p2, f2)] [(q1, t1); (q2, t2)] m),
             (seq p1 f1 ++ seq p2 f2), (seq q1 t1 ++ seq q2 t2)
  end.
  rewrite E. unfold value, after. cbn [fst snd working heap].
  split; [reflexivity|]. split; [apply nth_error_working|].
  split; [rewrite length_app, !length_seq; lia|].
  split; [rewrite length_app, !length_seq; lia|].
  intros i j Hi Hj. rewrite entry_with_masks.
  rewrite (existsb_bands _ _ _ _ i Hi), (existsb_bands _ _ _ _ j Hj). cbn [orb].
  now destruct (entry m i j).
Qed.

Lemma spec_augment_default_touches_little_witness :
  exists out rows_masked cols_masked,
    nth_error (heap (after (spec_augment_default 0%nat (world_of long_spec wide_time_mask))))
      1%nat = Some out /\
    (length rows_masked <= 18)%nat /\ (length cols_masked <= 38)%nat /\
    forall i j, ~ In i rows_masked -> ~ In j cols_masked ->
                entry out i j = entry long_spec i j.
Proof.
  destruct (spec_augment_default_touches_little (world_of long_spec wide_time_mask)
              0%nat long_spec 300) as [out [rm [cm [_ [Hout H]]]]].
  - reflexivity.
  - apply Forall_forall. intros r Hr. apply repeat_spec in Hr. subst r.
    apply repeat_length.
  - unfold long_spec, shape0. rewrite repeat_length. lia.
  - lia.
  - exists out, rm, cm. split; [exact Hout|exact H].
Defined.

(** ** ImageFormatter: shape, levels and degenerate matrices *)

Lemma sample_shape {A : Type} (d : A) (src : Matrix A) (w h : Z) :
  (0 < shape0 src)%nat -> (0 < shape1 src)%nat -> (0 < w)%Z -> (0 < h)%Z ->
  exists dst, sample d src (w, h) = Returned dst /\
              shape0 dst = Z.to_nat h /\ rect (Z.to_nat w) dst.
Proof.
  intros H0 H1 Hw Hh. unfold sample. cbn [fst snd].
  destruct (Nat.eqb_spec (shape0 src) 0); [lia|].
  destruct (Nat.eqb_spec (shape1 src) 0); [lia|].
  destruct (Nat.eqb_spec (Z.to_nat w) 0); [lia|].
  destruct (Nat.eqb_spec (Z.to_nat h) 0); [lia|].
  cbn [orb]. eexists. split; [reflexivity|]. split.
  - unfold shape0. now rewrite length_map, length_seq.
  - apply Forall_forall. intros r Hr. apply in_map_iff in Hr as [i [<- _]].
    now rewrite length_map, length_seq.
Qed.

Lemma sample_In {A : Type} (d : A) (src dst : Matrix A) (dsize : Z * Z) (x : A) :
  sample d src dsize = Returned dst -> In x (concat dst) -> In x (concat src) \/ x = d.
Proof.
  intros H Hx. unfold sample in H.
  destruct (_ || _ || _ || _); [discriminate|]. injection H as <-.
  apply in_concat in Hx as [r [Hr Hx]]. apply in_map_iff in Hr as [i [<- _]].
  apply in_map_iff in Hx as [j [<- _]].
  set (row := nth (i * shape0 src / Z.to_nat (snd dsize)) src []).
  destruct (nth_in_or_default (i * shape0 src / Z.to_nat (snd dsize)) src [])
    as [Hrow|Hrow]; fold row in Hrow.
  - destruct (nth_in_or_default (j * shape1 src / Z.to_nat (fst dsize)) row d)
      as [Hin|Hd]; [left|now right].
    apply in_concat. now exists row.
  - right. rewrite Hrow. now destruct (j * shape1 src / Z.to_nat (fst dsize))%nat.
Qed.

Lemma uint8_image_concat (img : Matrix Z) :
  uint8_image img <-> Forall (fun v => (0 <= v <= 255)%Z) (concat img).
Proof.
  unfold uint8_image. rewrite !Forall_forall. split.
  - intros H v Hv. apply in_concat in Hv as [r [Hr Hv]].
    specialize (H r Hr). rewrite Forall_forall in H. auto.
  - intros H r Hr. apply Forall_forall. intros v Hv. apply H, in_concat. now exists r.
Qed.

(** the sampling implementation meets the laws *)
Lemma cv2_sampling_ok : Cv2_ok cv2_sampling.
Proof.
  constructor.
  - intros src w h H0 H1 _ Hw Hh. now apply sample_shape.
  - intros src w h H0 H1 _ Hw Hh. now apply sample_shape.
  - intros src dsize H. cbn [cv2_sampling cv2_resize_f64]. unfold sample.
    eexists. destruct H as [-> | ->]; cbn [Nat.eqb orb]; [reflexivity|].
    destruct (shape0 src =? 0)%nat; reflexivity.
  - intros src dsize dst H Hsrc. cbn [cv2_sampling cv2_resize_u8] in H.
    apply uint8_image_concat. apply uint8_image_concat in Hsrc.
    rewrite Forall_forall in *. intros v Hv.
    destruct (sample_In _ _ _ _ _ H Hv) as [Hin| ->]; [now apply Hsrc|lia].
  - intros v Hv. cbn. tauto.
Qed.

(** the test of [resize_for_cnn] on the aspect ratio, in integers *)
Lemma far_iff_not_near (rows cols : nat) :
  (0 < rows)%nat ->
  Rgtb (IZR (Z.abs (Z.of_nat cols - Z.of_nat rows)) / IZR (Z.of_nat rows)) (2 / 10) = false
  <-> near_square rows cols.
Proof.
  intro Hrows. unfold Rgtb, near_square.
  set (a := Z.abs (Z.of_nat cols - Z.of_nat rows)).
  assert (Hn : 0 < IZR (Z.of_nat rows)) by (apply IZR_lt; lia).
  assert (Hequiv : IZR a / IZR (Z.of_nat rows) <= 2 / 10 <-> (5 * a <= Z.of_nat rows)%Z).
  { split.
    - intro H. apply le_IZR. rewrite mult_IZR.
      apply (Rmult_le_compat_r (IZR (Z.of_nat rows))) in H; [|lra].
      unfold Rdiv in H. rewrite Rmult_assoc, Rinv_l in H by lra. lra.
    - intro H. apply IZR_le in H. rewrite mult_IZR in H.
      apply (Rmult_le_reg_r (IZR (Z.of_nat rows))); [exact Hn|].
      unfold Rdiv. rewrite Rmult_assoc, Rinv_l by lra. lra. }
  destruct (Rlt_dec (2 / 10) (IZR a / IZR (Z.of_nat rows))) as [Hlt|Hge].
  - split; [discriminate|]. intro H. exfalso.
    assert (5 * a <= Z.of_nat rows)%Z by (unfold a; lia).
    apply Hequiv in H0. lra.
  - split; [|reflexivity]. intros _.
    assert (5 * a <= Z.of_nat rows)%Z by (apply Hequiv; lra). unfold a in H. lia.
Qed.

Lemma np_min2_nonempty (m : Matrix R) :
  (0 < shape0 m)%nat -> (0 < shape1 m)%nat -> exists lo, np_min2 m = Returned lo.
Proof.
  intros H0 H1. destruct m as [|[|x r] t]; cbn in H0, H1; try lia.
  apply np_min2_returns.
Qed.

Lemma np_max2_nonempty (m : Matrix R) :
  (0 < shape0 m)%nat -> (0 < shape1 m)%nat -> exists hi, np_max2 m = Returned hi.
Proof.
  intros H0 H1. destruct m as [|[|x r] t]; cbn in H0, H1; try lia.
  apply np_max2_returns.
Qed.

(** [resize_for_cnn] after the squaring step *)
Lemma resize_for_cnn_from_square (cv : Cv2) (spec square : Matrix R) (th tw : Z)
    (w : world) (lo hi : R) :
  let n := Z.of_nat (shape0 spec) in
  (0 < shape0 spec)%nat ->
  (if Rgtb (IZR (Z.abs (Z.of_nat (shape1 spec) - n)) / IZR n) (2 / 10)
   then cv2_resize_f64 cv spec (n, n) else Returned spec) = Returned square ->
  np_min2 square = Returned lo -> np_max2 square = Returned hi ->
  resize_for_cnn cv spec (th, tw) w =
  if negb ((th =? n)%Z && (tw =? n)%Z)
  then match cv2_resize_u8 cv (map (map (gray_level lo hi)) square) (tw, th) with
       | Returned img => (Returned (coloured cv img), w)
       | Raised e => (Raised e, w)
       end
  else (Returned (coloured cv (map (map (gray_level lo hi)) square)), w).
Proof.
  intros n Hrows Hsq Hlo Hhi. unfold resize_for_cnn. fold n.
  replace (n =? 0)%Z with false by (symmetry; apply Z.eqb_neq; unfold n; lia).
  unfold bind at 1. unfold ret at 1.
  assert (Hgray : forall sq : Matrix R,
            map (map (fun v => astype_uint8 (v * 255)))
              (map (map (fun v => (v - lo) / (hi - lo + / 10 ^ 10))) sq)
            = map (map (gray_level lo hi)) sq).
  { intro sq. rewrite map_map. apply map_ext. intro r. now rewrite map_map. }
  destruct (Rgtb _ _).
  - unfold bind at 1. unfold lift at 1. rewrite Hsq.
    unfold bind, lift, ret. rewrite Hlo, Hhi, Hgray. cbn [fst snd].
    destruct (negb _); [|reflexivity]. now destruct (cv2_resize_u8 cv _ _).
  - injection Hsq as <-. unfold bind, lift, ret. rewrite Hlo, Hhi, Hgray. cbn [fst snd].
    destruct (negb _); [|reflexivity]. now destruct (cv2_resize_u8 cv _ _).
Qed.

Lemma shape3_coloured (cv : Cv2) (gray : Matrix Z) :
  shape3 (coloured cv gray) = (shape0 gray, shape1 gray, 3%nat).
Proof. apply shape3_colour. Qed.

(** [resize_for_cnn] up to the gray image: the matrix squared when its
    width is more than 20% away from its height, then the gray levels *)
Lemma resize_for_cnn_gray (cv : Cv2) (spec : Matrix R) (cols : nat) (th tw : Z)
    (w : world) :
  Cv2_ok cv -> rect cols spec -> (0 < shape0 spec)%nat -> (0 < cols)%nat ->
  exists gray c,
    resize_for_cnn cv spec (th, tw) w =
    (if negb ((th =? Z.of_nat (shape0 spec))%Z && (tw =? Z.of_nat (shape0 spec))%Z)
     then match cv2_resize_u8 cv gray (tw, th) with
          | Returned img => (Returned (coloured cv img), w)
          | Raised e => (Raised e, w)
          end
     else (Returned (coloured cv gray), w)) /\
    shape0 gray = shape0 spec /\ rect c gray /\ (0 < c)%nat /\
    (near_square (shape0 spec) cols -> c = cols) /\
    (~ near_square (shape0 spec) cols -> c = shape0 spec).
Proof.
  intros Hcv Hrect Hrows Hcols.
  assert (Hne : spec <> []) by (intro E; rewrite E in Hrows; cbn in Hrows; lia).
  assert (Hs1 : shape1 spec = cols) by now apply rect_shape1.
  set (n := Z.of_nat (shape0 spec)).
  (* the squaring step *)
  assert (Hsq : exists square c,
            (if Rgtb (IZR (Z.abs (Z.of_nat (shape1 spec) - n)) / IZR n) (2 / 10)
             then cv2_resize_f64 cv spec (n, n) else Returned spec) = Returned square /\
            shape0 square = shape0 spec /\ rect c square /\ (0 < c)%nat /\
            (near_square (shape0 spec) cols -> c = cols) /\
            (~ near_square (shape0 spec) cols -> c = shape0 spec)).
  { destruct (Rgtb _ _) eqn:Efar.
    - assert (Hfar : ~ near_square (shape0 spec) cols).
      { intro H. rewrite Hs1 in Efar. unfold n in Efar.
        apply (far_iff_not_near _ _ Hrows) in H. congruence. }
      destruct (resize_f64_shape cv Hcv spec n n) as [sq [E [H0 H1]]];
        try (unfold n; lia); [now rewrite Hs1|].
      exists sq, (shape0 spec). unfold n in H0, H1. rewrite Nat2Z.id in H0, H1.
      repeat split; try assumption; try tauto.
    - assert (Hnear : near_square (shape0 spec) cols).
      { rewrite Hs1 in Efar. unfold n in Efar. now apply (far_iff_not_near _ _ Hrows). }
      exists spec, cols. repeat split; try assumption; try tauto. }
  destruct Hsq as [square [c [Hsq [Hq0 [Hqrect [Hc [Hcnear Hcfar]]]]]]].
  assert (Hqne : square <> []) by (intro E; rewrite E in Hq0; cbn in Hq0; lia).
  assert (Hq1 : shape1 square = c) by now apply rect_shape1.
  destruct (np_min2_nonempty square) as [lo Hlo]; [lia|lia|].
  destruct (np_max2_nonempty square) as [hi Hhi]; [lia|lia|].
  exists (map (map (gray_level lo hi)) square), c.
  split; [exact (resize_for_cnn_from_square cv spec square th tw w lo hi Hrows Hsq Hlo Hhi)|].
  split; [now rewrite shape0_map|]. split; [now apply rect_map_map|].
  repeat split; assumption.
Qed.

(** with the default target, a matrix whose height is not 224 comes back as
    a 224 x 224 colour image *)
Lemma resize_for_cnn_default_returns (cv : Cv2) (spec : Matrix R) (cols : nat) (w : world) :
  Cv2_ok cv -> rect cols spec -> (0 < shape0 spec)%nat -> (0 < cols)%nat ->
  shape0 spec <> 224%nat ->
  exists img,
    resize_for_cnn cv spec (224, 224)%Z w = (Returned img, w) /\
    shape3 img = (224%nat, 224%nat, 3%nat).
Proof.
  intros Hcv Hrect Hrows Hcols H224.
  destruct (resize_for_cnn_gray cv spec cols 224 224 w Hcv Hrect Hrows Hcols)
    as [gray [c [E [Hg0 [Hgrect [Hc _]]]]]].
  rewrite E.
  replace (224 =? Z.of_nat (shape0 spec))%Z with false
    by (symmetry; apply Z.eqb_neq; lia).
  cbn [andb negb].
  assert (Hgne : gray <> []) by (intro Eg; rewrite Eg in Hg0; cbn in Hg0; lia).
  assert (Hg1 : shape1 gray = c) by now apply rect_shape1.
  destruct (resize_u8_shape cv Hcv gray 224 224) as [img [Ei [H0 H1]]];
    try lia; [now rewrite Hg1|].
  rewrite Ei. eexists. split; [reflexivity|].
  assert (Hine : img <> []) by (intro Ee; rewrite Ee in H0; cbn in H0; lia).
  now rewrite shape3_coloured, H0, (rect_shape1 _ img H1 Hine).
Qed.

(** X13: OpenCV behaving as documented, [resize_for_cnn] returns on every
    matrix with a row and a column and every positive target size.  The
    image has the target height and width, except in one case: when the
    target is [(n_mels, n_mels)] and the width is within 20% of [n_mels],
    nothing is resized and the image keeps the width of the matrix. *)
Theorem resize_for_cnn_shape (cv : Cv2) (spec : Matrix R) (cols : nat) (th tw : Z)
    (w : world) :
  Cv2_ok cv -> rect cols spec -> (0 < shape0 spec)%nat -> (0 < cols)%nat ->
  (0 < th)%Z -> (0 < tw)%Z ->
  exists img,
    resize_for_cnn cv spec (th, tw) w = (Returned img, w) /\
    ((th, tw) <> (Z.of_nat (shape0 spec), Z.of_nat (shape0 spec)) \/
     ~ near_square (shape0 spec) cols ->
     shape3 img = (Z.to_nat th, Z.to_nat tw, 3%nat)) /\
    ((th, tw) = (Z.of_nat (shape0 spec), Z.of_nat (shape0 spec)) ->
     near_square (shape0 spec) cols ->
     shape3 img = (shape0 spec, cols, 3%nat)).
Proof.
  intros Hcv Hrect Hrows Hcols Hth Htw.
  destruct (resize_for_cnn_gray cv spec cols th tw w Hcv Hrect Hrows Hcols)
    as [gray [c [E [Hg0 [Hgrect [Hc [Hcnear Hcfar]]]]]]].
  rewrite E. clear E. set (n := Z.of_nat (shape0 spec)).
  assert (Hgne : gray <> []) by (intro Eg; rewrite Eg in Hg0; cbn in Hg0; lia).
  assert (Hg1 : shape1 gray = c) by now apply rect_shape1.
  destruct ((th =? n)%Z && (tw =? n)%Z) eqn:Etarget; cbn [negb].
  - apply andb_true_iff in Etarget as [E1 E2].
    apply Z.eqb_eq in E1, E2. eexists. split; [reflexivity|].
    rewrite shape3_coloured, Hg0, Hg1. split.
    + intros [Hneq|Hfar]; [exfalso; apply Hneq; now rewrite E1, E2|].
      rewrite (Hcfar Hfar), E1, E2. unfold n. now rewrite Nat2Z.id.
    + intros _ Hnear. now rewrite (Hcnear Hnear).
  - destruct (resize_u8_shape cv Hcv gray tw th) as [img [E [H0 H1]]];
      try lia; [now rewrite Hg1|].
    rewrite E. eexists. split; [reflexivity|].
    assert (Hine : img <> []) by (intro Ei; rewrite Ei in H0; cbn in H0; lia).
    rewrite shape3_coloured, H0, (rect_shape1 _ img H1 Hine). split; [reflexivity|].
    intros Heq _. injection Heq as -> ->. fold n in Etarget.
    rewrite Z.eqb_refl in Etarget. discriminate Etarget.
Qed.

Lemma resize_for_cnn_shape_witness :
  exists img,
    resize_for_cnn cv2_sampling [[0; -10; -20]; [-30; -40; -80]] (224, 224)%Z empty_world
    = (Returned img, empty_world) /\
    shape3 img = (224%nat, 224%nat, 3%nat).
Proof.
  destruct (resize_for_cnn_shape cv2_sampling [[0; -10; -20]; [-30; -40; -80]] 3
              224 224 empty_world cv2_sampling_ok) as [img [Himg [H _]]].
  - repeat constructor.
  - cbn. lia.
  - lia.
  - lia.
  - lia.
  - exists img. split; [exact Himg|]. apply H. left. cbn. congruence.
Defined.

Lemma astype_uint8_range (x : R) : (0 <= astype_uint8 x <= 255)%Z.
Proof. unfold astype_uint8. pose proof (Z.mod_pos_bound (Rtrunc x) 256). lia. Qed.

Lemma coloured_uint8 (cv : Cv2) (gray : Matrix Z) :
  Cv2_ok cv -> uint8_image gray -> Forall (Forall uint8_pixel) (coloured cv gray).
Proof.
  intros Hcv Hgray. unfold coloured, cv2_cvtColor_BGR2RGB, cv2_applyColorMap_JET.
  unfold uint8_image in Hgray. rewrite Forall_forall in *. intros r Hr.
  apply in_map_iff in Hr as [r1 [<- Hr1]]. apply in_map_iff in Hr1 as [r0 [<- Hr0]].
  specialize (Hgray r0 Hr0). rewrite Forall_forall in *. intros p Hp.
  apply in_map_iff in Hp as [q [<- Hq]]. apply in_map_iff in Hq as [v [<- Hv]].
  pose proof (palette_range cv Hcv v (Hgray v Hv)) as Hpal.
  destruct (COLORMAP_JET cv v) as [[b g] r']. cbn in *. tauto.
Qed.

Lemma gray_uint8 (f : R -> R) (square : Matrix R) :
  uint8_image (map (map (fun v => astype_uint8 (f v))) square).
Proof.
  unfold uint8_image. apply Forall_forall. intros r Hr.
  apply in_map_iff in Hr as [r0 [<- _]]. apply Forall_forall. intros v Hv.
  apply in_map_iff in Hv as [x [<- _]]. apply astype_uint8_range.
Qed.

Lemma bind_returned_inv {A B : Type} (c : M A) (k : A -> M B) (w w' : world) (b : B) :
  bind c k w = (Returned b, w') ->
  exists a w1, c w = (Returned a, w1) /\ k a w1 = (Returned b, w').
Proof.
  unfold bind. destruct (c w) as [[a|e] w1]; [|discriminate].
  intro H. now exists a, w1.
Qed.

(** X14: OpenCV behaving as documented, every channel of every pixel of an
    image that [resize_for_cnn] returns lies in [0, 255], whatever the
    matrix and the target size. *)
Theorem resize_for_cnn_channels (cv : Cv2) (spec : Matrix R) (target_size : Z * Z)
    (w w' : world) (img : Matrix pixel) :
  Cv2_ok cv ->
  resize_for_cnn cv spec target_size w = (Returned img, w') ->
  Forall (Forall uint8_pixel) img.
Proof.
  intros Hcv H. unfold resize_for_cnn in H. cbv zeta in H.
  apply bind_returned_inv in H as (far & w1 & _ & H).
  apply bind_returned_inv in H as (sq & w2 & _ & H).
  apply bind_returned_inv in H as (lo & w3 & _ & H).
  apply bind_returned_inv in H as (hi & w4 & _ & H).
  apply bind_returned_inv in H as (gray & w5 & Hg & H).
  unfold ret in H. injection H as <- _.
  apply (coloured_uint8 cv gray Hcv).
  assert (Hsrc : uint8_image
                   (map (map (fun v => astype_uint8 (v * 255)))
                      (map (map (fun v => (v - lo) / (hi - lo + / 10 ^ 10))) sq)))
    by apply (gray_uint8 (fun v => v * 255)).
  destruct (negb _).
  - unfold lift in Hg. injection Hg as Hg _.
    exact (resize_u8_range cv Hcv _ _ _ Hg Hsrc).
  - unfold ret in Hg. injection Hg as <- _. exact Hsrc.
Qed.

Lemma resize_for_cnn_channels_witness :
  exists img,
    resize_for_cnn cv2_sampling [[0; -10; -20]; [-30; -40; -80]] (224, 224)%Z empty_world
    = (Returned img, empty_world) /\
    Forall (Forall uint8_pixel) img.
Proof.
  destruct (resize_for_cnn_default_returns cv2_sampling [[0; -10; -20]; [-30; -40; -80]] 3
              empty_world cv2_sampling_ok) as [img [Himg _]];
    try (cbn; lia); [repeat constructor|].
  exists img. split; [exact Himg|].
  exact (resize_for_cnn_channels cv2_sampling _ _ _ _ img cv2_sampling_ok Himg).
Defined.

(** X15: a matrix without rows makes [resize_for_cnn] raise
    [ZeroDivisionError] (the aspect ratio divides by the number of rows); a
    matrix with rows but no columns is sent to [cv2.resize], which rejects
    an empty source, and the error of OpenCV reaches the caller. *)
Theorem resize_for_cnn_degenerate (cv : Cv2) (spec : Matrix R) (target_size : Z * Z)
    (w : world) :
  (shape0 spec = 0%nat ->
   resize_for_cnn cv spec target_size w = (Raised ZeroDivisionError, w)) /\
  (Cv2_ok cv -> (0 < shape0 spec)%nat -> shape1 spec = 0%nat ->
   exists msg, resize_for_cnn cv spec target_size w = (Raised (cv2_error msg), w)).
Proof.
  split.
  - intro H. unfold resize_for_cnn. rewrite H. reflexivity.
  - intros Hcv Hrows Hcols. unfold resize_for_cnn. rewrite Hcols.
    replace (Z.of_nat (shape0 spec) =? 0)%Z with false
      by (symmetry; apply Z.eqb_neq; lia).
    assert (Hfar : Rgtb (IZR (Z.abs (Z.of_nat 0 - Z.of_nat (shape0 spec)))
                         / IZR (Z.of_nat (shape0 spec))) (2 / 10) = true).
    { destruct (Rgtb _ _) eqn:E; [reflexivity|].
      apply (far_iff_not_near _ _ Hrows) in E. unfold near_square in E. lia. }
    unfold bind at 1. unfold ret at 1. rewrite Hfar.
    destruct (resize_f64_empty cv Hcv spec
                (Z.of_nat (shape0 spec), Z.of_nat (shape0 spec))) as [msg Hmsg];
      [now right|].
    exists msg. unfold bind, lift. now rewrite Hmsg.
Qed.

Lemma resize_for_cnn_degenerate_witness :
  exists msg,
    resize_for_cnn cv2_sampling [[]; []] (224, 224)%Z empty_world =
    (Raised (cv2_error msg), empty_world).
Proof.
  apply (proj2 (resize_for_cnn_degenerate cv2_sampling [[]; []] (224, 224)%Z empty_world)
           cv2_sampling_ok).
  - cbn. lia.
  - reflexivity.
Defined.

Lemma Int_part_bounds (x : R) (n : Z) :
  0 <= x < IZR n -> (0 <= Int_part x < n)%Z.
Proof.
  intros [H0 Hn]. destruct (base_Int_part x) as [Hle Hgt]. split.
  - apply Z.lt_succ_r, lt_IZR. rewrite succ_IZR. lra.
  - apply lt_IZR. lra.
Qed.

Lemma Int_part_le (x y : R) : x <= y -> (Int_part x <= Int_part y)%Z.
Proof.
  intro H. destruct (base_Int_part x) as [Hx _], (base_Int_part y) as [_ Hy].
  apply Z.lt_succ_r, lt_IZR. rewrite succ_IZR. lra.
Qed.

(** on [0, 255] the cast to uint8 drops the fraction and does not wrap *)
Lemma astype_uint8_floor (x : R) :
  0 <= x <= 255 -> astype_uint8 x = Int_part x /\ (0 <= Int_part x <= 255)%Z.
Proof.
  intro H. assert (Hx : 0 <= x < IZR 256) by lra.
  pose proof (Int_part_bounds x 256 Hx) as Hb.
  unfold astype_uint8, Rtrunc. destruct (Rle_dec 0 x); [|lra].
  split; [apply Z.mod_small; lia|lia].
Qed.

(** the normalised value of an entry, times 255, lies in [0, 255] *)
Lemma normalised_range (lo hi v : R) :
  lo <= v <= hi -> 0 <= (v - lo) / (hi - lo + / 10 ^ 10) * 255 <= 255.
Proof.
  intros [H1 H2].
  assert (Heps : 0 < / 10 ^ 10) by (apply Rinv_0_lt_compat, pow_lt; lra).
  assert (Hd : 0 < hi - lo + / 10 ^ 10) by lra.
  assert (0 <= (v - lo) / (hi - lo + / 10 ^ 10) <= 1); [|lra].
  split.
  - apply Rmult_le_pos; [lra|]. left. now apply Rinv_0_lt_compat.
  - apply (Rmult_le_reg_r (hi - lo + / 10 ^ 10)); [exact Hd|].
    unfold Rdiv. rewrite Rmult_assoc, Rinv_l by lra. lra.
Qed.

Lemma gray_level_range (lo hi v : R) :
  lo <= v <= hi -> (0 <= gray_level lo hi v <= 255)%Z.
Proof.
  intro H. unfold gray_level.
  destruct (astype_uint8_floor _ (normalised_range lo hi v H)) as [-> Hb]. exact Hb.
Qed.

(** a larger value does not get a lower level *)
Lemma gray_level_mono (lo hi v v' : R) :
  lo <= v -> v <= v' -> v' <= hi -> (gray_level lo hi v <= gray_level lo hi v')%Z.
Proof.
  intros H1 H2 H3. unfold gray_level.
  destruct (astype_uint8_floor _ (normalised_range lo hi v (conj H1 (Rle_trans _ _ _ H2 H3))))
    as [-> _].
  destruct (astype_uint8_floor _ (normalised_range lo hi v' (conj (Rle_trans _ _ _ H1 H2) H3)))
    as [-> _].
  apply Int_part_le.
  assert (Heps : 0 < / 10 ^ 10) by (apply Rinv_0_lt_compat, pow_lt; lra).
  assert (Hd : 0 < / (hi - lo + / 10 ^ 10)) by (apply Rinv_0_lt_compat; lra).
  unfold Rdiv. apply Rmult_le_compat_r; [lra|].
  apply Rmult_le_compat_r; [lra|lra].
Qed.

Lemma gray_level_lo (lo hi : R) : lo <= hi -> gray_level lo hi lo = 0%Z.
Proof.
  intro H. unfold gray_level.
  destruct (astype_uint8_floor _ (normalised_range lo hi lo (conj (Rle_refl lo) H)))
    as [-> _].
  replace ((lo - lo) / (hi - lo + / 10 ^ 10) * 255) with 0
    by (unfold Rdiv; rewrite Rminus_diag; lra).
  assert (Hz : 0 <= 0 < IZR 1) by lra.
  pose proof (Int_part_bounds 0 1 Hz). lia.
Qed.

(** X16: the gray levels.  [resize_for_cnn] turns the (squared) matrix into
    gray levels before the final resize and the colour map.  The levels
    keep the order of the values: the minimum of the matrix goes to level 0,
    a larger value never gets a lower level -- every level lies in
    [0, 255], so the cast to uint8 does not wrap around -- and a constant
    matrix, of zero dynamic range, goes to level 0 throughout instead of
    dividing by zero. *)
Theorem resize_for_cnn_levels (cv : Cv2) (spec : Matrix R) (cols : nat) (th tw : Z)
    (w : world) :
  Cv2_ok cv -> rect cols spec -> (0 < shape0 spec)%nat -> (0 < cols)%nat ->
  exists square lo hi,
    minimum_of (concat square) lo /\ maximum_of (concat square) hi /\
    (near_square (shape0 spec) cols -> square = spec) /\
    resize_for_cnn cv spec (th, tw) w =
    (if negb ((th =? Z.of_nat (shape0 spec))%Z && (tw =? Z.of_nat (shape0 spec))%Z)
     then match cv2_resize_u8 cv (map (map (gray_level lo hi)) square) (tw, th) with
          | Returned img => (Returned (coloured cv img), w)
          | Raised e => (Raised e, w)
          end
     else (Returned (coloured cv (map (map (gray_level lo hi)) square)), w)) /\
    gray_level lo hi lo = 0%Z /\
    (forall v v', In v (concat square) -> In v' (concat square) -> v <= v' ->
                  (0 <= gray_level lo hi v <= gray_level lo hi v')%Z /\
                  (gray_level lo hi v' <= 255)%Z) /\
    (lo = hi ->
     Forall (Forall (fun g => g = 0%Z)) (map (map (gray_level lo hi)) square)).
Proof.
  intros Hcv Hrect Hrows Hcols.
  assert (Hne : spec <> []) by (intro E; rewrite E in Hrows; cbn in Hrows; lia).
  assert (Hs1 : shape1 spec = cols) by now apply rect_shape1.
  set (n := Z.of_nat (shape0 spec)).
  assert (Hsq : exists square,
            (if Rgtb (IZR (Z.abs (Z.of_nat (shape1 spec) - n)) / IZR n) (2 / 10)
             then cv2_resize_f64 cv spec (n, n) else Returned spec) = Returned square /\
            (0 < shape0 square)%nat /\ (0 < shape1 square)%nat /\
            (near_square (shape0 spec) cols -> square = spec)).
  { destruct (Rgtb _ _) eqn:Efar.
    - assert (Hfar : ~ near_square (shape0 spec) cols).
      { intro H. rewrite Hs1 in Efar. unfold n in Efar.
        apply (far_iff_not_near _ _ Hrows) in H. congruence. }
      destruct (resize_f64_shape cv Hcv spec n n) as [sq [E [H0 H1]]];
        try (unfold n; lia); [now rewrite Hs1|].
      exists sq. unfold n in H0, H1. rewrite Nat2Z.id in H0, H1.
      split; [exact E|]. split; [lia|]. split; [|tauto].
      rewrite (rect_shape1 _ sq H1); [lia|].
      intro Ee. rewrite Ee in H0. cbn in H0. lia.
    - exists spec. split; [reflexivity|]. split; [exact Hrows|]. split; [lia|tauto]. }
  destruct Hsq as [square [Hsq [Hq0 [Hq1 Hnear]]]].
  destruct (np_min2_nonempty square Hq0 Hq1) as [lo Hlo].
  destruct (np_max2_nonempty square Hq0 Hq1) as [hi Hhi].
  pose proof (np_min_minimum _ _ Hlo) as Hmin.
  pose proof (np_max_maximum _ _ Hhi) as Hmax.
  assert (Hbounds : forall v, In v (concat square) -> lo <= v <= hi).
  { intros v Hv. destruct Hmin as [_ Hl], Hmax as [_ Hh].
    rewrite Forall_forall in Hl, Hh. split; auto. }
  assert (Hlohi : lo <= hi) by (apply Hbounds, Hmin).
  exists square, lo, hi.
  split; [exact Hmin|]. split; [exact Hmax|]. split; [exact Hnear|].
  split; [exact (resize_for_cnn_from_square cv spec square th tw w lo hi Hrows Hsq Hlo Hhi)|].
  split; [now apply gray_level_lo|]. split.
  - intros v v' Hv Hv' Hle.
    pose proof (Hbounds v Hv) as Hb. pose proof (Hbounds v' Hv') as Hb'.
    pose proof (gray_level_range lo hi v Hb).
    pose proof (gray_level_range lo hi v' Hb').
    pose proof (gray_level_mono lo hi v v' (proj1 Hb) Hle (proj2 Hb')). lia.
  - intro Heq. apply Forall_forall. intros r Hr. apply in_map_iff in Hr as [r0 [<- Hr0]].
    apply Forall_forall. intros g Hg. apply in_map_iff in Hg as [v [<- Hv]].
    assert (Hvb : lo <= v <= hi) by (apply Hbounds, in_concat; now exists r0).
    replace v with lo by lra. now apply gray_level_lo.
Qed.

Lemma resize_for_cnn_levels_witness :
  exists square lo hi,
    minimum_of (concat square) lo /\ maximum_of (concat square) hi /\
    gray_level lo hi lo = 0%Z /\
    (0 <= gray_level lo hi lo <= gray_level lo hi hi)%Z.
Proof.
  destruct (resize_for_cnn_levels cv2_sampling [[0; -10; -20]; [-30; -40; -80]] 3
              224 224 empty_world cv2_sampling_ok)
    as [square [lo [hi [Hlo [Hhi [_ [_ [Hzero [Hmono _]]]]]]]]].
  - repeat constructor.
  - cbn. lia.
  - lia.
  - exists square, lo, hi.
    split; [exact Hlo|]. split; [exact Hhi|]. split; [exact Hzero|].
    destruct Hlo as [Hinlo Halllo], Hhi as [Hinhi Hallhi].
    apply (Hmono lo hi Hinlo Hinhi). rewrite Forall_forall in Hallhi. now apply Hallhi.
Defined.
(** ** DatasetBuilder: the two loops of process_dataset *)

(** the loader, case by case; its outcome does not depend on the world *)
Lemma load_cases (L : Librosa) (path : string) (w : world) :
  match librosa_load L path SAMPLE_RATE with
  | Raised e =>
      if is_Exception e
      then load_and_preprocess_audio L path SAMPLE_RATE w =
           (Returned None,
            printed w ("Error loading " ++ path ++ ": " ++ str_exn e)%string)
      else load_and_preprocess_audio L path SAMPLE_RATE w = (Raised e, w)
  | Returned y0 =>
      match obind (active_region L (librosa_effects_trim L y0 35)) (util_normalize L) with
      | Returned audio =>
          load_and_preprocess_audio L path SAMPLE_RATE w = (Returned (Some audio), w)
      | Raised e => load_and_preprocess_audio L path SAMPLE_RATE w = (Raised e, w)
      end
  end.
Proof.
  unfold load_and_preprocess_audio, bind, try_except_Exception, lift, ret.
  destruct (librosa_load L path SAMPLE_RATE) as [y0|e].
  - destruct (active_region L (librosa_effects_trim L y0 35)) as [y'|e]; cbn [obind];
      [|reflexivity].
    now destruct (util_normalize L y').
  - now destruct (is_Exception e).
Qed.

Lemma printed_all_nil (w : world) : printed_all w [] = w.
Proof. reflexivity. Qed.

Lemma printed_all_app (w : world) (l1 l2 : list string) :
  printed_all w (l1 ++ l2) = printed_all (printed_all w l1) l2.
Proof. apply fold_left_app. Qed.

Lemma error_lines_cons (L : Librosa) (dir name : string) (names : list string) :
  error_lines L dir (name :: names) = error_lines L dir [name] ++ error_lines L dir names.
Proof. unfold error_lines. cbn [flat_map]. now rewrite app_nil_r. Qed.

(** one turn of either loop: the file is passed over, or the turn raises and
    leaves the world and the disk as they were, or the file gets its row *)
Lemma process_file_cases (L : Librosa) (cv : Cv2) (F : Files) (dir tag : string) (lbl : Z)
    (output_dir : string) (data : list dataset_record) (name : string)
    (w : world) (d : disk) (o : outcome (list dataset_record)) (s' : system) :
  process_file L cv F dir tag lbl output_dir data name (w, d) = (o, s') ->
  (readable_wav L dir name = false /\ o = Returned data /\
   s' = (printed_all w (error_lines L dir [name]), d))
  \/ (readable_wav L dir name = true /\ exists e, o = Raised e /\ s' = (w, d))
  \/ (readable_wav L dir name = true /\
      o = Returned (data ++ [row_of dir tag lbl output_dir name]) /\
      exists img,
        spectrogram_image L cv (os_path_join dir [name]) img /\
        let file := (output_path_of output_dir tag name, cv2_cvtColor_RGB2BGR img) in
        (s' = (w, d ++ [file]) /\ imwrite F (fst file) (snd file) = Returned true
         \/ s' = (w, d) /\ imwrite F (fst file) (snd file) = Returned false)).
Proof.
  unfold process_file, readable_wav, load_fails, error_lines. cbn [flat_map].
  destruct (endswith name ".wav"); cbn [andb].
  2:{ unfold retS. intro H. injection H as <- <-. left. now repeat split. }
  set (path := os_path_join dir [name]).
  unfold bindS at 1. unfold liftM. cbn [fst snd].
  pose proof (load_cases L path) as Hload.
  destruct (librosa_load L path SAMPLE_RATE) as [y0|e].
  2:{ destruct (is_Exception e); cbn [negb].
      - rewrite Hload. unfold retS. intro H. injection H as <- <-.
        left. now repeat split.
      - rewrite Hload. intro H. injection H as <- <-.
        right. left. split; [reflexivity|]. now exists e. }
  cbn [negb].
  destruct (obind (active_region L (librosa_effects_trim L y0 35)) (util_normalize L))
    as [audio|e].
  2:{ rewrite Hload. intro H. injection H as <- <-.
      right. left. split; [reflexivity|]. now exists e. }
  rewrite Hload. unfold bindS at 1. unfold liftO at 1.
  destruct (create_mel_spectrogram L _ _ _ _ _) as [mel|e] eqn:Emel.
  2:{ intro H. injection H as <- <-. right. left. split; [reflexivity|]. now exists e. }
  unfold bindS at 1. cbn [fst snd].
  destruct (resize_for_cnn_pure cv mel (224, 224)%Z) as [r Hr].
  unfold resize_for_cnn_default. rewrite Hr.
  destruct r as [img|e].
  2:{ intro H. injection H as <- <-. right. left. split; [reflexivity|]. now exists e. }
  unfold bindS, cv2_imwrite, retS. cbn [fst snd].
  destruct (imwrite F _ _) as [[|]|e] eqn:Ew.
  - intro H. injection H as <- <-. right. right. split; [reflexivity|].
    split; [reflexivity|]. exists img. split.
    + exists audio, mel. repeat split; assumption.
    + left. now split.
  - intro H. injection H as <- <-. right. right. split; [reflexivity|].
    split; [reflexivity|]. exists img. split.
    + exists audio, mel. repeat split; assumption.
    + right. now split.
  - intro H. injection H as <- <-. right. left. split; [reflexivity|]. now exists e.
Qed.

(** what a loop that returns has done: a row for each readable [.wav] file,
    in the order of the listing; a line for each file the loader gave up;
    and on disk the images whose write succeeded, each made by the pipeline
    from a file of the listing *)
Lemma process_files_returned (L : Librosa) (cv : Cv2) (F : Files) (dir tag : string)
    (lbl : Z) (output_dir : string) (names : list string) :
  forall (data : list dataset_record) (w : world) (d : disk)
         (data' : list dataset_record) (s' : system),
    process_files L cv F dir tag lbl output_dir names data (w, d) = (Returned data', s') ->
    data' = data ++ map (row_of dir tag lbl output_dir) (filter (readable_wav L dir) names) /\
    fst s' = printed_all w (error_lines L dir names) /\
    (exists files, snd s' = d ++ files /\
                   Forall (written_for L cv F dir tag output_dir names) files) /\
    Forall (fun name => readable_wav L dir name = true ->
                        exists img, spectrogram_image L cv (os_path_join dir [name]) img)
           names.
Proof.
  induction names as [|name rest IH]; intros data w d data' s' H.
  - cbn in H. unfold retS in H. injection H as <- <-. cbn [filter map fst snd].
    rewrite app_nil_r. repeat split; [|constructor].
    exists []. now rewrite app_nil_r.
  - cbn [process_files] in H. unfold bindS in H.
    destruct (process_file L cv F dir tag lbl output_dir data name (w, d))
      as [[data1|e] [w1 d1]] eqn:E; [|discriminate H].
    specialize (IH data1 w1 d1 data' s' H) as [Hdata [Hw [[files [Hd Hfiles]] Hall]]].
    assert (Hmono : Forall (written_for L cv F dir tag output_dir (name :: rest)) files).
    { eapply Forall_impl; [|exact Hfiles].
      intros f (n & img & Hin & Hrest). exists n, img. split; [now right|exact Hrest]. }
    rewrite error_lines_cons,
      (printed_all_app w (error_lines L dir [name]) (error_lines L dir rest)).
    cbn [filter].
    apply process_file_cases in E
      as [(Hr & Ho & Hs)|[(Hr & e & Ho & Hs)|(Hr & Ho & img & Himg & Hs)]].
    + injection Ho as <-. injection Hs as -> ->. rewrite Hr.
      repeat split; try assumption; [now exists files|].
      constructor; [|exact Hall]. rewrite Hr. discriminate.
    + discriminate Ho.
    + injection Ho as ->. rewrite Hr. cbn [map]. cbv zeta in Hs.
      assert (Hnone : error_lines L dir [name] = []).
      { unfold error_lines, readable_wav, load_fails in *. cbn [flat_map].
        destruct (endswith name ".wav"); [|discriminate Hr]. cbn [andb] in Hr.
        destruct (librosa_load L _ SAMPLE_RATE) as [y|e]; [reflexivity|].
        now destruct (is_Exception e). }
      rewrite Hnone, printed_all_nil.
      split; [rewrite Hdata, <- app_assoc; reflexivity|].
      assert (Hall' : Forall (fun name0 => readable_wav L dir name0 = true ->
                        exists img0, spectrogram_image L cv (os_path_join dir [name0]) img0)
                        (name :: rest))
        by (constructor; [intros _; now exists img|exact Hall]).
      destruct Hs as [[Hs Hw']|[Hs Hw']]; injection Hs as -> ->.
      * split; [exact Hw|]. split; [|exact Hall'].
        eexists. split; [rewrite Hd, <- app_assoc; reflexivity|].
        constructor; [|exact Hmono].
        exists name, img. cbn [fst snd] in *. repeat split; try assumption. now left.
      * split; [exact Hw|]. split; [|exact Hall']. now exists files.
Qed.
(** ** DatasetBuilder: when the loops return *)

(** the matrix of [create_mel_spectrogram] keeps the bands and at least one
    frame *)
Lemma create_mel_spectrogram_shape (L : Librosa) (audio : list R)
    (sr n_fft hop_length n_mels : Z) (frames : nat) :
  let mel := librosa_feature_melspectrogram L audio sr n_fft hop_length n_mels in
  rect frames mel -> (0 < shape0 mel)%nat -> (0 < frames)%nat ->
  exists out k,
    create_mel_spectrogram L audio sr n_fft hop_length n_mels = Returned out /\
    shape0 out = shape0 mel /\ rect k out /\ (0 < k)%nat.
Proof.
  intros mel Hrect Hrows Hframes.
  assert (Hmax : exists ref_value, maximum_of (concat mel) ref_value).
  { destruct mel as [|r t] eqn:E; [cbn in Hrows; lia|].
    inversion Hrect as [|? ? Hr _]; subst.
    destruct r as [|x r]; [cbn in Hframes; lia|].
    cbn [concat app]. eexists. apply np_max_maximum. reflexivity. }
  destruct Hmax as [ref_value Hmax].
  destruct (create_mel_spectrogram_returns L audio sr n_fft hop_length n_mels frames
              ref_value Hrect Hmax) as [mx [jl [_ [_ Hout]]]].
  fold mel in Hout.
  exists (map (firstn (Nat.min (jl + 6) frames)) (map (map (db_of ref_value)) mel)),
         (Nat.min (Nat.min (jl + 6) frames) frames).
  split; [exact Hout|]. split; [unfold shape0; now rewrite !length_map|].
  split; [|lia]. apply rect_map_firstn. now apply rect_map_map.
Qed.

Lemma shape3_RGB2BGR (img : Matrix pixel) :
  shape3 (cv2_cvtColor_RGB2BGR img) = shape3 img.
Proof.
  unfold shape3, cv2_cvtColor_RGB2BGR. now rewrite shape0_map, shape1_map_map.
Qed.

(** librosa and OpenCV behaving as documented, the pipeline makes an image
    of every file that loads, and every image it makes is 224 x 224 *)
Lemma spectrogram_image_exists (L : Librosa) (cv : Cv2) (path : string) (y0 : list R) :
  Librosa_ok L -> Cv2_ok cv ->
  librosa_load L path SAMPLE_RATE = Returned y0 ->
  librosa_effects_trim L y0 35 <> [] ->
  exists img, spectrogram_image L cv path img.
Proof.
  intros HL Hcv Hload Hy.
  set (y := librosa_effects_trim L y0 35) in *.
  assert (Hmx : exists mx, maximum_of (librosa_feature_rms L y 1024 512) mx).
  { pose proof (rms_frames L HL y) as Hframes.
    destruct (librosa_feature_rms L y 1024 512) as [|e0 energy];
      [cbn in Hframes; lia|].
    eexists. apply np_max_maximum. reflexivity. }
  destruct Hmx as [mx Hmx].
  destruct (active_region_length L y mx (rms_frames L HL y) Hmx) as [y' [Hy' Hlen]].
  assert (Hne : y' <> []).
  { apply length_pos_nonempty. apply length_pos_nonempty in Hy. lia. }
  set (audio := librosa_util_normalize L y').
  destruct (mel_shape L HL audio) as [H128 [frames [Hframes Hrect]]].
  destruct (create_mel_spectrogram_shape L audio SAMPLE_RATE FFT_WINDOW HOP_LENGTH N_MELS
              frames Hrect) as [mel [k [Hmel [Hm0 [Hmrect Hk]]]]]; [lia|exact Hframes|].
  rewrite H128 in Hm0.
  destruct (resize_for_cnn_pure cv mel (224, 224)%Z) as [r Hr].
  destruct (resize_for_cnn_default_returns cv mel k empty_world Hcv Hmrect)
    as [img [Himg _]]; [lia|exact Hk|lia|].
  rewrite Hr in Himg. injection Himg as ->.
  exists img, audio, mel. split; [|split; [exact Hmel|exact Hr]].
  intro w. exact (load_returned L path SAMPLE_RATE w y0 y' Hload Hy' Hne).
Qed.

Lemma spectrogram_image_shape (L : Librosa) (cv : Cv2) (path : string) (img : Matrix pixel) :
  Librosa_ok L -> Cv2_ok cv -> spectrogram_image L cv path img ->
  shape3 img = (224%nat, 224%nat, 3%nat).
Proof.
  intros HL Hcv (audio & mel & _ & Hmel & Himg).
  destruct (mel_shape L HL audio) as [H128 [frames [Hframes Hrect]]].
  destruct (create_mel_spectrogram_shape L audio SAMPLE_RATE FFT_WINDOW HOP_LENGTH N_MELS
              frames Hrect) as [mel' [k [Hmel' [Hm0 [Hmrect Hk]]]]]; [lia|exact Hframes|].
  rewrite Hmel in Hmel'. injection Hmel' as <-. rewrite H128 in Hm0.
  destruct (resize_for_cnn_default_returns cv mel k empty_world Hcv Hmrect)
    as [img' [Himg' Hshape]]; [lia|exact Hk|lia|].
  specialize (Himg empty_world). unfold resize_for_cnn_default in Himg.
  rewrite Himg in Himg'. now injection Himg' as <-.
Qed.

Lemma process_file_returns (L : Librosa) (cv : Cv2) (F : Files) (dir tag : string) (lbl : Z)
    (output_dir : string) (data : list dataset_record) (name : string) (s : system) :
  Librosa_ok L -> no_empty_clip L -> Cv2_ok cv ->
  (forall path img, exists b, imwrite F path img = Returned b) ->
  exists data' s',
    process_file L cv F dir tag lbl output_dir data name s = (Returned data', s').
Proof.
  intros HL Hclips Hcv Hwrite. unfold process_file.
  destruct (endswith name ".wav"); [|now exists data, s].
  set (path := os_path_join dir [name]).
  unfold bindS at 1. unfold liftM. destruct s as [w d]. cbn [fst snd].
  pose proof (load_cases L path w) as Hload.
  destruct (librosa_load L path SAMPLE_RATE) as [y0|e] eqn:E.
  - clear Hload.
    destruct (spectrogram_image_exists L cv path y0 HL Hcv E (Hclips path y0 E))
      as (img & audio & mel & Hload & Hmel & Himg).
    rewrite Hload. unfold bindS at 1. unfold liftO at 1. rewrite Hmel.
    unfold bindS at 1. cbn [fst snd]. rewrite Himg.
    unfold bindS, cv2_imwrite, retS. cbn [fst snd].
    destruct (Hwrite (output_path_of output_dir tag name) (cv2_cvtColor_RGB2BGR img))
      as [b ->].
    destruct b; eexists _, _; reflexivity.
  - rewrite (load_raises_Exception L HL path e E) in Hload. rewrite Hload.
    unfold retS. eexists _, _. reflexivity.
Qed.

Lemma process_files_returns (L : Librosa) (cv : Cv2) (F : Files) (dir tag : string) (lbl : Z)
    (output_dir : string) (names : list string) :
  Librosa_ok L -> no_empty_clip L -> Cv2_ok cv ->
  (forall path img, exists b, imwrite F path img = Returned b) ->
  forall (data : list dataset_record) (s : system),
  exists data' s',
    process_files L cv F dir tag lbl output_dir names data s = (Returned data', s').
Proof.
  intros HL Hclips Hcv Hwrite. induction names as [|name rest IH]; intros data s.
  - now exists data, s.
  - cbn [process_files]. unfold bindS.
    destruct (process_file_returns L cv F dir tag lbl output_dir data name s HL Hclips Hcv
                Hwrite) as (data1 & s1 & ->).
    apply IH.
Qed.

(** the run of [process_dataset_records], split at the two loops *)
Lemma process_dataset_records_run (L : Librosa) (cv : Cv2) (F : Files)
    (parkinsons_dir control_dir output_dir : string) (w : world) (d : disk)
    (pd_names hc_names : list string) (data1 : list dataset_record) (s1 : system) :
  os_makedirs F output_dir = Returned tt ->
  os_makedirs F (os_path_join output_dir ["spectrograms"]%string) = Returned tt ->
  os_listdir F parkinsons_dir = Returned pd_names ->
  os_listdir F control_dir = Returned hc_names ->
  process_files L cv F parkinsons_dir "pd_" 1 output_dir pd_names []
    (printed w "Processing Parkinson's audio files...", d) = (Returned data1, s1) ->
  process_dataset_records L cv F parkinsons_dir control_dir output_dir (w, d) =
  process_files L cv F control_dir "control_" 0 output_dir hc_names data1
    (printed (fst s1) "Processing Control audio files...", snd s1).
Proof.
  intros Hm1 Hm2 Hpd Hhc Hloop. unfold process_dataset_records.
  unfold bindS at 1. unfold liftO at 1. rewrite Hm1.
  unfold bindS at 1. unfold liftO at 1. rewrite Hm2.
  unfold bindS at 1. unfold liftM at 1. unfold print at 1. cbn [fst snd].
  unfold bindS at 1. unfold liftO at 1. rewrite Hpd.
  unfold bindS at 1. unfold printed in Hloop. rewrite Hloop.
  unfold bindS at 1. unfold liftM at 1. unfold print at 1.
  unfold bindS at 1. unfold liftO at 1. rewrite Hhc.
  unfold bindS, retS, printed.
  now destruct (process_files L cv F control_dir "control_" 0 output_dir hc_names data1 _)
    as [[data2|e] s2].
Qed.

(** a run that returns has made the directories, listed both, and come
    through both loops *)
Lemma process_dataset_records_returned (L : Librosa) (cv : Cv2) (F : Files)
    (parkinsons_dir control_dir output_dir : string) (w : world) (d : disk)
    (data : list dataset_record) (s' : system) :
  process_dataset_records L cv F parkinsons_dir control_dir output_dir (w, d)
  = (Returned data, s') ->
  exists pd_names hc_names data1 s1,
    os_listdir F parkinsons_dir = Returned pd_names /\
    os_listdir F control_dir = Returned hc_names /\
    process_files L cv F parkinsons_dir "pd_" 1 output_dir pd_names []
      (printed w "Processing Parkinson's audio files...", d) = (Returned data1, s1) /\
    process_files L cv F control_dir "control_" 0 output_dir hc_names data1
      (printed (fst s1) "Processing Control audio files...", snd s1) = (Returned data, s').
Proof.
  unfold process_dataset_records.
  unfold bindS at 1. unfold liftO at 1.
  destruct (os_makedirs F output_dir) as [[]|e]; [|discriminate].
  unfold bindS at 1. unfold liftO at 1.
  destruct (os_makedirs F (os_path_join output_dir ["spectrograms"]%string)) as [[]|e];
    [|discriminate].
  unfold bindS at 1. unfold liftM at 1. unfold print at 1. cbn [fst snd].
  unfold bindS at 1. unfold liftO at 1.
  destruct (os_listdir F parkinsons_dir) as [pd_names|e]; [|discriminate].
  unfold bindS at 1. fold (printed w "Processing Parkinson's audio files...").
  destruct (process_files L cv F parkinsons_dir "pd_" 1 output_dir pd_names [] _)
    as [[data1|e] s1] eqn:E1; [|discriminate].
  unfold bindS at 1. unfold liftM at 1. unfold print at 1.
  unfold bindS at 1. unfold liftO at 1.
  destruct (os_listdir F control_dir) as [hc_names|e]; [|discriminate].
  unfold bindS, retS. fold (printed (fst s1) "Processing Control audio files...").
  destruct (process_files L cv F control_dir "control_" 0 output_dir hc_names data1 _)
    as [[data2|e] s2] eqn:E2; [|discriminate].
  intro H. injection H as <- <-.
  exists pd_names, hc_names, data1, s1. repeat split; assumption.
Qed.
(** ** DatasetBuilder: rows, images and failures *)

Lemma printed_all_spec (w : world) (msgs : list string) :
  stdout (printed_all w msgs) = stdout w ++ msgs /\
  heap (printed_all w msgs) = heap w /\ rng (printed_all w msgs) = rng w.
Proof.
  revert w. induction msgs as [|m msgs IH]; intro w.
  - cbn. now rewrite app_nil_r.
  - unfold printed_all. cbn [fold_left]. fold (printed_all (printed w m) msgs).
    destruct (IH (printed w m)) as [H1 [H2 H3]]. rewrite H1, H2, H3.
    cbn [printed stdout heap rng]. now rewrite <- app_assoc.
Qed.

Lemma librosa_with_corrupt_ok (corrupt : list string) :
  Librosa_ok (librosa_with_corrupt corrupt).
Proof.
  split.
  - intros path e. cbn. destruct (existsb _ corrupt); [|discriminate].
    intro H. now injection H as <-.
  - intros y. cbn [librosa_with_corrupt librosa_feature_rms]. apply repeat_length.
  - intro audio. unfold librosa_with_corrupt. cbn [librosa_feature_melspectrogram].
    unfold flat_mel. split; [apply repeat_length|].
    exists 8%nat. split; [lia|]. apply Forall_forall. intros r Hr.
    apply repeat_spec in Hr. subst r. apply repeat_length.
Qed.

Lemma librosa_with_corrupt_clips (corrupt : list string) :
  no_empty_clip (librosa_with_corrupt corrupt).
Proof.
  intros path y0. cbn [librosa_with_corrupt librosa_load librosa_effects_trim].
  destruct (existsb _ corrupt); [discriminate|].
  intro H. injection H as <-. discriminate.
Qed.

Lemma two_dirs_ok (writable : bool) : Files_ok (two_dirs writable) "pd" "hc" "out".
Proof.
  split; try reflexivity.
  - eexists. reflexivity.
  - eexists. reflexivity.
  - intros path img. now exists writable.
Qed.

(** librosa, OpenCV and the file system behaving as documented, and no
    readable file being left without samples, the run gets through both
    loops *)
Lemma process_dataset_records_total (L : Librosa) (cv : Cv2) (F : Files)
    (parkinsons_dir control_dir output_dir : string) (s : system) :
  Librosa_ok L -> no_empty_clip L -> Cv2_ok cv ->
  Files_ok F parkinsons_dir control_dir output_dir ->
  exists data s',
    process_dataset_records L cv F parkinsons_dir control_dir output_dir s
    = (Returned data, s').
Proof.
  intros HL Hclips Hcv [[pd_names Hpd] [hc_names Hhc] Hm1 Hm2 Hwrite]. destruct s as [w d].
  destruct (process_files_returns L cv F parkinsons_dir "pd_" 1 output_dir pd_names
              HL Hclips Hcv Hwrite []
              (printed w "Processing Parkinson's audio files...", d))
    as (data1 & s1 & E1).
  rewrite (process_dataset_records_run L cv F parkinsons_dir control_dir output_dir w d
             pd_names hc_names data1 s1 Hm1 Hm2 Hpd Hhc E1).
  apply process_files_returns; assumption.
Qed.

(** X17: the rows of the table.  When [process_dataset] gets through both
    loops, the list [data] holds one row for each file of the Parkinson's
    directory whose name ends in [.wav] and which the loader could read, in
    the order of the listing and labelled 1, then one row for each such file
    of the control directory, labelled 0; a file the loader gave up has no
    row and one printed line, and nothing else is printed but the two
    headings. *)
Theorem process_dataset_rows (L : Librosa) (cv : Cv2) (F : Files)
    (parkinsons_dir control_dir output_dir : string) (w : world) (d : disk)
    (data : list dataset_record) (s' : system) :
  process_dataset_records L cv F parkinsons_dir control_dir output_dir (w, d)
  = (Returned data, s') ->
  exists pd_names hc_names,
    os_listdir F parkinsons_dir = Returned pd_names /\
    os_listdir F control_dir = Returned hc_names /\
    data = map (row_of parkinsons_dir "pd_" 1 output_dir)
               (filter (readable_wav L parkinsons_dir) pd_names) ++
           map (row_of control_dir "control_" 0 output_dir)
               (filter (readable_wav L control_dir) hc_names) /\
    stdout (fst s') =
      stdout w ++ "Processing Parkinson's audio files..."%string
                  :: error_lines L parkinsons_dir pd_names ++
                "Processing Control audio files..."%string
                  :: error_lines L control_dir hc_names /\
    heap (fst s') = heap w /\ rng (fst s') = rng w.
Proof.
  intro H.
  apply process_dataset_records_returned in H
    as (pd_names & hc_names & data1 & [w1 d1] & Hpd & Hhc & E1 & E2).
  apply process_files_returned in E1 as (Hdata1 & Hw1 & _).
  apply process_files_returned in E2 as (Hdata & Hw' & _).
  cbn [fst snd app] in *. subst data1 w1.
  exists pd_names, hc_names. split; [exact Hpd|]. split; [exact Hhc|].
  split; [exact Hdata|]. rewrite Hw'.
  destruct (printed_all_spec
              (printed (printed_all (printed w "Processing Parkinson's audio files...")
                          (error_lines L parkinsons_dir pd_names))
                 "Processing Control audio files...")
              (error_lines L control_dir hc_names)) as [H1 [H2 H3]].
  destruct (printed_all_spec (printed w "Processing Parkinson's audio files...")
              (error_lines L parkinsons_dir pd_names)) as [H4 [H5 H6]].
  rewrite H1, H2, H3. cbn [printed stdout heap rng]. rewrite H4, H5, H6.
  cbn [printed stdout heap rng]. repeat split.
  rewrite <- !app_assoc. reflexivity.
Qed.

Lemma process_dataset_rows_witness :
  exists data s',
    process_dataset_records (librosa_with_corrupt ["pd/b.wav"]%string) cv2_sampling
      (two_dirs true) "pd" "hc" "out" (empty_world, []) = (Returned data, s') /\
    map filename data = ["a.wav"; "a.wav"; "c.wav"]%string /\
    map label data = [1; 0; 0]%Z /\
    stdout (fst s') = ["Processing Parkinson's audio files...";
                       "Error loading pd/b.wav: corrupt file";
                       "Processing Control audio files..."]%string.
Proof.
  destruct (process_dataset_records_total (librosa_with_corrupt ["pd/b.wav"]%string)
              cv2_sampling (two_dirs true) "pd" "hc" "out" (empty_world, [])
              (librosa_with_corrupt_ok _) (librosa_with_corrupt_clips _) cv2_sampling_ok
              (two_dirs_ok true))
    as (data & s' & Hrun).
  exists data, s'. split; [exact Hrun|].
  destruct (process_dataset_rows _ _ _ _ _ _ _ _ _ _ Hrun)
    as (pd_names & hc_names & Hpd & Hhc & Hdata & Hout & _).
  injection Hpd as <-. injection Hhc as <-.
  rewrite Hdata, Hout. repeat split.
Defined.

Lemma written_for_image (L : Librosa) (cv : Cv2) (F : Files) (dir tag output_dir : string)
    (lbl : Z) (names : list string) (file : string * Matrix pixel) :
  Librosa_ok L -> Cv2_ok cv ->
  written_for L cv F dir tag output_dir names file ->
  shape3 (snd file) = (224%nat, 224%nat, 3%nat) /\
  imwrite F (fst file) (snd file) = Returned true /\
  In (fst file)
     (map spectrogram_path
        (map (row_of dir tag lbl output_dir) (filter (readable_wav L dir) names))).
Proof.
  intros HL Hcv (name & img & Hin & Hr & Hpath & Hbgr & Himg & Hw).
  split; [|split; [exact Hw|]].
  - rewrite Hbgr, shape3_RGB2BGR. exact (spectrogram_image_shape L cv _ img HL Hcv Himg).
  - rewrite map_map. apply in_map_iff. exists name. split; [now rewrite Hpath|].
    apply filter_In. now split.
Qed.

(** X18: from the two directories to the images.  librosa, OpenCV and the
    file system behaving as documented, and no readable file being left
    without samples by the trim, [process_dataset] gets through both loops,
    and every image it has put on disk is a 224 x 224 image of three
    channels, written at the spectrogram path of one of the rows.  (A
    readable file without samples makes the loader raise, and the run with
    it.) *)
Theorem process_dataset_images (L : Librosa) (cv : Cv2) (F : Files)
    (parkinsons_dir control_dir output_dir : string) (w : world) (d : disk) :
  Librosa_ok L -> no_empty_clip L -> Cv2_ok cv ->
  Files_ok F parkinsons_dir control_dir output_dir ->
  exists data s' files,
    process_dataset_records L cv F parkinsons_dir control_dir output_dir (w, d)
    = (Returned data, s') /\
    snd s' = d ++ files /\
    Forall (fun file => shape3 (snd file) = (224%nat, 224%nat, 3%nat) /\
                        imwrite F (fst file) (snd file) = Returned true /\
                        In (fst file) (map spectrogram_path data))
           files.
Proof.
  intros HL Hclips Hcv HF.
  destruct (process_dataset_records_total L cv F parkinsons_dir control_dir output_dir
              (w, d) HL Hclips Hcv HF) as (data & s' & Hrun).
  exists data, s'.
  pose proof Hrun as H.
  apply process_dataset_records_returned in H
    as (pd_names & hc_names & data1 & [w1 d1] & Hpd & Hhc & E1 & E2).
  apply process_files_returned in E1 as (Hdata1 & _ & (files1 & Hd1 & Hfiles1) & _).
  apply process_files_returned in E2 as (Hdata & _ & (files2 & Hd' & Hfiles2) & _).
  cbn [fst snd app] in *. subst data1 d1.
  exists (files1 ++ files2). split; [exact Hrun|].
  split; [now rewrite Hd', app_assoc|].
  rewrite Hdata, map_app. apply Forall_app. split.
  - eapply Forall_impl; [|exact Hfiles1]. intros file Hfile.
    destruct (written_for_image L cv F _ _ _ 1 _ file HL Hcv Hfile) as (H1 & H2 & H3).
    repeat split; try assumption. apply in_or_app. now left.
  - eapply Forall_impl; [|exact Hfiles2]. intros file Hfile.
    destruct (written_for_image L cv F _ _ _ 0 _ file HL Hcv Hfile) as (H1 & H2 & H3).
    repeat split; try assumption. apply in_or_app. now right.
Qed.

Lemma process_dataset_images_witness :
  exists data s' files,
    process_dataset_records (librosa_with_corrupt ["pd/b.wav"]%string) cv2_sampling
      (two_dirs true) "pd" "hc" "out" (empty_world, []) = (Returned data, s') /\
    snd s' = files /\
    Forall (fun file => shape3 (snd file) = (224%nat, 224%nat, 3%nat)) files.
Proof.
  destruct (process_dataset_images (librosa_with_corrupt ["pd/b.wav"]%string)
              cv2_sampling (two_dirs true) "pd" "hc" "out" empty_world []
              (librosa_with_corrupt_ok _) (librosa_with_corrupt_clips _) cv2_sampling_ok
              (two_dirs_ok true))
    as (data & s' & files & Hrun & Hd & Hfiles).
  exists data, s', files. split; [exact Hrun|]. split; [exact Hd|].
  eapply Forall_impl; [|exact Hfiles]. now intros file [H _].
Defined.

(** X19: one file is enough to lose the run.  The steps after the loader
    are not guarded: when a directory lists a [.wav] file that the loader
    reads but of which the pipeline makes no image --
    [create_mel_spectrogram] or [resize_for_cnn] raises on it --
    [process_dataset] raises, and returns no table at all. *)
Theorem process_dataset_aborts (L : Librosa) (cv : Cv2) (F : Files)
    (parkinsons_dir control_dir output_dir : string) (s : system)
    (dir name : string) (names : list string) :
  dir = parkinsons_dir \/ dir = control_dir ->
  os_listdir F dir = Returned names -> In name names ->
  readable_wav L dir name = true ->
  (forall img, ~ spectrogram_image L cv (os_path_join dir [name]) img) ->
  exists e,
    fst (process_dataset_records L cv F parkinsons_dir control_dir output_dir s) = Raised e.
Proof.
  intros Hdir Hlist Hin Hr Hno. destruct s as [w d].
  destruct (process_dataset_records L cv F parkinsons_dir control_dir output_dir (w, d))
    as [[data|e] s'] eqn:Hrun; [exfalso|now exists e].
  apply process_dataset_records_returned in Hrun
    as (pd_names & hc_names & data1 & [w1 d1] & Hpd & Hhc & E1 & E2).
  apply process_files_returned in E1 as (_ & _ & _ & Hall1).
  apply process_files_returned in E2 as (_ & _ & _ & Hall2).
  rewrite Forall_forall in Hall1, Hall2.
  destruct Hdir as [-> | ->].
  - rewrite Hpd in Hlist. injection Hlist as ->.
    destruct (Hall1 name Hin Hr) as [img Himg]. exact (Hno img Himg).
  - rewrite Hhc in Hlist. injection Hlist as ->.
    destruct (Hall2 name Hin Hr) as [img Himg]. exact (Hno img Himg).
Qed.

Lemma process_dataset_aborts_witness :
  exists e,
    fst (process_dataset_records librosa_no_band cv2_sampling (two_dirs true)
           "pd" "hc" "out" (empty_world, [])) = Raised e.
Proof.
  apply (process_dataset_aborts librosa_no_band cv2_sampling (two_dirs true)
           "pd" "hc" "out" (empty_world, []) "hc" "c.wav" ["a.wav"; "c.wav"]%string).
  - now right.
  - reflexivity.
  - right. now left.
  - reflexivity.
  - intros img (audio & mel & _ & Hmel & _). discriminate Hmel.
Defined.

Lemma process_file_ignores_imwrite (L : Librosa) (cv : Cv2) (F F' : Files)
    (dir tag : string) (lbl : Z) (output_dir : string) (data : list dataset_record)
    (name : string) (w : world) (d d' : disk) :
  (forall path img, exists b, imwrite F path img = Returned b) ->
  (forall path img, exists b, imwrite F' path img = Returned b) ->
  exists o w1 d1 d1',
    process_file L cv F dir tag lbl output_dir data name (w, d) = (o, (w1, d1)) /\
    process_file L cv F' dir tag lbl output_dir data name (w, d') = (o, (w1, d1')).
Proof.
  intros Hw Hw'. unfold process_file.
  destruct (endswith name ".wav"); [|now exists (Returned data), w, d, d'].
  unfold bindS, liftM, liftO, cv2_imwrite, retS. cbn [fst snd].
  destruct (load_and_preprocess_audio L _ SAMPLE_RATE w) as [[[audio|]|e] w1];
    [|now exists (Returned data), w1, d, d'|now exists (Raised e), w1, d, d'].
  destruct (create_mel_spectrogram L audio _ _ _ _) as [mel|e];
    [|now exists (Raised e), w1, d, d'].
  cbn [fst snd].
  destruct (resize_for_cnn_default cv mel w1) as [[img|e] w2];
    [|now exists (Raised e), w2, d, d'].
  destruct (Hw (output_path_of output_dir tag name) (cv2_cvtColor_RGB2BGR img)) as [b ->].
  destruct (Hw' (output_path_of output_dir tag name) (cv2_cvtColor_RGB2BGR img)) as [b' ->].
  destruct b, b'; eexists _, _, _, _; split; reflexivity.
Qed.

Lemma process_files_ignores_imwrite (L : Librosa) (cv : Cv2) (F F' : Files)
    (dir tag : string) (lbl : Z) (output_dir : string) (names : list string) :
  (forall path img, exists b, imwrite F path img = Returned b) ->
  (forall path img, exists b, imwrite F' path img = Returned b) ->
  forall (data : list dataset_record) (w : world) (d d' : disk),
  exists o w1 d1 d1',
    process_files L cv F dir tag lbl output_dir names data (w, d) = (o, (w1, d1)) /\
    process_files L cv F' dir tag lbl output_dir names data (w, d') = (o, (w1, d1')).
Proof.
  intros Hw Hw'. induction names as [|name rest IH]; intros data w d d'.
  - now exists (Returned data), w, d, d'.
  - cbn [process_files]. unfold bindS.
    destruct (process_file_ignores_imwrite L cv F F' dir tag lbl output_dir data name
                w d d' Hw Hw') as (o & w1 & d1 & d1' & -> & ->).
    destruct o as [data1|e]; [apply IH|now exists (Raised e), w1, d1, d1'].
Qed.

(** X20: the result of [cv2.imwrite] is never looked at.  Take two file
    systems with the same directories, on which writes may succeed or fail
    (return [True] or [False]) but do not raise: the two runs of
    [process_dataset] have the same outcome -- the same rows, or the same
    exception -- and print the same lines.  A row is appended whether or not
    its image has been written. *)
Theorem process_dataset_ignores_imwrite (L : Librosa) (cv : Cv2) (F F' : Files)
    (parkinsons_dir control_dir output_dir : string) (w : world) (d d' : disk) :
  (forall dir, os_listdir F' dir = os_listdir F dir) ->
  (forall dir, os_makedirs F' dir = os_makedirs F dir) ->
  (forall path img, exists b, imwrite F path img = Returned b) ->
  (forall path img, exists b, imwrite F' path img = Returned b) ->
  let run := process_dataset_records L cv F parkinsons_dir control_dir output_dir (w, d) in
  let run' := process_dataset_records L cv F' parkinsons_dir control_dir output_dir (w, d') in
  fst run' = fst run /\ fst (snd run') = fst (snd run).
Proof.
  intros Hlist Hmake Hw Hw'. cbv zeta.
  unfold process_dataset_records, bindS, liftO, liftM, print, retS. cbn [fst snd].
  rewrite !Hmake, !Hlist.
  destruct (os_makedirs F output_dir) as [[]|e]; [|now split].
  destruct (os_makedirs F (os_path_join output_dir ["spectrograms"]%string)) as [[]|e];
    [|now split].
  destruct (os_listdir F parkinsons_dir) as [pd_names|e]; [|now split].
  match goal with
  | |- context [process_files L cv F parkinsons_dir _ _ _ _ ?data (?w0, _)] =>
      destruct (process_files_ignores_imwrite L cv F F' parkinsons_dir "pd_" 1 output_dir
                  pd_names Hw Hw' data w0 d d') as (o & w1 & d1 & d1' & -> & ->)
  end.
  destruct o as [data1|e]; [|now split]. cbn [fst snd].
  destruct (os_listdir F control_dir) as [hc_names|e]; [|now split].
  match goal with
  | |- context [process_files L cv F control_dir _ _ _ _ ?data (?w0, _)] =>
      destruct (process_files_ignores_imwrite L cv F F' control_dir "control_" 0 output_dir
                  hc_names Hw Hw' data w0 d1 d1') as (o & w2 & d2 & d2' & -> & ->)
  end.
  destruct o as [data2|e]; now split.
Qed.

Lemma process_dataset_ignores_imwrite_witness :
  fst (process_dataset_records (librosa_with_corrupt ["pd/b.wav"]%string) cv2_sampling
         (two_dirs false) "pd" "hc" "out" (empty_world, [])) =
  fst (process_dataset_records (librosa_with_corrupt ["pd/b.wav"]%string) cv2_sampling
         (two_dirs true) "pd" "hc" "out" (empty_world, [])).
Proof.
  apply (process_dataset_ignores_imwrite (librosa_with_corrupt ["pd/b.wav"]%string)
           cv2_sampling (two_dirs true) (two_dirs false) "pd" "hc" "out" empty_world [] []).
  - reflexivity.
  - reflexivity.
  - intros path img. now exists true.
  - intros path img. now exists false.
Defined.
(** ** DatasetBuilder: the spectrogram paths *)

Lemma list_ascii_of_string_app (s t : string) :
  list_ascii_of_string (s ++ t) = list_ascii_of_string s ++ list_ascii_of_string t.
Proof. induction s as [|c s IH]; cbn; [reflexivity|now rewrite IH]. Qed.

Lemma string_length_app (s t : string) :
  String.length (s ++ t) = (String.length s + String.length t)%nat.
Proof. induction s as [|c s IH]; cbn; [reflexivity|now rewrite IH]. Qed.

Lemma string_app_inv_head (s t u : string) : (s ++ t)%string = (s ++ u)%string -> t = u.
Proof.
  induction s as [|c s IH]; cbn; intro H; [exact H|]. injection H as H. now apply IH.
Qed.

Lemma string_app_inv_tail (s t u : string) : (s ++ u)%string = (t ++ u)%string -> s = t.
Proof.
  intro H. apply (f_equal list_ascii_of_string) in H.
  rewrite !list_ascii_of_string_app in H. apply app_inv_tail in H.
  apply (f_equal string_of_list_ascii) in H.
  now rewrite !string_of_list_ascii_of_string in H.
Qed.

(** a string that ends with [suffix] is a stem followed by it *)
Lemma endswith_split (s suffix : string) :
  endswith s suffix = true -> exists stem, s = (stem ++ suffix)%string.
Proof.
  induction s as [|c s IH]; cbn [endswith].
  - destruct (String.eqb_spec EmptyString suffix) as [<-|_]; [|discriminate].
    intros _. now exists EmptyString.
  - destruct (String.eqb_spec (String c s) suffix) as [<-|_].
    + intros _. now exists EmptyString.
    + intro H. destruct (IH H) as [stem ->]. now exists (String c stem).
Qed.

(** a suffix no longer than [y] is looked for in [y] alone *)
Lemma endswith_app (x y suffix : string) :
  (String.length suffix <= String.length y)%nat ->
  endswith (x ++ y) suffix = endswith y suffix.
Proof.
  intro Hlen. induction x as [|c x IH]; [reflexivity|].
  cbn [append endswith].
  destruct (String.eqb_spec (String c (x ++ y)) suffix) as [E|_]; [|exact IH].
  apply (f_equal String.length) in E. cbn [String.length] in E.
  rewrite string_length_app in E. lia.
Qed.

(** [name[:-4]] of a [.wav] name is its stem *)
Lemma str_slice_stem (stem : string) : str_slice 0 (-4) (stem ++ ".wav") = stem.
Proof.
  unfold str_slice, py_slice, slice_index. rewrite list_ascii_of_string_app, length_app.
  set (l := list_ascii_of_string stem). cbn [list_ascii_of_string length].
  replace (0 <? 0)%Z with false by reflexivity.
  replace (-4 <? 0)%Z with true by reflexivity.
  replace (Z.to_nat (Z.min (Z.max 0 0) (Z.of_nat (length l + 4)))) with 0%nat by lia.
  replace (Z.to_nat (Z.min (Z.max 0 (-4 + Z.of_nat (length l + 4)))
                       (Z.of_nat (length l + 4)))) with (length l) by lia.
  cbn [skipn]. rewrite Nat.sub_0_r, firstn_app, Nat.sub_diag, firstn_all. cbn [firstn].
  rewrite app_nil_r. apply string_of_list_ascii_of_string.
Qed.

(** the directory of the spectrograms is a path that does not end with the
    separator *)
Lemma spectrograms_dir (output_dir : string) :
  let path := os_path_join output_dir ["spectrograms"]%string in
  ((path =? "")%string || endswith path "/")%bool = false.
Proof.
  cbv zeta. unfold os_path_join. cbn [fold_left].
  replace (startswith "spectrograms" "/") with false by reflexivity.
  assert (H : forall x y : string,
            (1 <= String.length y)%nat -> endswith y "/" = false ->
            (((x ++ y) =? "")%string || endswith (x ++ y) "/")%bool = false).
  { intros x y Hlen Hy. rewrite (endswith_app x y "/") by exact Hlen. rewrite Hy.
    rewrite orb_false_r. apply String.eqb_neq. intro E.
    apply (f_equal String.length) in E. rewrite string_length_app in E. cbn in E. lia. }
  destruct ((output_dir =? "")%string || endswith output_dir "/")%bool.
  - apply H; [cbn; lia|reflexivity].
  - apply (H output_dir ("/" ++ "spectrograms")%string); [cbn; lia|reflexivity].
Qed.

(** the spectrogram path of a [.wav] file: directory, separator, tag, stem,
    extension *)
Lemma output_path_of_wav (output_dir tag stem : string) :
  tag = "pd_"%string \/ tag = "control_"%string ->
  output_path_of output_dir tag (stem ++ ".wav") =
  (os_path_join output_dir ["spectrograms"] ++ "/" ++ tag ++ stem ++ ".png")%string.
Proof.
  intro Htag. unfold output_path_of.
  change (os_path_join output_dir ["spectrograms"%string;
                                   (tag ++ str_slice 0 (-4) (stem ++ ".wav") ++ ".png")%string])
    with (os_path_join (os_path_join output_dir ["spectrograms"%string])
            [(tag ++ str_slice 0 (-4) (stem ++ ".wav") ++ ".png")%string]).
  rewrite str_slice_stem.
  set (dir := os_path_join output_dir ["spectrograms"%string]).
  pose proof (spectrograms_dir output_dir) as Hdir. cbv zeta in Hdir. fold dir in Hdir.
  unfold os_path_join at 1. cbn [fold_left]. rewrite Hdir.
  now destruct Htag as [-> | ->].
Qed.

(** two [.wav] files of the two directories share a spectrogram path only
    if they are the same file of the same directory *)
Lemma output_path_of_inj (output_dir tag1 tag2 name1 name2 : string) :
  tag1 = "pd_"%string \/ tag1 = "control_"%string ->
  tag2 = "pd_"%string \/ tag2 = "control_"%string ->
  endswith name1 ".wav" = true -> endswith name2 ".wav" = true ->
  output_path_of output_dir tag1 name1 = output_path_of output_dir tag2 name2 ->
  tag1 = tag2 /\ name1 = name2.
Proof.
  intros H1 H2 E1 E2.
  apply endswith_split in E1 as [stem1 ->]. apply endswith_split in E2 as [stem2 ->].
  rewrite (output_path_of_wav _ _ _ H1), (output_path_of_wav _ _ _ H2).
  intro H. apply string_app_inv_head in H. cbn [append] in H. injection H as H.
  destruct H1 as [-> | ->], H2 as [-> | ->]; cbn [append] in H; try discriminate H.
  - split; [reflexivity|]. f_equal.
    apply (string_app_inv_head "pd_") in H. now apply string_app_inv_tail in H.
  - split; [reflexivity|]. f_equal.
    apply (string_app_inv_head "control_") in H. now apply string_app_inv_tail in H.
Qed.

Lemma NoDup_map_on {A B : Type} (f : A -> B) (l : list A) :
  (forall x y, In x l -> In y l -> f x = f y -> x = y) -> NoDup l -> NoDup (map f l).
Proof.
  intros Hinj Hl. induction Hl as [|a l Ha Hl IH]; [constructor|].
  cbn [map]. constructor.
  - intro Hin. apply in_map_iff in Hin as [b [Hb Hbl]].
    apply Ha. rewrite <- (Hinj b a); [exact Hbl|now right|now left|exact Hb].
  - apply IH. intros x y Hx Hy. apply Hinj; now right.
Qed.

Lemma NoDup_app_disjoint {A : Type} (l1 l2 : list A) :
  NoDup l1 -> NoDup l2 -> (forall a, In a l1 -> ~ In a l2) -> NoDup (l1 ++ l2).
Proof.
  intros H1 H2 Hd. induction H1 as [|a l Ha Hl IH]; [exact H2|].
  cbn [app]. constructor.
  - intro Hin. apply in_app_or in Hin as [Hin|Hin]; [now apply Ha|].
    apply (Hd a); [now left|exact Hin].
  - apply IH. intros b Hb. apply Hd. now right.
Qed.

Lemma spectrogram_path_rows (dir tag : string) (lbl : Z) (output_dir : string)
    (names : list string) :
  map spectrogram_path (map (row_of dir tag lbl output_dir) names) =
  map (output_path_of output_dir tag) names.
Proof. rewrite map_map. reflexivity. Qed.

(** X21: no two rows share a spectrogram.  A directory lists a name once;
    then the rows of a run that returns have pairwise distinct spectrogram
    paths: cutting the extension and adding the prefix [pd_] or [control_]
    never sends two files to one image, not even two files of the same name
    in the two directories. *)
Theorem process_dataset_paths_distinct (L : Librosa) (cv : Cv2) (F : Files)
    (parkinsons_dir control_dir output_dir : string) (w : world) (d : disk)
    (data : list dataset_record) (s' : system) :
  (forall dir names, os_listdir F dir = Returned names -> NoDup names) ->
  process_dataset_records L cv F parkinsons_dir control_dir output_dir (w, d)
  = (Returned data, s') ->
  NoDup (map spectrogram_path data).
Proof.
  intros Hlist H.
  apply process_dataset_records_returned in H
    as (pd_names & hc_names & data1 & [w1 d1] & Hpd & Hhc & E1 & E2).
  apply process_files_returned in E1 as (Hdata1 & _).
  apply process_files_returned in E2 as (Hdata & _).
  cbn [app] in Hdata1. subst data1 data.
  rewrite map_app, !spectrogram_path_rows.
  assert (Hwav : forall dir names name,
            In name (filter (readable_wav L dir) names) -> endswith name ".wav" = true).
  { intros dir names name Hin. apply filter_In in Hin as [_ Hr].
    unfold readable_wav in Hr. now apply andb_true_iff in Hr as [Hr _]. }
  apply NoDup_app_disjoint.
  - apply NoDup_map_on; [|apply NoDup_filter, (Hlist _ _ Hpd)].
    intros x y Hx Hy Hxy.
    apply (output_path_of_inj output_dir "pd_" "pd_" x y); try (now left);
      [exact (Hwav _ _ _ Hx)|exact (Hwav _ _ _ Hy)|exact Hxy].
  - apply NoDup_map_on; [|apply NoDup_filter, (Hlist _ _ Hhc)].
    intros x y Hx Hy Hxy.
    apply (output_path_of_inj output_dir "control_" "control_" x y); try (now right);
      [exact (Hwav _ _ _ Hx)|exact (Hwav _ _ _ Hy)|exact Hxy].
  - intros p Hp1 Hp2.
    apply in_map_iff in Hp1 as [x [Hx1 Hx]]. apply in_map_iff in Hp2 as [y [Hy1 Hy]].
    destruct (output_path_of_inj output_dir "pd_" "control_" x y) as [Htag _];
      [now left|now right|exact (Hwav _ _ _ Hx)|exact (Hwav _ _ _ Hy)|congruence|].
    discriminate Htag.
Qed.

Lemma two_dirs_NoDup (writable : bool) (dir : string) (names : list string) :
  os_listdir (two_dirs writable) dir = Returned names -> NoDup names.
Proof.
  cbn [two_dirs os_listdir].
  destruct (dir =? "pd")%string; [|destruct (dir =? "hc")%string; [|discriminate]];
    intro H; injection H as <-; repeat constructor; cbn; intuition discriminate.
Qed.

Lemma process_dataset_paths_distinct_witness :
  exists data s',
    process_dataset_records (librosa_with_corrupt ["pd/b.wav"]%string) cv2_sampling
      (two_dirs true) "pd" "hc" "out" (empty_world, []) = (Returned data, s') /\
    NoDup (map spectrogram_path data).
Proof.
  destruct (process_dataset_records_total (librosa_with_corrupt ["pd/b.wav"]%string)
              cv2_sampling (two_dirs true) "pd" "hc" "out" (empty_world, [])
              (librosa_with_corrupt_ok _) (librosa_with_corrupt_clips _) cv2_sampling_ok
              (two_dirs_ok true))
    as (data & s' & Hrun).
  exists data, s'. split; [exact Hrun|].
  exact (process_dataset_paths_distinct _ _ _ _ _ _ _ _ _ _ (two_dirs_NoDup true) Hrun).
Defined.
